(** * ChitChat: realtime delivery core

    A shallow embedding of the socket server (the [io.on('connection')]
    handlers), of the Message schema, of the two chat components of the
    client and of the group-call component, together with the properties
    the specification states about them.

    Conventions.
    - Identifiers (user ids, room ids, message ids, correlation ids) are
      JavaScript strings, taken to be well-formed where the schema casts
      them, the [:messageId] of the REST delete route apart; timestamps
      are milliseconds since the epoch, in [Z].
    - A field that may be absent on a JavaScript object is an [option].
    - A socket handler returns the new state with the list of deliveries
      it produced, in emission order.  A delivery records the sockets the
      emission reached, resolved when it was emitted.  A handler that
      reads the in-memory maps on both sides of an [await] is given in
      pieces, cut at its awaits, each piece on the server as it is when
      the piece runs: the room send, the delete handler, the
      disconnection, and the signal handler of the group call.  The
      handler run without interruption is the pieces in a row.
    - The store is reachable: an awaited operation of the store rejects
      only for a reason the schema or the query gives (a validator, a
      unique index, no matching document).  A [catch] is kept wherever the
      [try] can throw under that reading. *)

From stdpp Require Import gmap strings list fin_maps fin_sets.
From Stdlib Require Import ZArith Lia.

Local Open Scope Z_scope.
Local Open Scope string_scope.

(** ** JavaScript odds and ends *)

(** Truthiness of a possibly absent string: [undefined] and [''] are falsy. *)
Definition truthy (o : option string) : bool :=
  match o with
  | Some s => negb (String.eqb s "")
  | None => false
  end.

(** [a === b] on possibly absent strings. *)
Definition strict_eq (a b : option string) : bool := bool_decide (a = b).

(** [Array.prototype.findIndex], with [None] for [-1]. *)
Fixpoint findIndex {A} (p : A → bool) (l : list A) : option nat :=
  match l with
  | [] => None
  | x :: l' => if p x then Some O else S <$> findIndex p l'
  end.

(** [Array.prototype.some]. *)
Definition some {A} (p : A → bool) (l : list A) : bool := existsb p l.

(** Outcome of a call that may throw. *)
Inductive Error := ValidationError | DuplicateKeyError.

Inductive Result (A : Type) :=
| Ok (a : A)
| Err (e : Error).
Arguments Ok {A} a.
Arguments Err {A} e.

(** ** Documents *)

Module User.
(** The fields of the User collection the core reads or writes. *)
Record t := mk {
    username : string;
    avatar : string;
    online : bool;
    lastSeen : option Z
}.
End User.

Module Message.
(** [messageSchema] of backend/models/Message.js, with the two timestamps
    of [timestamps: true]. *)
Record t := mk {
    _id : string;
    sender : string;
    receiver : option string;
    room : option string;
    text : string;
    clientMsgId : option string;
    isDeleted : bool;
    deletedAt : option Z;
    createdAt : Z;
    updatedAt : Z
}.

#[global] Instance message_eq_dec : EqDecision t.
Proof. solve_decision. Defined.
End Message.

(** A reference to a user inside a message object on the wire: the raw id,
    the populated sub-document, or [null]. *)
Inductive UserRef :=
| RawId (id : string)
| Populated (id username avatar : string)
| NullRef.

#[global] Instance UserRef_eq_dec : EqDecision UserRef.
Proof. solve_decision. Defined.

(** [ref._id] of a populated reference; [undefined] on a raw id. *)
Definition ref_id (r : UserRef) : option string :=
  match r with
  | Populated id _ _ => Some id
  | _ => None
  end.

Module Wire.
(** A message object as the clients hold it and as it travels in
    [newMessage], [newRoomMessage] and [roomMessageDeleted]. *)
Record t := mk {
    _id : option string;
    sender : UserRef;
    senderName : option string;
    receiver : UserRef;
    room : option string;
    text : string;
    createdAt : Z;
    tempId : option string;
    clientMsgId : option string;
    isDeleted : bool;
    deletedAt : option Z;
    fromServer : bool;
    isTemp : bool;
    isFailed : bool
}.

#[global] Instance wire_eq_dec : EqDecision t.
Proof. solve_decision. Defined.
End Wire.

(** ** The Message collection

    The collection is keyed by [_id], the primary key of the store.  The
    operations below are the ones the server calls, with the constraints the
    schema declares: [sender] and [text] are required, [clientMsgId] carries a
    unique sparse index, and the five-field compound index is unique. *)

Module Db.

(** What [new Message({...})] holds before it is saved. *)
Record Doc := mkDoc {
    doc_sender : string;
    doc_receiver : option string;
    doc_room : option string;
    doc_text : string;
    doc_clientMsgId : option string
}.

(** The [required] validators: a required string is rejected when empty. *)
Definition validate (d : Doc) : bool :=
  negb (String.eqb (doc_sender d) "") && negb (String.eqb (doc_text d) "").

(** [clientMsgId: { unique: true, sparse: true }]: a document without the
    field is not indexed; two indexed documents never share the value. *)
Definition clientMsgId_conflict (c : option string) (m : Message.t) : bool :=
  match c with
  | Some x => bool_decide (Message.clientMsgId m = Some x)
  | None => false
  end.

(** [index({sender, receiver, text, clientMsgId, createdAt}, {unique: true})]. *)
Definition tuple_conflict (d : Doc) (now : Z) (m : Message.t) : bool :=
  bool_decide (Message.sender m = doc_sender d)
  && bool_decide (Message.receiver m = doc_receiver d)
  && bool_decide (Message.text m = doc_text d)
  && bool_decide (Message.clientMsgId m = doc_clientMsgId d)
  && bool_decide (Message.createdAt m = now).

Definition any_message (p : Message.t → bool) (ms : gmap string Message.t) : bool :=
  existsb (λ kv, p kv.2) (map_to_list ms).

(** The document [save] writes: defaults filled in, timestamps stamped. *)
Definition to_message (oid : string) (now : Z) (d : Doc) : Message.t :=
  Message.mk oid (doc_sender d) (doc_receiver d) (doc_room d) (doc_text d)
    (doc_clientMsgId d) false None now now.

(** [message.save()] of a new document.  [oid] is the identifier the driver
    generated for it and [now] the clock at the call. *)
Definition save (ms : gmap string Message.t) (oid : string) (now : Z) (d : Doc)
  : Result (gmap string Message.t * Message.t) :=
  if negb (validate d) then Err ValidationError
  else if bool_decide (is_Some (ms !! oid)) then Err DuplicateKeyError
  else if any_message (clientMsgId_conflict (doc_clientMsgId d)) ms then Err DuplicateKeyError
  else if any_message (tuple_conflict d now) ms then Err DuplicateKeyError
  else let m := to_message oid now d in Ok (<[oid := m]> ms, m).

(** The update document of the delete handler. *)
Definition soft_delete (now : Z) (m : Message.t) : Message.t :=
  Message.mk (Message._id m) (Message.sender m) (Message.receiver m) (Message.room m)
    "[Message deleted]" (Message.clientMsgId m) true (Some now)
    (Message.createdAt m) now.

(** [Message.findOneAndUpdate({_id, sender}, update, {new: true})]: the
    updated document, or [null] when no document matches the filter. *)
Definition findOneAndUpdate (ms : gmap string Message.t) (id sender : string) (now : Z)
  : gmap string Message.t * option Message.t :=
  match ms !! id with
  | Some m =>
      if bool_decide (Message.sender m = sender)
      then let m' := soft_delete now m in (<[id := m']> ms, Some m')
      else (ms, None)
  | None => (ms, None)
  end.

(** [Message.findOneAndDelete({_id, sender})] of the REST route. *)
Definition findOneAndDelete (ms : gmap string Message.t) (id sender : string)
  : gmap string Message.t * option Message.t :=
  match ms !! id with
  | Some m =>
      if bool_decide (Message.sender m = sender) then (delete id ms, Some m) else (ms, None)
  | None => (ms, None)
  end.

(** [User.findByIdAndUpdate(id, {online, lastSeen})]: no upsert. *)
Definition set_presence (us : gmap string User.t) (id : string) (on : bool) (seen : option Z)
  : gmap string User.t :=
  alter (λ u, User.mk (User.username u) (User.avatar u) on seen) id us.

(** One path of [Message.populate(doc, [{path, select: 'username avatar'}])]. *)
Definition populate_ref (us : gmap string User.t) (id : option string) : UserRef :=
  match id with
  | Some i =>
      match us !! i with
      | Some u => Populated i (User.username u) (User.avatar u)
      | None => NullRef
      end
  | None => NullRef
  end.

(** *** Histories of the collection

    The writes the server performs on the Message collection: [save] (both
    socket send handlers and the REST post), the soft delete of the socket
    handler, and the hard delete of the REST route. *)

Inductive Write :=
| Save (oid : string) (now : Z) (d : Doc)
| SoftDelete (id sender : string) (now : Z)
| HardDelete (id sender : string).

Definition apply_write (ms : gmap string Message.t) (w : Write) : gmap string Message.t :=
  match w with
  | Save oid now d =>
      match save ms oid now d with
      | Ok (ms', _) => ms'
      | Err _ => ms
      end
  | SoftDelete id sender now => (findOneAndUpdate ms id sender now).1
  | HardDelete id sender => (findOneAndDelete ms id sender).1
  end.

(** The collection after a history of writes, starting empty. *)
Definition history (ws : list Write) : gmap string Message.t :=
  foldl apply_write ∅ ws.

(** No two stored messages carry the same [clientMsgId]. *)
Definition unique_clientMsgId (ms : gmap string Message.t) : Prop :=
  ∀ k1 k2 m1 m2 c,
    ms !! k1 = Some m1 → ms !! k2 = Some m2 →
    Message.clientMsgId m1 = Some c → Message.clientMsgId m2 = Some c →
    k1 = k2.

End Db.

(** ** The socket server *)

Module Server.

(** A connected socket, with the two fields the auth middleware attaches. *)
Record Socket := mkSocket {
    socket_id : nat;
    userId : string;
    username : string
}.

(** The server: the two collections, the connected sockets, the adapter's
    rooms (room name to joined sockets) and the [activeRooms] map. *)
Record State := mkState {
    users : gmap string User.t;
    messages : gmap string Message.t;
    sockets : gmap nat Socket;
    rooms : gmap string (gset nat);
    activeRooms : gmap string (gset string)
}.

(** Server-to-client events with their payloads. *)
Inductive Event :=
| userOnline (uid : string)
| userOffline (uid : string)
| newMessage (m : Wire.t)
| messageError (error : string) (clientMsgId tempId : option string)
| userJoinedRoom (uid uname roomId : string)
| userLeftRoom (uid uname roomId : string)
| newRoomMessage (m : Wire.t)
| removeFailedMessage (tempId : option string)
| roomMessageDeleted (m : Wire.t).

#[global] Instance Event_eq_dec : EqDecision Event.
Proof. solve_decision. Defined.

(** One emission: the sockets it reached and what it carried. *)
Record Delivery := mkDelivery {
    recipients : gset nat;
    event : Event
}.

Definition members (σ : State) (room : string) : gset nat :=
  default ∅ (rooms σ !! room).

(** [io.to(room).emit(ev)]. *)
Definition io_to (σ : State) (room : string) (ev : Event) : Delivery :=
  mkDelivery (members σ room) ev.

(** [socket.emit(ev)]. *)
Definition socket_emit (s : Socket) (ev : Event) : Delivery :=
  mkDelivery {[socket_id s]} ev.

(** [socket.broadcast.emit(ev)]: every connected socket but this one. *)
Definition socket_broadcast (σ : State) (s : Socket) (ev : Event) : Delivery :=
  mkDelivery (dom (sockets σ) ∖ {[socket_id s]}) ev.

(** What socket [c] received out of a list of deliveries, in order. *)
Definition inbox (c : nat) (out : list Delivery) : list Event :=
  event <$> filter (λ d, c ∈ recipients d) out.

(** [socket.join(room)] and [socket.leave(room)] on the adapter; a room
    nobody is left in is dropped from the adapter. *)
Definition adapter_join (rs : gmap string (gset nat)) (room : string) (c : nat)
  : gmap string (gset nat) :=
  <[room := {[c]} ∪ default ∅ (rs !! room)]> rs.

Definition adapter_leave (rs : gmap string (gset nat)) (room : string) (c : nat)
  : gmap string (gset nat) :=
  match rs !! room with
  | Some cs =>
      let cs' := cs ∖ {[c]} in
      if bool_decide (cs' = ∅) then delete room rs else <[room := cs']> rs
  | None => rs
  end.

Definition adapter_leave_all (rs : gmap string (gset nat)) (c : nat)
  : gmap string (gset nat) :=
  filter (λ kv, kv.2 ≠ ∅) ((λ cs, cs ∖ {[c]}) <$> rs).

(** *** Handshake and connection *)

(** The errors the middleware passes to [next].  [UserUpdateFailed] is the
    one of its [catch], which a reachable store never triggers. *)
Inductive HandshakeError := NoTokenProvided | InvalidToken | UserUpdateFailed.

Section Handshake.

(** [jwt.verify] with the server's secret: the decoded [(userId, username)]
    of a token it accepts. *)
Variable verify : string → option (string * string).

(** The [io.use] middleware for the socket the transport numbered [c].
    [if (!token)] refuses an absent token and the empty string alike,
    before the token is verified. *)
Definition authenticate (σ : State) (c : nat) (token : option string)
  : State * (HandshakeError + Socket) :=
  match token with
  | None => (σ, inl NoTokenProvided)
  | Some tok =>
      if negb (truthy token) then (σ, inl NoTokenProvided)
      else
        match verify tok with
        | None => (σ, inl InvalidToken)
        | Some (uid, uname) =>
            let us := Db.set_presence (users σ) uid true None in
            (mkState us (messages σ) (sockets σ) (rooms σ) (activeRooms σ),
             inr (mkSocket c uid uname))
        end
  end.

(** The head of the [connection] handler: the socket joins its personal
    room and the others are told the user is online. *)
Definition connection (σ : State) (s : Socket) : State * list Delivery :=
  let σ1 := mkState (users σ) (messages σ) (<[socket_id s := s]> (sockets σ))
              (adapter_join (rooms σ) (userId s) (socket_id s)) (activeRooms σ) in
  (σ1, [socket_broadcast σ1 s (userOnline (userId s))]).

(** A client connecting: middleware, then the connection handler. *)
Definition connect (σ : State) (c : nat) (token : option string)
  : State * (HandshakeError + Socket) * list Delivery :=
  match authenticate σ c token with
  | (σ1, inr s) => let '(σ2, out) := connection σ1 s in (σ2, inr s, out)
  | (σ1, inl e) => (σ1, inl e, [])
  end.

End Handshake.

(** *** Direct messages *)

(** [{...populatedMessage.toObject(), clientMsgId, fromServer: true}]. *)
Definition messageToEmit (us : gmap string User.t) (m : Message.t)
    (clientMsgId : option string) : Wire.t :=
  Wire.mk (Some (Message._id m))
    (Db.populate_ref us (Some (Message.sender m))) None
    (Db.populate_ref us (Message.receiver m))
    (Message.room m) (Message.text m) (Message.createdAt m)
    None clientMsgId (Message.isDeleted m) (Message.deletedAt m) true false false.

(** The [sendMessage] handler. *)
Definition sendMessage (σ : State) (s : Socket) (receiver text : string)
    (clientMsgId : option string) (oid : string) (now : Z) : State * list Delivery :=
  match Db.save (messages σ) oid now
          (Db.mkDoc (userId s) (Some receiver) None text clientMsgId) with
  | Ok (ms, saved) =>
      let σ1 := mkState (users σ) ms (sockets σ) (rooms σ) (activeRooms σ) in
      let w := messageToEmit (users σ) saved clientMsgId in
      (σ1, [io_to σ1 receiver (newMessage w); io_to σ1 (userId s) (newMessage w)])
  | Err _ =>
      (σ, [socket_emit s (messageError "Failed to send message" clientMsgId None)])
  end.

(** *** Rooms *)

(** The [joinRoom] handler. *)
Definition joinRoom (σ : State) (s : Socket) (roomId : string) : State * list Delivery :=
  let σ1 := mkState (users σ) (messages σ) (sockets σ)
              (adapter_join (rooms σ) roomId (socket_id s))
              (<[roomId := {[userId s]} ∪ default ∅ (activeRooms σ !! roomId)]> (activeRooms σ)) in
  (σ1, [io_to σ1 roomId (userJoinedRoom (userId s) (username s) roomId)]).

(** [users.delete(uid)] on the set stored under [roomId], followed by the
    removal of the entry when the set is left empty. *)
Definition active_remove (ar : gmap string (gset string)) (roomId uid : string)
  : gmap string (gset string) :=
  match ar !! roomId with
  | Some us =>
      let us' := us ∖ {[uid]} in
      if bool_decide (size us' = 0%nat) then delete roomId ar else <[roomId := us']> ar
  | None => ar
  end.

(** The [leaveRoom] handler. *)
Definition leaveRoom (σ : State) (s : Socket) (roomId : string) : State * list Delivery :=
  let σ1 := mkState (users σ) (messages σ) (sockets σ)
              (adapter_leave (rooms σ) roomId (socket_id s))
              (active_remove (activeRooms σ) roomId (userId s)) in
  (σ1, [io_to σ1 roomId (userLeftRoom (userId s) (username s) roomId)]).

(** *** Room messages *)

(** The unconfirmed copy: [_id] and [tempId] are both the client's id. *)
Definition immediateMessage (roomId text : string) (tempId : option string)
    (sender senderName : string) (now : Z) : Wire.t :=
  Wire.mk tempId (RawId sender) (Some senderName) NullRef (Some roomId) text now
    tempId None false None false false false.

(** [{...populatedMessage.toObject(), tempId}]. *)
Definition savedRoomMessage (us : gmap string User.t) (m : Message.t)
    (tempId : option string) : Wire.t :=
  Wire.mk (Some (Message._id m))
    (Db.populate_ref us (Some (Message.sender m))) None
    (match Message.receiver m with Some r => RawId r | None => NullRef end)
    (Message.room m) (Message.text m) (Message.createdAt m)
    tempId (Message.clientMsgId m) (Message.isDeleted m) (Message.deletedAt m)
    false false false.

(** The [sendRoomMessage] handler suspends at [await message.save()] and
    at [await Message.populate(...)], and other handlers run meanwhile: it
    is three pieces, each on the server as it is when the piece runs.

    The head, up to the first [await]: the unconfirmed copy is built, at
    the clock [now], and emitted to the room. *)
Definition sendRoomMessage_first (σ : State) (roomId text : string)
    (tempId : option string) (sender senderName : string) (now : Z) : Delivery :=
  io_to σ roomId (newRoomMessage (immediateMessage roomId text tempId sender senderName now)).

(** The awaited [message.save()], one operation of the store, at the clock
    [saved_at]. *)
Definition sendRoomMessage_save (σ : State) (roomId text : string)
    (tempId : option string) (sender oid : string) (saved_at : Z)
  : State * Result Message.t :=
  match Db.save (messages σ) oid saved_at
          (Db.mkDoc sender None (Some roomId) text tempId) with
  | Ok (ms, saved) => (mkState (users σ) ms (sockets σ) (rooms σ) (activeRooms σ), Ok saved)
  | Err e => (σ, Err e)
  end.

(** The tail, run when the save and then the populate have resolved: the
    saved document, its sender populated, is emitted to the room, or, the
    save having failed, the [catch] tells the sending socket and withdraws
    the unconfirmed copy.  The populate reads the users and the emissions
    read the rooms, each as they are when read; both are fields of [σ],
    and any users go with any rooms. *)
Definition sendRoomMessage_second (σ : State) (s : Socket) (roomId : string)
    (tempId : option string) (r : Result Message.t) : list Delivery :=
  match r with
  | Ok saved => [io_to σ roomId (newRoomMessage (savedRoomMessage (users σ) saved tempId))]
  | Err _ =>
      [socket_emit s (messageError "Failed to send room message" None tempId);
       io_to σ roomId (removeFailedMessage tempId)]
  end.

(** The handler run without interruption. *)
Definition sendRoomMessage (σ : State) (s : Socket) (roomId text : string)
    (tempId : option string) (sender senderName : string)
    (oid : string) (now saved_at : Z) : State * list Delivery :=
  let first := sendRoomMessage_first σ roomId text tempId sender senderName now in
  let '(σ1, r) := sendRoomMessage_save σ roomId text tempId sender oid saved_at in
  (σ1, first :: sendRoomMessage_second σ1 s roomId tempId r).

(** *** Deletion *)

(** A document as [emit] serialises it: references stay raw ids. *)
Definition doc_wire (m : Message.t) : Wire.t :=
  Wire.mk (Some (Message._id m)) (RawId (Message.sender m)) None
    (match Message.receiver m with Some r => RawId r | None => NullRef end)
    (Message.room m) (Message.text m) (Message.createdAt m)
    None (Message.clientMsgId m) (Message.isDeleted m) (Message.deletedAt m)
    false false false.

(** First half of the [deleteRoomMessage] handler: the awaited
    [findOneAndUpdate], one atomic operation of the store. *)
Definition deleteRoomMessage_update (σ : State) (s : Socket) (messageId : string) (now : Z)
  : State * option Message.t :=
  let '(ms, r) := Db.findOneAndUpdate (messages σ) messageId (userId s) now in
  (mkState (users σ) ms (sockets σ) (rooms σ) (activeRooms σ), r).

(** Second half, run when the update has resolved: [null] throws, and so
    does [message.room.toString()] on a message that has no room; the
    [catch] reports either to the requesting socket. *)
Definition deleteRoomMessage_notify (σ : State) (s : Socket) (r : option Message.t)
  : list Delivery :=
  match r with
  | Some m =>
      match Message.room m with
      | Some roomId => [io_to σ roomId (roomMessageDeleted (doc_wire m))]
      | None => [socket_emit s (messageError "Failed to delete message" None None)]
      end
  | None => [socket_emit s (messageError "Failed to delete message" None None)]
  end.

(** The [deleteRoomMessage] handler, run without interruption. *)
Definition deleteRoomMessage (σ : State) (s : Socket) (messageId : string) (now : Z)
  : State * list Delivery :=
  let '(σ1, r) := deleteRoomMessage_update σ s messageId now in
  (σ1, deleteRoomMessage_notify σ1 s r).

(** *** Disconnection *)

(** One turn of [activeRooms.forEach((users, roomId) => ...)] for the entry
    [(roomId, us)]; [acc] is the map as mutated so far with the emissions
    made so far. *)
Definition leave_step (σ : State) (s : Socket)
    (acc : gmap string (gset string) * list Delivery) (entry : string * gset string)
  : gmap string (gset string) * list Delivery :=
  let '(roomId, us) := entry in
  if bool_decide (userId s ∈ us) then
    let us' := us ∖ {[userId s]} in
    let out := (acc.2 ++ [io_to σ roomId (userLeftRoom (userId s) (username s) roomId)])%list in
    if bool_decide (size us' = 0%nat)
    then (delete roomId acc.1, out)
    else (<[roomId := us']> acc.1, out)
  else acc.

(** The loop of the [disconnect] handler over the whole map. *)
Definition leave_all_rooms (σ : State) (s : Socket)
  : gmap string (gset string) * list Delivery :=
  foldl (leave_step σ s) (activeRooms σ, []) (map_to_list (activeRooms σ)).

(** The transport closing socket [s]: the library drops the socket from the
    namespace and from every adapter room, then the [disconnect] handler
    runs: the presence update, the [userOffline] broadcast, the loop over
    [activeRooms].  The [Map] is walked in the order of the map's entries
    here, in insertion order in the source. *)
Definition disconnect (σ : State) (s : Socket) (now : Z) : State * list Delivery :=
  let σ0 := mkState (users σ) (messages σ) (delete (socket_id s) (sockets σ))
              (adapter_leave_all (rooms σ) (socket_id s)) (activeRooms σ) in
  let us := Db.set_presence (users σ0) (userId s) false (Some now) in
  let σ1 := mkState us (messages σ0) (sockets σ0) (rooms σ0) (activeRooms σ0) in
  let offline := socket_broadcast σ1 s (userOffline (userId s)) in
  let '(ar, leaves) := leave_all_rooms σ1 s in
  (mkState us (messages σ0) (sockets σ0) (rooms σ0) ar, offline :: leaves).

(** *** Reading a list of deliveries *)

(** How many times [ev] was emitted. *)
Definition emitted (ev : Event) (out : list Delivery) : nat :=
  length (filter (λ d, event d = ev) out).

(** The active set of a room once [uid] has been taken out of [us]: the
    entry is gone when nobody is left. *)
Definition after_leave (uid : string) (us : gset string) : option (gset string) :=
  if bool_decide (size (us ∖ {[uid]}) = 0%nat) then None else Some (us ∖ {[uid]}).

(** *** Presence *)

(** The two updates the server applies to a user document. *)
Definition came_online (u : User.t) : User.t :=
  User.mk (User.username u) (User.avatar u) true None.

Definition went_offline (now : Z) (u : User.t) : User.t :=
  User.mk (User.username u) (User.avatar u) false (Some now).

(** Whether [uid] still has a connected socket other than [s]. *)
Definition has_other_connection (σ : State) (s : Socket) : Prop :=
  ∃ s', sockets σ !! socket_id s' = Some s'
        ∧ socket_id s' ≠ socket_id s ∧ userId s' = userId s.

(** The presence rule as the specification words it, for the connection
    [s] closing at [now]: a user with another live connection stays online,
    and a user whose last connection closes goes offline at [now]. *)
Definition presence_kept_while_connected (σ : State) (s : Socket) (now : Z) : Prop :=
  ∀ u, users σ !! userId s = Some u →
    ∃ u', users (disconnect σ s now).1 !! userId s = Some u'
          ∧ (has_other_connection σ s →
               User.online u' = User.online u ∧ User.lastSeen u' = User.lastSeen u)
          ∧ (¬ has_other_connection σ s →
               User.online u' = false ∧ User.lastSeen u' = Some now).

(** The delivery rule as the specification words it, for a direct send of
    socket [s] whose save succeeds: every live connection of the receiver
    and of the sender receives the message as [newMessage]. *)
Definition delivered_to_live_connections (σ : State) (s : Socket) (receiver text : string)
    (clientMsgId : option string) (oid : string) (now : Z) : Prop :=
  ∀ ms saved,
    Db.save (messages σ) oid now (Db.mkDoc (userId s) (Some receiver) None text clientMsgId)
      = Ok (ms, saved) →
    ∀ s', sockets σ !! socket_id s' = Some s' →
      userId s' = receiver ∨ userId s' = userId s →
      newMessage (messageToEmit (users σ) saved clientMsgId)
        ∈ inbox (socket_id s') (sendMessage σ s receiver text clientMsgId oid now).2.

(** *** Two delete calls in flight

    A delete call suspends once, at the awaited update.  Two calls are
    therefore four atomic steps, and an execution of the pair is an
    interleaving of [Update; Notify] of the first with [Update; Notify] of
    the second. *)

Inductive Step :=
| Update (first : bool)
| Notify (first : bool).

(** All merges of two lists that keep the order within each. *)
Fixpoint interleave {A} (l1 : list A) : list A → list (list A) :=
  fix merge (l2 : list A) : list (list A) :=
    match l1, l2 with
    | [], _ => [l2]
    | _, [] => [l1]
    | x :: l1', y :: l2' =>
        (((x ::.) <$> interleave l1' l2) ++ ((y ::.) <$> merge l2'))%list
    end.

Definition schedules : list (list Step) :=
  interleave [Update true; Notify true] [Update false; Notify false].

(** A call: the requesting socket and the clock at its update. *)
Record Call := mkCall {
    call_socket : Socket;
    call_now : Z
}.

(** The pair in flight: the server, what each update returned, and the
    deliveries so far. *)
Record Flight := mkFlight {
    flight_state : State;
    result1 : option Message.t;
    result2 : option Message.t;
    flight_out : list Delivery
}.

Definition delete_step (c1 c2 : Call) (messageId : string) (f : Flight) (x : Step) : Flight :=
  match x with
  | Update true =>
      let '(σ, r) := deleteRoomMessage_update (flight_state f) (call_socket c1) messageId (call_now c1) in
      mkFlight σ r (result2 f) (flight_out f)
  | Update false =>
      let '(σ, r) := deleteRoomMessage_update (flight_state f) (call_socket c2) messageId (call_now c2) in
      mkFlight σ (result1 f) r (flight_out f)
  | Notify true =>
      mkFlight (flight_state f) (result1 f) (result2 f)
        (flight_out f ++ deleteRoomMessage_notify (flight_state f) (call_socket c1) (result1 f))%list
  | Notify false =>
      mkFlight (flight_state f) (result1 f) (result2 f)
        (flight_out f ++ deleteRoomMessage_notify (flight_state f) (call_socket c2) (result2 f))%list
  end.

Definition run_deletes (σ : State) (c1 c2 : Call) (messageId : string) (sched : list Step)
  : Flight :=
  foldl (delete_step c1 c2 messageId) (mkFlight σ None None []) sched.

(** A [roomMessageDeleted] carrying the soft-deleted form of message [id]. *)
Definition is_deletion_of (id : string) (e : Event) : bool :=
  match e with
  | roomMessageDeleted w =>
      bool_decide (Wire._id w = Some id) && String.eqb (Wire.text w) "[Message deleted]"
      && Wire.isDeleted w
  | _ => false
  end.

Definition deletions_broadcast (id : string) (out : list Delivery) : nat :=
  length (filter (λ d, is_deletion_of id (event d) = true) out).

(** The terminal state the specification promises for a pair of delete
    calls by the sender of [id]: one soft-deleted record with the marker
    text, broadcast at least once. *)
Definition deleted_and_broadcast (id : string) (f : Flight) : Prop :=
  (∃ m, messages (flight_state f) !! id = Some m
        ∧ Message.text m = "[Message deleted]" ∧ Message.isDeleted m = true)
  ∧ (1 ≤ deletions_broadcast id (flight_out f))%nat.

(** Number of events of a list that satisfy [p]. *)
Definition count_events (p : Event → bool) (evs : list Event) : nat :=
  length (filter (λ e, p e = true) evs).

Definition is_newRoomMessage_with (tempId : option string) (e : Event) : bool :=
  match e with
  | newRoomMessage w => bool_decide (Wire.tempId w = tempId)
  | _ => false
  end.

Definition is_removeFailedMessage_with (tempId : option string) (e : Event) : bool :=
  match e with
  | removeFailedMessage t => bool_decide (t = tempId)
  | _ => false
  end.

Definition is_messageError (e : Event) : bool :=
  match e with
  | messageError _ _ _ => true
  | _ => false
  end.

Definition is_newMessage (e : Event) : bool :=
  match e with
  | newMessage _ => true
  | _ => false
  end.

(** The emissions of the loop over the entries [l], in order. *)
Definition leave_emissions (σ : State) (s : Socket) (l : list (string * gset string))
  : list Delivery :=
  omap (λ e : string * gset string,
          if bool_decide (userId s ∈ e.2)
          then Some (io_to σ e.1 (userLeftRoom (userId s) (username s) e.1))
          else None) l.

(** *** Runs of the server *)

(** What a connected client may ask for, one constructor per [socket.on]. *)
Inductive Request :=
| SendMessage (receiver text : string) (clientMsgId : option string) (oid : string) (now : Z)
| JoinRoom (roomId : string)
| LeaveRoom (roomId : string)
| SendRoomMessage (roomId text : string) (tempId : option string)
    (sender senderName oid : string) (now saved_at : Z)
| DeleteRoomMessage (messageId : string) (now : Z).

(** The listener the request of socket [s] is dispatched to. *)
Definition handle (σ : State) (s : Socket) (req : Request) : State * list Delivery :=
  match req with
  | SendMessage receiver text clientMsgId oid now =>
      sendMessage σ s receiver text clientMsgId oid now
  | JoinRoom roomId => joinRoom σ s roomId
  | LeaveRoom roomId => leaveRoom σ s roomId
  | SendRoomMessage roomId text tempId sender senderName oid now saved_at =>
      sendRoomMessage σ s roomId text tempId sender senderName oid now saved_at
  | DeleteRoomMessage messageId now => deleteRoomMessage σ s messageId now
  end.

(** One event of the server's loop, its handler run to its end: a client
    connects on a socket number not in use, a connected socket sends a
    request, or a connected socket closes.  The states inside a
    disconnection, which other handlers run in, are those of [transition]
    below. *)
Inductive step (verify : string → option (string * string)) : State → State → Prop :=
| step_connect σ c token σ' s out :
    sockets σ !! c = None →
    connect verify σ c token = (σ', inr s, out) →
    step verify σ σ'
| step_request σ s req :
    sockets σ !! socket_id s = Some s →
    step verify σ (handle σ s req).1
| step_disconnect σ s now :
    sockets σ !! socket_id s = Some s →
    step verify σ (disconnect σ s now).1.

(** The states a server process goes through: the collections are
    whatever the store holds when it starts, the in-memory maps are empty. *)
Inductive reachable (verify : string → option (string * string)) : State → Prop :=
| reachable_start us ms : reachable verify (mkState us ms ∅ ∅ ∅)
| reachable_step σ σ' : reachable verify σ → step verify σ σ' → reachable verify σ'.

(** The identities active in a room. *)
Definition active (σ : State) (room : string) : gset string :=
  default ∅ (activeRooms σ !! room).

(** Every identity active in a room has a connection joined to the room. *)
Definition active_are_joined (σ : State) : Prop :=
  ∀ room u, u ∈ active σ room →
    ∃ s, sockets σ !! socket_id s = Some s ∧ userId s = u ∧ socket_id s ∈ members σ room.

(** *** A disconnection, cut where its handler awaits

    When the transport closes socket [s] the library takes the socket out
    of the namespace and of every room and the [disconnect] handler starts:
    it reads the clock, asks the store for the presence update and
    suspends.  Other events are handled meanwhile.  The store runs the
    update, and the handler resumes on the server as it is then: the
    [userOffline] broadcast and the loop over [activeRooms]. *)
Definition disconnect_close (σ : State) (s : Socket) : State :=
  mkState (users σ) (messages σ) (delete (socket_id s) (sockets σ))
    (adapter_leave_all (rooms σ) (socket_id s)) (activeRooms σ).

Definition disconnect_update (σ : State) (s : Socket) (now : Z) : State :=
  mkState (Db.set_presence (users σ) (userId s) false (Some now))
    (messages σ) (sockets σ) (rooms σ) (activeRooms σ).

Definition disconnect_resume (σ : State) (s : Socket) : State * list Delivery :=
  let offline := socket_broadcast σ s (userOffline (userId s)) in
  let '(ar, leaves) := leave_all_rooms σ s in
  (mkState (users σ) (messages σ) (sockets σ) (rooms σ) ar, offline :: leaves).

(** A server process between two events: its state, and the [disconnect]
    handlers that are suspended, each with its socket and, while the store
    has not run the update yet, the clock the handler read. *)
Record Process := mkProcess {
    state : State;
    closing : list (Socket * option Z)
}.

(** The requests whose handler changes nothing but the collection, through
    one write the store runs while the handler is suspended. *)
Definition is_write (req : Request) : bool :=
  match req with
  | JoinRoom _ | LeaveRoom _ => false
  | _ => true
  end.

(** One event of the loop, with handlers in flight: the middleware
    answers a handshake (the presence update of an accepted one), the
    [connection] handler runs for a socket on a number not in use, a
    connected socket sends a request, the store runs the write of a
    request made earlier (its socket may have closed since), a connected
    socket closes, the store runs the presence update of a disconnection,
    a suspended [disconnect] handler resumes.  The relation keeps no
    record of which handshakes and writes are pending, so it allows every
    order the server can go through and more. *)
Inductive transition (verify : string → option (string * string)) : Process → Process → Prop :=
| on_handshake σ p c token σ' r :
    authenticate verify σ c token = (σ', r) →
    transition verify (mkProcess σ p) (mkProcess σ' p)
| on_connection σ p s :
    sockets σ !! socket_id s = None →
    transition verify (mkProcess σ p) (mkProcess (connection σ s).1 p)
| on_request σ p s req :
    sockets σ !! socket_id s = Some s →
    transition verify (mkProcess σ p) (mkProcess (handle σ s req).1 p)
| on_write σ p s req :
    is_write req = true →
    transition verify (mkProcess σ p) (mkProcess (handle σ s req).1 p)
| on_close σ p s now :
    sockets σ !! socket_id s = Some s →
    transition verify (mkProcess σ p) (mkProcess (disconnect_close σ s) (p ++ [(s, Some now)]))
| on_update σ p1 p2 s now :
    transition verify (mkProcess σ (p1 ++ (s, Some now) :: p2))
      (mkProcess (disconnect_update σ s now) (p1 ++ (s, None) :: p2))
| on_resume σ p1 p2 s :
    transition verify (mkProcess σ (p1 ++ (s, None) :: p2))
      (mkProcess (disconnect_resume σ s).1 (p1 ++ p2)).

(** The processes a server goes through from its start. *)
Inductive runs (verify : string → option (string * string)) : Process → Prop :=
| runs_start us ms : runs verify (mkProcess (mkState us ms ∅ ∅ ∅) [])
| runs_event P P' : runs verify P → transition verify P P' → runs verify P'.

(** A connected socket of identity [u] is joined to [room]. *)
Definition has_joined (σ : State) (room u : string) : Prop :=
  ∃ s, sockets σ !! socket_id s = Some s ∧ userId s = u ∧ socket_id s ∈ members σ room.

(** A [disconnect] handler of a socket of identity [u] is suspended. *)
Definition is_closing (P : Process) (u : string) : Prop :=
  ∃ s t, (s, t) ∈ closing P ∧ userId s = u.

(** *** Housekeeping of the in-memory maps *)

(** No adapter room and no active set is empty, every joined socket is
    connected, and the sockets map is keyed by the socket's own number. *)
Definition tidy (σ : State) : Prop :=
  (∀ room cs, rooms σ !! room = Some cs →
     cs ≠ ∅ ∧ ∀ c, c ∈ cs → is_Some (sockets σ !! c))
  ∧ (∀ room us, activeRooms σ !! room = Some us → us ≠ ∅)
  ∧ (∀ c s, sockets σ !! c = Some s → socket_id s = c).

End Server.

(** ** The REST routes of the messages

    [req.user._id] is what the authentication middleware resolved and is an
    argument here; a body or query field may be absent. *)

Module MessageRoutes.

(** The responses of the routes.  [Created] carries the saved document (the
    route populates its references before sending it); [Rejected] is the
    status 400 of the [catch], carrying the error of [save]; [CastFailed]
    is the status 500 of the [catch] of the delete route, for a
    [:messageId] the query cannot cast to an ObjectId. *)
Inductive Response :=
| Created (m : Message.t)
| BadRequest (message : string)
| Rejected (e : Error)
| NotFound (message : string)
| Deleted (message : string)
| CastFailed.

(** [router.post('/')]: the checks on the body, then [save]. *)
Definition post (ms : gmap string Message.t) (user : string)
    (receiverId roomId text clientMsgId : option string) (oid : string) (now : Z)
  : gmap string Message.t * Response :=
  if negb (truthy text) then (ms, BadRequest "Message text is required")
  else
    let target :=
      if truthy receiverId then Some (receiverId, None)
      else if truthy roomId then Some (None, roomId)
      else None in
    match target with
    | None => (ms, BadRequest "Either receiverId or roomId is required")
    | Some (receiver, room) =>
        match Db.save ms oid now (Db.mkDoc user receiver room (default "" text) clientMsgId) with
        | Ok (ms', m) => (ms', Created m)
        | Err e => (ms, Rejected e)
        end
    end.

Section Cast.

(** Which strings the driver casts to an ObjectId. *)
Variable castable : string → bool.

(** [router.delete('/:messageId')].  The filter casts [:messageId] to an
    ObjectId; when it cannot, [findOneAndDelete] rejects and the [catch]
    answers 500. *)
Definition delete (ms : gmap string Message.t) (user messageId : string)
  : gmap string Message.t * Response :=
  if castable messageId then
    match Db.findOneAndDelete ms messageId user with
    | (ms', Some _) => (ms', Deleted "Message deleted successfully")
    | (ms', None) => (ms', NotFound "Message not found or unauthorized")
    end
  else (ms, CastFailed).

End Cast.

(** [parseInt(req.query.x) || d], the query field already parsed: [None]
    is [NaN]. *)
Definition or_default (parsed : option Z) (d : Z) : Z :=
  match parsed with
  | Some n => if Z.eqb n 0 then d else n
  | None => d
  end.

(** The filter of [router.get('/:userId')]: the messages between the two. *)
Definition between (user other : string) (m : Message.t) : bool :=
  (String.eqb (Message.sender m) user && bool_decide (Message.receiver m = Some other))
  || (String.eqb (Message.sender m) other && bool_decide (Message.receiver m = Some user)).

(** The filter of [router.get('/room/:roomId')]. *)
Definition in_room (roomId : string) (m : Message.t) : bool :=
  bool_decide (Message.room m = Some roomId).

(** The tail of both [get] routes, on the found documents as the store
    sorted them, newest first: the page and the limit with their defaults,
    [.skip(skip).limit(limit)], then [messages.reverse()].  What the store
    does with a negative [skip] or a non-positive [limit] is not modelled:
    the result is [None] there. *)
Definition page_of (newest_first : list Message.t) (page limit : option Z)
  : option (list Message.t) :=
  let page := or_default page 1 in
  let limit := or_default limit 20 in
  let skip := (page - 1) * limit in
  if Z.leb 0 skip && Z.ltb 0 limit
  then Some (reverse (take (Z.to_nat limit) (drop (Z.to_nat skip) newest_first)))
  else None.

(** A list in descending, respectively ascending, order of [createdAt]. *)
Definition newest_first_order (l : list Message.t) : Prop :=
  ∀ i j mi mj, (i < j)%nat → l !! i = Some mi → l !! j = Some mj →
    (Message.createdAt mj ≤ Message.createdAt mi)%Z.

Definition oldest_first_order (l : list Message.t) : Prop :=
  ∀ i j mi mj, (i < j)%nat → l !! i = Some mi → l !! j = Some mj →
    (Message.createdAt mi ≤ Message.createdAt mj)%Z.

(** Exactly one of [receiver] and [room] is set. *)
Definition one_target (m : Message.t) : bool :=
  xorb (bool_decide (is_Some (Message.receiver m))) (bool_decide (is_Some (Message.room m))).

End MessageRoutes.

(** ** The room chat component *)

Module RoomChat.

(** The state of the component the handlers read and write. *)
Record State := mkState {
    roomId : string;
    isMounted : bool;
    messages : list Wire.t;
    socketError : option string
}.

(** The predicate of [prev.findIndex] in [messageHandler]:
    [(msg.tempId && msg.tempId === message.tempId) ||
     (msg._id && msg._id === message._id)]. *)
Definition matches (message msg : Wire.t) : bool :=
  (truthy (Wire.tempId msg) && strict_eq (Wire.tempId msg) (Wire.tempId message))
  || (truthy (Wire._id msg) && strict_eq (Wire._id msg) (Wire._id message)).

(** The updater [messageHandler] passes to [setMessages]. *)
Definition merge (prev : list Wire.t) (message : Wire.t) : list Wire.t :=
  match findIndex (matches message) prev with
  | Some existingIndex => <[existingIndex := message]> prev
  | None => prev ++ [message]
  end.

(** [messageHandler], the listener of [newRoomMessage]. *)
Definition messageHandler (st : State) (message : Wire.t) : State :=
  if isMounted st && strict_eq (Wire.room message) (Some (roomId st))
  then mkState (roomId st) (isMounted st) (merge (messages st) message) (socketError st)
  else st.

(** [removeFailedHandler], the listener of [removeFailedMessage]. *)
Definition removeFailedHandler (st : State) (tempId : option string) : State :=
  if isMounted st
  then mkState (roomId st) (isMounted st)
         (List.filter (λ msg, negb (strict_eq (Wire.tempId msg) tempId)) (messages st))
         (Some "Failed to send message - please try again")
  else st.

(** [messageDeletedHandler], the listener of [roomMessageDeleted]. *)
Definition messageDeletedHandler (st : State) (message : Wire.t) : State :=
  if isMounted st && strict_eq (Wire.room message) (Some (roomId st))
  then mkState (roomId st) (isMounted st)
         ((λ msg, if strict_eq (Wire._id msg) (Wire._id message) then message else msg)
            <$> messages st)
         (socketError st)
  else st.

(** The optimistic entry [handleSendMessage] appends before it emits. *)
Definition tempMessage (st : State) (uid uname text tempId : string) (now : Z) : Wire.t :=
  Wire.mk (Some tempId) (Populated uid uname "") (Some uname) NullRef (Some (roomId st))
    text now (Some tempId) None false None false false false.

(** The listeners [setupSocket] registers, as one dispatch on the event
    received.  [userJoinedRoom] and [userLeftRoom] update the member list
    of [room], which is not part of this state; the component registers no
    listener for the other events of the server. *)
Definition on (st : State) (ev : Server.Event) : State :=
  match ev with
  | Server.newRoomMessage message => messageHandler st message
  | Server.removeFailedMessage tempId => removeFailedHandler st tempId
  | Server.roomMessageDeleted message => messageDeletedHandler st message
  | _ => st
  end.

(** The events of an inbox, handled in the order they arrived. *)
Definition receive (st : State) (evs : list Server.Event) : State :=
  fold_left on evs st.

(** [handleSendMessage] past its guard (a text that is not blank, the room
    loaded) and with the socket at hand: the optimistic entry is appended;
    the [sendRoomMessage] request it then emits carries the same [tempId]. *)
Definition handleSendMessage (st : State) (uid uname text tempId : string) (now : Z) : State :=
  mkState (roomId st) (isMounted st)
    (messages st ++ [tempMessage st uid uname text tempId now]) (socketError st).

(** [{ ...msg, text: '[Message deleted]', isDeleted: true }]. *)
Definition marked_deleted (msg : Wire.t) : Wire.t :=
  Wire.mk (Wire._id msg) (Wire.sender msg) (Wire.senderName msg) (Wire.receiver msg)
    (Wire.room msg) "[Message deleted]" (Wire.createdAt msg) (Wire.tempId msg)
    (Wire.clientMsgId msg) true (Wire.deletedAt msg) (Wire.fromServer msg)
    (Wire.isTemp msg) (Wire.isFailed msg).

(** [handleDeleteMessage] with the socket at hand: the entries with that
    [_id] are marked before the [deleteRoomMessage] request is emitted. *)
Definition handleDeleteMessage (st : State) (messageId : string) : State :=
  mkState (roomId st) (isMounted st)
    ((λ msg, if strict_eq (Wire._id msg) (Some messageId) then marked_deleted msg else msg)
       <$> messages st)
    (socketError st).

End RoomChat.

(** ** The private chat component *)

Module PrivateChat.

Record State := mkState {
    userId : string;
    currentUser : string;
    isMounted : bool;
    messages : list Wire.t
}.

(** The predicate of [prev.some] in [handleNewMessage]:
    [(msg.clientMsgId && msg.clientMsgId === message.clientMsgId) ||
     (msg.isTemp && msg.text === message.text &&
      Math.abs(new Date(msg.createdAt) - new Date(message.createdAt)) < 1000)]. *)
Definition duplicates (message msg : Wire.t) : bool :=
  (truthy (Wire.clientMsgId msg) && strict_eq (Wire.clientMsgId msg) (Wire.clientMsgId message))
  || (Wire.isTemp msg && String.eqb (Wire.text msg) (Wire.text message)
      && Z.ltb (Z.abs (Wire.createdAt msg - Wire.createdAt message)) 1000).

(** The updater [handleNewMessage] passes to [setMessages]. *)
Definition merge (prev : list Wire.t) (message : Wire.t) : list Wire.t :=
  let isDuplicate := some (duplicates message) prev in
  if isDuplicate then prev else prev ++ [message].

(** Whether the message belongs to the conversation on screen. *)
Definition in_conversation (st : State) (message : Wire.t) : bool :=
  (strict_eq (ref_id (Wire.sender message)) (Some (userId st))
   && strict_eq (ref_id (Wire.receiver message)) (Some (currentUser st)))
  || (strict_eq (ref_id (Wire.sender message)) (Some (currentUser st))
      && strict_eq (ref_id (Wire.receiver message)) (Some (userId st))).

(** [handleNewMessage], the listener of [newMessage]. *)
Definition handleNewMessage (st : State) (message : Wire.t) : State :=
  if isMounted st && in_conversation st message
  then mkState (userId st) (currentUser st) (isMounted st) (merge (messages st) message)
  else st.

(** The optimistic entry [handleSendMessage] appends before it emits. *)
Definition tempMessage (st : State) (uname text clientMsgId tempId : string) (now : Z) : Wire.t :=
  Wire.mk (Some tempId) (Populated (currentUser st) uname "") None
    (Populated (userId st) "" "") None text now None (Some clientMsgId)
    false None false true false.

(** No correlation id has two entries in the list. *)
Definition one_entry_per_clientMsgId (l : list Wire.t) : Prop :=
  ∀ i j mi mj,
    l !! i = Some mi → l !! j = Some mj →
    truthy (Wire.clientMsgId mi) = true →
    Wire.clientMsgId mi = Wire.clientMsgId mj → i = j.

(** The one listener the component registers on the socket, [newMessage];
    an event of another kind finds no listener. *)
Definition on (st : State) (ev : Server.Event) : State :=
  match ev with
  | Server.newMessage message => handleNewMessage st message
  | _ => st
  end.

(** The events of an inbox, handled in the order they arrived. *)
Definition receive (st : State) (evs : list Server.Event) : State :=
  fold_left on evs st.

(** [handleSendMessage] up to its [try], for a text that is not blank: the
    optimistic entry is appended.  With the socket ready, the [sendMessage]
    request emitted next carries the same [clientMsgId]. *)
Definition handleSendMessage (st : State) (uname text clientMsgId tempId : string) (now : Z)
  : State :=
  mkState (userId st) (currentUser st) (isMounted st)
    (messages st ++ [tempMessage st uname text clientMsgId tempId now]).

(** The body of the 201 of [POST /messages] for a direct message, as the
    client reads it: [sender] and [receiver] populated, no [room]. *)
Definition posted_direct (us : gmap string User.t) (m : Message.t) : Wire.t :=
  Wire.mk (Some (Message._id m))
    (Db.populate_ref us (Some (Message.sender m))) None
    (Db.populate_ref us (Message.receiver m))
    None (Message.text m) (Message.createdAt m)
    None (Message.clientMsgId m) (Message.isDeleted m) (Message.deletedAt m)
    false false false.

(** [{ ...msg, isFailed: true, error: "Failed to send" }]; the constant
    [error] text has no field in [Wire.t]. *)
Definition marked_failed (msg : Wire.t) : Wire.t :=
  Wire.mk (Wire._id msg) (Wire.sender msg) (Wire.senderName msg) (Wire.receiver msg)
    (Wire.room msg) (Wire.text msg) (Wire.createdAt msg) (Wire.tempId msg)
    (Wire.clientMsgId msg) (Wire.isDeleted msg) (Wire.deletedAt msg) (Wire.fromServer msg)
    (Wire.isTemp msg) true.

(** The rest of [handleSendMessage] when the socket is not ready, on the
    answer of [POST /messages]: the body of a 201 replaces the entries with
    this [clientMsgId]; any other status is thrown by the HTTP client and
    the [catch] flags the entries whose [_id] is the [tempId]. *)
Definition handleSendMessage_posted (st : State) (us : gmap string User.t)
    (clientMsgId tempId : string) (response : MessageRoutes.Response) : State :=
  match response with
  | MessageRoutes.Created m =>
      mkState (userId st) (currentUser st) (isMounted st)
        ((λ msg, if strict_eq (Wire.clientMsgId msg) (Some clientMsgId)
                 then posted_direct us m else msg) <$> messages st)
  | _ =>
      mkState (userId st) (currentUser st) (isMounted st)
        ((λ msg, if strict_eq (Wire._id msg) (Some tempId)
                 then marked_failed msg else msg) <$> messages st)
  end.

End PrivateChat.

(** ** The group call component

    React state is a field per [useState]; the two [useRef] maps are fields
    too.  A function of the component sees the state variables of the
    render that created it: the socket listeners and the effect cleanup are
    created by the effect, which runs when the component mounts (and when
    [callType] changes), so the [localStream] they see is the one of that
    render, kept here in [effect_localStream]; a function called from a
    button sees the current one.  Capture tracks are numbered, and
    [live_tracks] holds those not stopped yet. *)

Module GroupVideoCall.

(** What the component observes of an [RTCPeerConnection]: the two
    descriptions, the candidates handed to [addIceCandidate] in call order,
    the local tracks added, and whether it was closed. *)
Record PeerConnection := mkPeer {
    remoteDescription : option string;
    localDescription : option string;
    applied : list string;
    senders : list nat;
    closed : bool
}.

(** [signal] of a [groupCallSignal] event, by its [type] tag. *)
Inductive Signal :=
| Offer (sdp : string)
| Answer (sdp : string)
| Candidate (candidate : string)
| OtherSignal.

(** Client-to-server events of the component. *)
Inductive Emit :=
| groupCallSignal (signal : Signal) (to roomId : string)
| groupCallRequest (roomId from : string)
| groupCallAccepted (roomId to from : string)
| groupCallRejected (roomId to from : string)
| groupCallEnded (roomId from : string).

Record State := mkState {
    room_id : string;
    currentUser_id : string;
    localStream : option (list nat);
    effect_localStream : option (list nat);
    isCallActive : bool;
    isIncomingCall : bool;
    caller : option string;
    isConnecting : bool;
    error : option string;
    participants : gset string;
    peerConnections : gmap string PeerConnection;
    pendingCandidates : gmap string (list string);
    live_tracks : gset nat;
    emitted : list Emit;
    onClose_called : bool
}.

(** The component as first rendered for room [r] and user [u]. *)
Definition mount (r u : string) : State :=
  mkState r u None None false false None false None ∅ ∅ ∅ ∅ [] false.

(** [getUserMedia] resolved with [stream] and [setLocalStream(stream)] ran:
    the tracks are live and the next render sees the stream.  The effect is
    not run again, so what its closures see does not change. *)
Definition media_acquired (st : State) (stream : list nat) : State :=
  mkState (room_id st) (currentUser_id st) (Some stream) (effect_localStream st)
    (isCallActive st) (isIncomingCall st) (caller st) (isConnecting st) (error st)
    (participants st) (peerConnections st) (pendingCandidates st)
    (list_to_set stream ∪ live_tracks st) (emitted st) (onClose_called st).

(** [localStream.getTracks().forEach(track => track.stop())], guarded by
    [if (localStream)], for the [localStream] the caller sees. *)
Definition stop_tracks (seen : option (list nat)) (live : gset nat) : gset nat :=
  match seen with
  | Some stream => live ∖ list_to_set stream
  | None => live
  end.

Definition close_peer (pc : PeerConnection) : PeerConnection :=
  mkPeer (remoteDescription pc) (localDescription pc) (applied pc) (senders pc) true.

(** [createPeerConnection(targetUserId)]: the tracks of the [localStream]
    the caller sees are added, and the connection is stored in the ref. *)
Definition createPeerConnection (seen : option (list nat)) (st : State) (target : string)
  : State :=
  let pc := mkPeer None None [] (default [] seen) false in
  mkState (room_id st) (currentUser_id st) (localStream st) (effect_localStream st)
    (isCallActive st) (isIncomingCall st) (caller st) (isConnecting st) (error st)
    (participants st) (<[target := pc]> (peerConnections st)) (pendingCandidates st)
    (live_tracks st) (emitted st) (onClose_called st).

(** [handleIncomingGroupCall], the listener of [groupCallRequest]. *)
Definition handleIncomingGroupCall (st : State) (from : string) : State :=
  mkState (room_id st) (currentUser_id st) (localStream st) (effect_localStream st)
    (isCallActive st) true (Some from) (isConnecting st) (error st)
    (participants st) (peerConnections st) (pendingCandidates st)
    (live_tracks st) (emitted st) (onClose_called st).

(** [acceptGroupCall], called from the Accept button.  Without a caller,
    [caller._id] throws once the flags are set. *)
Definition acceptGroupCall (st : State) : State :=
  let st1 :=
    mkState (room_id st) (currentUser_id st) (localStream st) (effect_localStream st)
      (isCallActive st) false (caller st) true (error st)
      (participants st) (peerConnections st) (pendingCandidates st)
      (live_tracks st) (emitted st) (onClose_called st) in
  match caller st with
  | Some c =>
      let st2 := createPeerConnection (localStream st) st1 c in
      mkState (room_id st2) (currentUser_id st2) (localStream st2) (effect_localStream st2)
        (isCallActive st2) (isIncomingCall st2) (caller st2) (isConnecting st2) (error st2)
        (participants st2) (peerConnections st2) (pendingCandidates st2) (live_tracks st2)
        (emitted st2 ++ [groupCallAccepted (room_id st) c (currentUser_id st)])%list
        (onClose_called st2)
  | None => st1
  end.

(** [rejectGroupCall], called from the Decline button. *)
Definition rejectGroupCall (st : State) : State :=
  match caller st with
  | Some c =>
      mkState (room_id st) (currentUser_id st) (localStream st) (effect_localStream st)
        (isCallActive st) false (caller st) (isConnecting st) (error st)
        (participants st) (peerConnections st) (pendingCandidates st) (live_tracks st)
        (emitted st ++ [groupCallRejected (room_id st) c (currentUser_id st)])%list
        true
  | None =>
      mkState (room_id st) (currentUser_id st) (localStream st) (effect_localStream st)
        (isCallActive st) false (caller st) (isConnecting st) (error st)
        (participants st) (peerConnections st) (pendingCandidates st) (live_tracks st)
        (emitted st) (onClose_called st)
  end.

(** [handleGroupCallRejected], the listener of [groupCallRejected]. *)
Definition handleGroupCallRejected (st : State) : State :=
  mkState (room_id st) (currentUser_id st) (localStream st) (effect_localStream st)
    (isCallActive st) (isIncomingCall st) (caller st) (isConnecting st)
    (Some "Call was rejected")
    (participants st) (peerConnections st) (pendingCandidates st) (live_tracks st)
    (emitted st) true.

(** [endCall], for the [localStream] its closure sees. *)
Definition endCall (seen : option (list nat)) (st : State) : State :=
  mkState (room_id st) (currentUser_id st) (localStream st) (effect_localStream st)
    false (isIncomingCall st) (caller st) false (error st)
    ∅ ∅ ∅ (stop_tracks seen (live_tracks st))
    (emitted st ++ [groupCallEnded (room_id st) (currentUser_id st)])%list
    true.

(** The hang-up button calls the [endCall] of the current render. *)
Definition endCall_button (st : State) : State := endCall (localStream st) st.

(** [handleGroupCallEnded], the listener of [groupCallEnded], calls the
    [endCall] of the render that registered it. *)
Definition handleGroupCallEnded (st : State) : State := endCall (effect_localStream st) st.

(** The cleanup the effect returned, run when the component unmounts. *)
Definition cleanup (st : State) : State :=
  mkState (room_id st) (currentUser_id st) (localStream st) (effect_localStream st)
    (isCallActive st) (isIncomingCall st) (caller st) (isConnecting st) (error st)
    (participants st) (close_peer <$> peerConnections st) (pendingCandidates st)
    (stop_tracks (effect_localStream st) (live_tracks st))
    (emitted st) (onClose_called st).

(** Whether every track of the local stream has been stopped. *)
Definition released (st : State) : Prop :=
  match localStream st with
  | Some stream => ∀ t, t ∈ stream → t ∉ live_tracks st
  | None => True
  end.

Definition set_error (st : State) (e : string) : State :=
  mkState (room_id st) (currentUser_id st) (localStream st) (effect_localStream st)
    (isCallActive st) (isIncomingCall st) (caller st) (isConnecting st) (Some e)
    (participants st) (peerConnections st) (pendingCandidates st) (live_tracks st)
    (emitted st) (onClose_called st).

Definition with_signalling (st : State) (pcs : gmap string PeerConnection)
    (pending : gmap string (list string)) (out : list Emit) : State :=
  mkState (room_id st) (currentUser_id st) (localStream st) (effect_localStream st)
    (isCallActive st) (isIncomingCall st) (caller st) (isConnecting st) (error st)
    (participants st) pcs pending (live_tracks st)
    (emitted st ++ out)%list (onClose_called st).

Section Browser.

(** The browser's side of the negotiation: which descriptions
    [setRemoteDescription] accepts, which candidates [new RTCIceCandidate]
    accepts, and the answer [createAnswer] produces for an offer. *)
Variable valid_sdp : string → bool.
Variable valid_candidate : string → bool.
Variable createAnswer : string → string.

(** [handleGroupCallSignal], the listener of [groupCallSignal], for the
    event [{from, signal}]. *)
Definition handleGroupCallSignal (st : State) (from : string) (signal : Signal) : State :=
  match peerConnections st !! from with
  | None => st
  | Some pc =>
      match signal with
      | Offer sdp =>
          if valid_sdp sdp then
            let answer := createAnswer sdp in
            let pc' := mkPeer (Some sdp) (Some answer) (applied pc) (senders pc) (closed pc) in
            with_signalling st (<[from := pc']> (peerConnections st)) (pendingCandidates st)
              [groupCallSignal (Answer answer) from (room_id st)]
          else set_error st "Connection error occurred"
      | Answer sdp =>
          if valid_sdp sdp then
            let pending := default [] (pendingCandidates st !! from) in
            let pc' := mkPeer (Some sdp) (localDescription pc) (applied pc ++ pending)%list
                         (senders pc) (closed pc) in
            with_signalling st (<[from := pc']> (peerConnections st))
              (<[from := []]> (pendingCandidates st)) []
          else set_error st "Connection error occurred"
      | Candidate c =>
          match remoteDescription pc with
          | Some _ =>
              if valid_candidate c then
                let pc' := mkPeer (remoteDescription pc) (localDescription pc)
                             (applied pc ++ [c])%list (senders pc) (closed pc) in
                with_signalling st (<[from := pc']> (peerConnections st))
                  (pendingCandidates st) []
              else st
          | None =>
              if valid_candidate c then
                let pending := default [] (pendingCandidates st !! from) in
                with_signalling st (peerConnections st)
                  (<[from := (pending ++ [c])%list]> (pendingCandidates st)) []
              else set_error st "Connection error occurred"
          end
      | OtherSignal => st
      end
  end.

(** [handleGroupCallAccepted], the listener of [groupCallAccepted]: the
    caller creates the connection towards [from] and sends its offer. *)
Definition handleGroupCallAccepted (offer : string) (st : State) (from : string) : State :=
  let st1 :=
    mkState (room_id st) (currentUser_id st) (localStream st) (effect_localStream st)
      (isCallActive st) (isIncomingCall st) (caller st) true (error st)
      (participants st) (peerConnections st) (pendingCandidates st)
      (live_tracks st) (emitted st) (onClose_called st) in
  let st2 := createPeerConnection (effect_localStream st) st1 from in
  let pc := mkPeer None (Some offer) [] (default [] (effect_localStream st)) false in
  with_signalling st2 (<[from := pc]> (peerConnections st2)) (pendingCandidates st2)
    [groupCallSignal (Offer offer) from (room_id st)].

(** The listener run over a sequence of events, oldest first. *)
Definition handle_signals (st : State) (events : list (string * Signal)) : State :=
  foldl (λ st e, handleGroupCallSignal st e.1 e.2) st events.

End Browser.

(** *** Signal handlers that overlap

    [handleGroupCallSignal] is [async]: it suspends at each [await], and
    the listener is called for the next event while it is suspended.  Here
    the handler is cut at its awaits.  A suspended handler is a [Task]; it
    goes on working on the connection and on the queue of its sender, the
    queue being one array that the handlers of that sender share through
    the map.  Only signal events are considered: nothing removes or
    replaces a peer connection meanwhile. *)

Section Overlap.

Variable valid_sdp : string → bool.
Variable valid_candidate : string → bool.
Variable createAnswer : string → string.

Inductive Task :=
(** awaiting [setRemoteDescription] for an offer or an answer *)
| SettingRemote (from : string) (signal : Signal)
(** the offer branch awaiting [createAnswer] *)
| CreatingAnswer (from offer : string)
(** the offer branch awaiting [setLocalDescription] *)
| SettingLocal (from answer : string)
(** the answer branch awaiting an [addIceCandidate] of its loop *)
| Flushing (from : string)
(** the candidate branch awaiting its [addIceCandidate]; nothing follows *)
| Adding.

(** The component with its suspended signal handlers. *)
Record Session := mkSession {
    component : State;
    tasks : list Task
}.

Definition hand_over (pc : PeerConnection) (c : string) : PeerConnection :=
  mkPeer (remoteDescription pc) (localDescription pc) (applied pc ++ [c])%list
    (senders pc) (closed pc).

(** The listener called for the event [{from, signal}], up to its first
    [await] or to its end. *)
Definition arrive (st : State) (from : string) (signal : Signal) : State * option Task :=
  match peerConnections st !! from with
  | None => (st, None)
  | Some pc =>
      match signal with
      | Offer _ | Answer _ => (st, Some (SettingRemote from signal))
      | Candidate c =>
          match remoteDescription pc with
          | Some _ =>
              if valid_candidate c then
                (with_signalling st (<[from := hand_over pc c]> (peerConnections st))
                   (pendingCandidates st) [],
                 Some Adding)
              else (st, None)
          | None =>
              if valid_candidate c then
                let pending := default [] (pendingCandidates st !! from) in
                (with_signalling st (peerConnections st)
                   (<[from := (pending ++ [c])%list]> (pendingCandidates st)) [],
                 None)
              else (set_error st "Connection error occurred", None)
          end
      | OtherSignal => (st, None)
      end
  end.

(** One turn of the loop of the answer branch, from its test to the next
    [await]: the head of the queue is shifted out and handed to
    [addIceCandidate]; on an empty queue the loop ends and the queue is set
    back into the map. *)
Definition flush (st : State) (from : string) : State * option Task :=
  match peerConnections st !! from with
  | None => (st, None)
  | Some pc =>
      match default [] (pendingCandidates st !! from) with
      | [] =>
          (with_signalling st (peerConnections st) (<[from := []]> (pendingCandidates st)) [],
           None)
      | c :: rest =>
          (with_signalling st (<[from := hand_over pc c]> (peerConnections st))
             (<[from := rest]> (pendingCandidates st)) [],
           Some (Flushing from))
      end
  end.

Definition set_remote (st : State) (from : string) (pc : PeerConnection) (sdp : string)
  : State :=
  with_signalling st
    (<[from := mkPeer (Some sdp) (localDescription pc) (applied pc) (senders pc) (closed pc)]>
       (peerConnections st))
    (pendingCandidates st) [].

(** A suspended handler resuming, up to its next [await] or to its end. *)
Definition resume (st : State) (t : Task) : State * option Task :=
  match t with
  | SettingRemote from signal =>
      match peerConnections st !! from, signal with
      | Some pc, Offer sdp =>
          if valid_sdp sdp then (set_remote st from pc sdp, Some (CreatingAnswer from sdp))
          else (set_error st "Connection error occurred", None)
      | Some pc, Answer sdp =>
          if valid_sdp sdp then flush (set_remote st from pc sdp) from
          else (set_error st "Connection error occurred", None)
      | _, _ => (st, None)
      end
  | CreatingAnswer from offer => (st, Some (SettingLocal from (createAnswer offer)))
  | SettingLocal from answer =>
      match peerConnections st !! from with
      | Some pc =>
          (with_signalling st
             (<[from := mkPeer (remoteDescription pc) (Some answer) (applied pc) (senders pc)
                          (closed pc)]> (peerConnections st))
             (pendingCandidates st)
             [groupCallSignal (Answer answer) from (room_id st)],
           None)
      | None => (st, None)
      end
  | Flushing from => flush st from
  | Adding => (st, None)
  end.

(** What happens next: an event arrives, or the [i]-th suspended handler
    resumes. *)
Inductive Turn :=
| Arrives (from : string) (signal : Signal)
| Resumes (i : nat).

Definition option_to_list {A} (o : option A) : list A :=
  match o with Some x => [x] | None => [] end.

Definition turn (ses : Session) (e : Turn) : Session :=
  match e with
  | Arrives from signal =>
      let '(st, t) := arrive (component ses) from signal in
      mkSession st (tasks ses ++ option_to_list t)
  | Resumes i =>
      match tasks ses !! i with
      | Some t =>
          let '(st, t') := resume (component ses) t in
          mkSession st (take i (tasks ses) ++ option_to_list t' ++ drop (S i) (tasks ses))
      | None => ses
      end
  end.

Definition play (ses : Session) (turns : list Turn) : Session := foldl turn ses turns.

(** The candidates that arrived from [from] and that the browser accepts,
    oldest first. *)
Definition candidates_from (from : string) (turns : list Turn) : list string :=
  omap (λ e, match e with
             | Arrives f (Candidate c) =>
                 if String.eqb f from && valid_candidate c then Some c else None
             | _ => None
             end) turns.

(** The sender a suspended handler works for. *)
Definition works_for (t : Task) : option string :=
  match t with
  | SettingRemote from _ | CreatingAnswer from _ | SettingLocal from _ | Flushing from =>
      Some from
  | Adding => None
  end.

End Overlap.

End GroupVideoCall.

(** ** The reconciliation rule of the specification

    Section 4.6: an arriving message is matched against the optimistic
    entries, first by correlation id, else by sender, closeness in time and
    text; a match is replaced in place, anything else is appended.  What
    marks an entry as optimistic, which field is the correlation id and how
    wide the window is are left to the client, so they are parameters. *)

Module Rule.

Section Reconcile.
Variable optimistic : Wire.t → bool.
Variable correlation : Wire.t → option string.
Variable window : Z.

Definition by_correlation (message msg : Wire.t) : bool :=
  optimistic msg && truthy (correlation msg)
  && strict_eq (correlation msg) (correlation message).

Definition by_heuristic (message msg : Wire.t) : bool :=
  optimistic msg
  && bool_decide (Wire.sender msg = Wire.sender message)
  && Z.ltb (Z.abs (Wire.createdAt msg - Wire.createdAt message)) window
  && String.eqb (Wire.text msg) (Wire.text message).

Definition reconcile (prev : list Wire.t) (message : Wire.t) : list Wire.t :=
  match findIndex (by_correlation message) prev with
  | Some i => <[i := message]> prev
  | None =>
      match findIndex (by_heuristic message) prev with
      | Some i => <[i := message]> prev
      | None => prev ++ [message]
      end
  end.

End Reconcile.

End Rule.

(** ** The socket of the client

    [connectSocket] of [utils/socket.js]: the module variables, the two
    [once] listeners and the timer of the connection promise, and what the
    handlers leave in [localStorage] and in [window.location]. *)

Module SocketClient.

(** [String.prototype.includes]. *)
Fixpoint includes (s sub : string) : bool :=
  String.prefix sub s
  || match s with
     | EmptyString => false
     | String _ s' => includes s' sub
     end.

Definition MAX_RECONNECT_ATTEMPTS : nat := 3.

(** How [connectionPromise] settled. *)
Inductive Settled :=
| Resolved
| Rejected (message : string).

Record State := mkState {
    reconnectAttempts : nat;
    accessToken : option string;
    (** the [auth.token] of [socketInstance] *)
    instance_token : option string;
    (** whether [onConnect] and [onError] are still registered *)
    listening : bool;
    (** whether [connectTimeout] is still set *)
    timer : bool;
    (** [None] while the promise is pending *)
    connectionPromise : option Settled;
    (** the last assignment to [window.location.href] *)
    location : option string
}.

(** A promise settles once: [resolve] and [reject] after that do nothing. *)
Definition settle (p : option Settled) (how : Settled) : option Settled :=
  match p with
  | None => Some how
  | Some _ => p
  end.

(** The answer of [api.post('/auth/refresh')]: the new token, or the
    error of the request that was sent, with its status, if it has one,
    and its message. *)
Inductive Refresh :=
| Refreshed (token : string)
| RefreshFailed (status : option nat) (message : string).

(** The message of the error the server's middleware refuses a handshake
    with, which the client receives as [connect_error]. *)
Definition handshake_message (e : Server.HandshakeError) : string :=
  match e with
  | Server.NoTokenProvided => "No token provided"
  | Server.InvalidToken => "Invalid token"
  | Server.UserUpdateFailed => "User update failed"
  end.

(** [onConnect]. *)
Definition onConnect (st : State) : State :=
  mkState 0 (accessToken st) (instance_token st) false false
    (settle (connectionPromise st) Resolved) (location st).

(** [onError(err)] for [err.message]; [refresh] is the answer the refresh
    request gets if it is made.  A failed refresh passes the response
    interceptor of [utils/api.js] first, which removes the token and sends
    the browser to the login page. *)
Definition onError (st : State) (message : string) (refresh : Refresh) : State :=
  if (includes message "unauthorized" || includes message "jwt")
     && Nat.ltb (reconnectAttempts st) MAX_RECONNECT_ATTEMPTS
  then
    match refresh with
    | Refreshed token =>
        mkState (S (reconnectAttempts st)) (Some token) (Some token) false false
          (connectionPromise st) (location st)
    | RefreshFailed _ refreshErr =>
        mkState (S (reconnectAttempts st)) None (instance_token st) false false
          (settle (connectionPromise st) (Rejected refreshErr)) (Some "/login")
    end
  else
    mkState (reconnectAttempts st) (accessToken st) (instance_token st) false false
      (settle (connectionPromise st) (Rejected message))
      (if includes message "unauthorized" then Some "/login" else location st).

(** What the socket and the clock can tell the promise. *)
Inductive Event :=
| Connect
| ConnectError (message : string)
| Timeout.

(** One event, given to the listener or the timer that is still there. *)
Definition on (refresh : Refresh) (st : State) (ev : Event) : State :=
  match ev with
  | Connect => if listening st then onConnect st else st
  | ConnectError message => if listening st then onError st message refresh else st
  | Timeout =>
      if timer st
      then mkState (reconnectAttempts st) (accessToken st) (instance_token st) (listening st)
             false (settle (connectionPromise st) (Rejected "Socket connection timed out"))
             (location st)
      else st
  end.

(** [connectSocket(token)] with no connected instance: a new instance, a
    new pending promise, the two listeners and the timer. *)
Definition connectSocket (st : State) (token : string) : State :=
  mkState (reconnectAttempts st) (accessToken st) (Some token) true true None (location st).

End SocketClient.

(** ** A small deployment

    Concrete states the examples below run on. *)

Module Demo.
Import Server.

Definition alice : Socket := mkSocket 1 "u1" "alice".
Definition alice_tab : Socket := mkSocket 3 "u1" "alice".
Definition bob : Socket := mkSocket 2 "u2" "bob".

(** Two users; alice has two tabs open, one of them in room "r1" with bob. *)
Definition σ0 : State :=
  mkState
    {[ "u1" := User.mk "alice" "" true None; "u2" := User.mk "bob" "" true None ]}
    ∅
    {[ 1%nat := alice; 2%nat := bob; 3%nat := alice_tab ]}
    {[ "r1" := {[1%nat; 2%nat]}; "u1" := {[1%nat; 3%nat]}; "u2" := {[2%nat]} ]}
    {[ "r1" := {["u1"; "u2"]} ]}.

(** A direct message and a room message, both sent by alice. *)
Definition direct_hi : Message.t :=
  Message.mk "m1" "u1" (Some "u2") None "hi" (Some "c1") false None 10 10.

Definition room_hello : Message.t :=
  Message.mk "m2" "u1" None (Some "r1") "hello" (Some "t2") false None 20 20.

Definition σ1 : State :=
  mkState (users σ0) {[ "m1" := direct_hi; "m2" := room_hello ]}
    (sockets σ0) (rooms σ0) (activeRooms σ0).

(** A run of the server from an empty process: alice connects with her
    token and joins room "r1", then bob does. *)
Definition tokens (token : string) : option (string * string) :=
  if String.eqb token "token of alice" then Some ("u1", "alice")
  else if String.eqb token "token of bob" then Some ("u2", "bob")
  else None.

Definition started : State := mkState (users σ0) ∅ ∅ ∅ ∅.
Definition alice_in : State := (connect tokens started 1 (Some "token of alice")).1.1.
Definition alice_joined : State := (handle alice_in alice (JoinRoom "r1")).1.
Definition bob_in : State := (connect tokens alice_joined 2 (Some "token of bob")).1.1.
Definition both_joined : State := (handle bob_in bob (JoinRoom "r1")).1.

(** Bob then asks to leave the room named after his own id. *)
Definition bob_left_own_room : State := (handle both_joined bob (LeaveRoom "u2")).1.

(** The group call component of alice in room "r1": camera and microphone
    acquired, then a call from bob ringing, then accepted. *)
Definition browser_accepts (_ : string) : bool := true.
Definition answer_to (offer : string) : string := "answer to " ++ offer.

Definition capturing : GroupVideoCall.State :=
  GroupVideoCall.media_acquired (GroupVideoCall.mount "r1" "u1") [1%nat; 2%nat].
Definition ringing : GroupVideoCall.State :=
  GroupVideoCall.handleIncomingGroupCall capturing "u2".
Definition accepted : GroupVideoCall.State := GroupVideoCall.acceptGroupCall ringing.

(** Alice as the caller: bob has accepted, her offer is on its way. *)
Definition calling : GroupVideoCall.State :=
  GroupVideoCall.handleGroupCallAccepted "offer of alice" capturing "u2".

(** Two candidates of bob arrive early, then his answer; while the answer's
    handler awaits the first queued candidate, a third candidate arrives. *)
Definition overlapping : list GroupVideoCall.Turn :=
  [GroupVideoCall.Arrives "u2" (GroupVideoCall.Candidate "c1");
   GroupVideoCall.Arrives "u2" (GroupVideoCall.Candidate "c2");
   GroupVideoCall.Arrives "u2" (GroupVideoCall.Answer "answer of bob");
   GroupVideoCall.Resumes 0;
   GroupVideoCall.Arrives "u2" (GroupVideoCall.Candidate "c3");
   GroupVideoCall.Resumes 0;
   GroupVideoCall.Resumes 0].

(** Alice's private chat with bob: her optimistic entry for "hi", and the
    copy of it the server delivers. *)
Definition chat_with_bob : PrivateChat.State := PrivateChat.mkState "u2" "u1" true [].

Definition optimistic_hi : Wire.t :=
  PrivateChat.tempMessage chat_with_bob "alice" "hi" "c1" "1700000000000" 1000.

Definition confirmed_hi : Wire.t :=
  Wire.mk (Some "m1") (Populated "u1" "alice" "") None (Populated "u2" "bob" "") None
    "hi" 1200 None (Some "c1") false None true false false.

Definition chat_after_send : PrivateChat.State :=
  PrivateChat.mkState "u2" "u1" true [optimistic_hi].

(** A message of bob to alice with the same text, half a second after
    alice's optimistic entry was made. *)
Definition hi_from_bob : Wire.t :=
  Wire.mk (Some "m7") (Populated "u2" "bob" "") None (Populated "u1" "alice" "") None
    "hi" 1500 None (Some "c7") false None true false false.

(** Bob's room chat on "r1", nothing loaded. *)
Definition room_chat_of_bob : RoomChat.State := RoomChat.mkState "r1" true [] None.

(** Alice deletes from both of her tabs. *)
Definition from_tab1 : Call := mkCall alice 100.
Definition from_tab2 : Call := mkCall alice_tab 101.

Definition one_after_the_other : list Step :=
  [Update true; Notify true; Update false; Notify false].
Definition both_updates_first : list Step :=
  [Update true; Update false; Notify false; Notify true].

End Demo.

(** * Properties *)

(** ** Deliveries *)

Section Deliveries.
Import Server.

Lemma inbox_nil c : inbox c [] = [].
Proof. reflexivity. Qed.

Lemma inbox_cons c d out :
  inbox c (d :: out) =
  if decide (c ∈ recipients d) then event d :: inbox c out else inbox c out.
Proof.
  unfold inbox. rewrite filter_cons. destruct (decide (c ∈ recipients d)); reflexivity.
Qed.

Lemma inbox_app c out1 out2 : inbox c (out1 ++ out2)%list = (inbox c out1 ++ inbox c out2)%list.
Proof. unfold inbox. rewrite filter_app, fmap_app. reflexivity. Qed.

Lemma inbox_io_to_member c σ room ev out :
  c ∈ members σ room → inbox c (io_to σ room ev :: out) = ev :: inbox c out.
Proof. intros Hc. rewrite inbox_cons. simpl. rewrite decide_True; done. Qed.

Lemma inbox_socket_emit c s ev out :
  inbox c (socket_emit s ev :: out) =
  if bool_decide (c = socket_id s) then ev :: inbox c out else inbox c out.
Proof.
  rewrite inbox_cons. simpl. case_bool_decide as Hc.
  - rewrite decide_True; [done | set_solver].
  - rewrite decide_False; [done | set_solver].
Qed.

End Deliveries.

(** The room send run without interruption, in one piece. *)
Lemma sendRoomMessage_uninterrupted σ s roomId text tempId sender senderName oid now saved_at :
  Server.sendRoomMessage σ s roomId text tempId sender senderName oid now saved_at =
  let first := Server.io_to σ roomId
                 (Server.newRoomMessage
                    (Server.immediateMessage roomId text tempId sender senderName now)) in
  match Db.save (Server.messages σ) oid saved_at
          (Db.mkDoc sender None (Some roomId) text tempId) with
  | Ok (ms, saved) =>
      let σ1 := Server.mkState (Server.users σ) ms (Server.sockets σ) (Server.rooms σ)
                  (Server.activeRooms σ) in
      (σ1, [first; Server.io_to σ1 roomId
                     (Server.newRoomMessage (Server.savedRoomMessage (Server.users σ) saved tempId))])
  | Err _ =>
      (σ, [first;
           Server.socket_emit s (Server.messageError "Failed to send room message" None tempId);
           Server.io_to σ roomId (Server.removeFailedMessage tempId)])
  end.
Proof.
  unfold Server.sendRoomMessage, Server.sendRoomMessage_save, Server.sendRoomMessage_first.
  destruct (Db.save _ _ _ _) as [[ms saved]|e]; reflexivity.
Qed.

Lemma count_inbox_cons p c d out :
  Server.count_events p (Server.inbox c (d :: out)) =
  ((if decide (c ∈ Server.recipients d) then if p (Server.event d) then 1 else 0 else 0)
   + Server.count_events p (Server.inbox c out))%nat.
Proof.
  rewrite inbox_cons. unfold Server.count_events.
  destruct (decide (c ∈ Server.recipients d)); [|reflexivity].
  rewrite filter_cons. destruct (p (Server.event d)) eqn:Hp.
  - rewrite decide_True by reflexivity. reflexivity.
  - rewrite decide_False by discriminate. reflexivity.
Qed.

(** Evaluates a count over the inbox of an explicit list of deliveries,
    by cases on who was reached. *)
Ltac count_cases :=
  rewrite !count_inbox_cons; cbn;
  rewrite ?bool_decide_eq_true_2 by reflexivity;
  repeat destruct (decide _); try reflexivity; try (exfalso; set_solver).

(** ** The store *)

Section Store.

Lemma any_message_true p (ms : gmap string Message.t) :
  Db.any_message p ms = true ↔ ∃ k m, ms !! k = Some m ∧ p m = true.
Proof.
  unfold Db.any_message. rewrite existsb_exists. split.
  - intros [[k m] [Hin Hp]]. exists k, m. split; [|exact Hp].
    apply elem_of_map_to_list. apply list_elem_of_In. exact Hin.
  - intros (k & m & Hk & Hp). exists (k, m). split; [|exact Hp].
    apply list_elem_of_In. apply elem_of_map_to_list. exact Hk.
Qed.

Lemma any_message_false p (ms : gmap string Message.t) :
  Db.any_message p ms = false ↔ ∀ k m, ms !! k = Some m → p m = false.
Proof.
  split.
  - intros Hn k m Hk. destruct (p m) eqn:Hp; [|reflexivity].
    assert (Db.any_message p ms = true) as Ht by (apply any_message_true; eauto).
    congruence.
  - intros Hall. destruct (Db.any_message p ms) eqn:Ha; [|reflexivity].
    apply any_message_true in Ha as (k & m & Hk & Hp).
    rewrite (Hall k m Hk) in Hp. discriminate.
Qed.

(** What a successful [save] did and why it was allowed to. *)
Lemma save_Ok_inv ms oid now d ms' m :
  Db.save ms oid now d = Ok (ms', m) →
  m = Db.to_message oid now d
  ∧ ms' = <[oid := m]> ms
  ∧ ms !! oid = None
  ∧ Db.validate d = true
  ∧ Db.any_message (Db.clientMsgId_conflict (Db.doc_clientMsgId d)) ms = false
  ∧ Db.any_message (Db.tuple_conflict d now) ms = false.
Proof.
  unfold Db.save. intros H.
  destruct (Db.validate d) eqn:Hv; cbn in H; [|discriminate].
  case_bool_decide as Hoid; [discriminate|].
  destruct (Db.any_message (Db.clientMsgId_conflict _) ms) eqn:Hc; [discriminate|].
  destruct (Db.any_message (Db.tuple_conflict _ _) ms) eqn:Ht; [discriminate|].
  injection H as <- <-. repeat split.
  destruct (ms !! oid) eqn:E; [|reflexivity]. exfalso. apply Hoid. eauto.
Qed.

Lemma save_Err_cause ms oid now d e :
  Db.save ms oid now d = Err e → e = ValidationError ∨ e = DuplicateKeyError.
Proof.
  unfold Db.save. intros H.
  repeat (destruct (_ : bool) in H; [injection H as <-; auto|]). discriminate.
Qed.

End Store.

(** ** Correlation ids in the store (C10) *)

Section CorrelationIds.

Lemma save_preserves_unique ms oid now d :
  Db.unique_clientMsgId ms → Db.unique_clientMsgId (Db.apply_write ms (Db.Save oid now d)).
Proof.
  intros Hu. cbn. destruct (Db.save ms oid now d) as [[ms' m]|e] eqn:Hsave; [|exact Hu].
  apply save_Ok_inv in Hsave as (-> & -> & Hfresh & _ & Hc & _).
  intros k1 k2 m1 m2 c H1 H2 Hc1 Hc2.
  destruct (decide (k1 = oid)) as [-> | Hn1], (decide (k2 = oid)) as [-> | Hn2];
    [reflexivity | | |].
  - rewrite lookup_insert_eq in H1. injection H1 as <-. cbn in Hc1.
    rewrite lookup_insert_ne in H2 by congruence.
    rewrite any_message_false in Hc. specialize (Hc k2 m2 H2).
    rewrite Hc1 in Hc. cbn in Hc. rewrite bool_decide_eq_true_2 in Hc by exact Hc2.
    discriminate.
  - rewrite lookup_insert_eq in H2. injection H2 as <-. cbn in Hc2.
    rewrite lookup_insert_ne in H1 by congruence.
    rewrite any_message_false in Hc. specialize (Hc k1 m1 H1).
    rewrite Hc2 in Hc. cbn in Hc. rewrite bool_decide_eq_true_2 in Hc by exact Hc1.
    discriminate.
  - rewrite lookup_insert_ne in H1 by congruence.
    rewrite lookup_insert_ne in H2 by congruence. eauto.
Qed.

Lemma soft_delete_preserves_unique ms id sender now :
  Db.unique_clientMsgId ms →
  Db.unique_clientMsgId (Db.apply_write ms (Db.SoftDelete id sender now)).
Proof.
  intros Hu. cbn. unfold Db.findOneAndUpdate.
  destruct (ms !! id) as [m|] eqn:Hm; [|exact Hu].
  case_bool_decide; [|exact Hu]. cbn.
  assert (Hold : ∀ k m', <[id := Db.soft_delete now m]> ms !! k = Some m' →
            ∃ m0, ms !! k = Some m0 ∧ Message.clientMsgId m0 = Message.clientMsgId m').
  { intros k m' Hk. destruct (decide (k = id)) as [-> | Hne].
    - rewrite lookup_insert_eq in Hk. injection Hk as <-. eauto.
    - rewrite lookup_insert_ne in Hk by congruence. eauto. }
  intros k1 k2 m1 m2 c H1 H2 Hc1 Hc2.
  apply Hold in H1 as (n1 & H1 & E1). apply Hold in H2 as (n2 & H2 & E2).
  apply (Hu k1 k2 n1 n2 c); congruence.
Qed.

Lemma hard_delete_preserves_unique ms id sender :
  Db.unique_clientMsgId ms →
  Db.unique_clientMsgId (Db.apply_write ms (Db.HardDelete id sender)).
Proof.
  intros Hu. cbn. unfold Db.findOneAndDelete.
  destruct (ms !! id) as [m|] eqn:Hm; [|exact Hu].
  case_bool_decide; [|exact Hu]. cbn.
  intros k1 k2 m1 m2 c H1 H2. apply lookup_delete_Some in H1 as [_ H1].
  apply lookup_delete_Some in H2 as [_ H2]. eauto.
Qed.

Lemma history_unique ws : Db.unique_clientMsgId (Db.history ws).
Proof.
  unfold Db.history.
  assert (Hgen : ∀ ms, Db.unique_clientMsgId ms →
            Db.unique_clientMsgId (foldl Db.apply_write ms ws)).
  { induction ws as [|w ws IH]; intros ms Hu; [exact Hu|].
    cbn [foldl]. apply IH. destruct w.
    - apply save_preserves_unique, Hu.
    - apply soft_delete_preserves_unique, Hu.
    - apply hard_delete_preserves_unique, Hu. }
  apply Hgen. intros k1 k2 m1 m2 c H1. rewrite lookup_empty in H1. discriminate.
Qed.

(** A save that reuses a stored correlation id is refused whatever else
    the document holds. *)
Lemma save_rejects_reused_clientMsgId ms oid now d k m c :
  ms !! k = Some m → Message.clientMsgId m = Some c → Db.doc_clientMsgId d = Some c →
  ∃ e, Db.save ms oid now d = Err e.
Proof.
  intros Hk Hm Hd. unfold Db.save.
  destruct (negb (Db.validate d)); [eauto|].
  case_bool_decide; [eauto|].
  assert (Db.any_message (Db.clientMsgId_conflict (Db.doc_clientMsgId d)) ms = true) as ->.
  { apply any_message_true. exists k, m. split; [exact Hk|].
    rewrite Hd. cbn. apply bool_decide_eq_true_2. exact Hm. }
  eauto.
Qed.

(** C10.  In every collection the server can build, two stored messages
    that both carry a [clientMsgId] carry different ones; a save whose
    [clientMsgId] is already stored is refused whatever its text, its other
    fields and the clock are, while a document without a [clientMsgId] is
    outside the index (it is sparse); and this guard is strictly stronger than the
    five-field index on documents that carry a [clientMsgId]: whatever the
    five-field index refuses the [clientMsgId] index refuses too, while a
    retry with another text or at another time collides on [clientMsgId]
    alone. *)
Theorem clientMsgId_unique_in_store (ws : list Db.Write) :
  let ms := Db.history ws in
  (∀ k1 k2 m1 m2 c1 c2,
      ms !! k1 = Some m1 → ms !! k2 = Some m2 → k1 ≠ k2 →
      Message.clientMsgId m1 = Some c1 → Message.clientMsgId m2 = Some c2 → c1 ≠ c2)
  ∧ (∀ k m c oid now d,
      ms !! k = Some m → Message.clientMsgId m = Some c → Db.doc_clientMsgId d = Some c →
      ∃ e, Db.save ms oid now d = Err e ∧ Db.apply_write ms (Db.Save oid now d) = ms)
  ∧ (∀ m, Db.clientMsgId_conflict None m = false)
  ∧ (∀ d now m,
      is_Some (Db.doc_clientMsgId d) → Db.tuple_conflict d now m = true →
      Db.clientMsgId_conflict (Db.doc_clientMsgId d) m = true)
  ∧ (∀ d now m c,
      Message.clientMsgId m = Some c → Db.doc_clientMsgId d = Some c →
      Message.text m ≠ Db.doc_text d ∨ Message.createdAt m ≠ now →
      Db.clientMsgId_conflict (Db.doc_clientMsgId d) m = true
      ∧ Db.tuple_conflict d now m = false).
Proof.
  intros ms. split; [|split; [|split; [reflexivity|split]]].
  - intros k1 k2 m1 m2 c1 c2 H1 H2 Hne Hc1 Hc2 ->.
    apply Hne. exact (history_unique ws k1 k2 m1 m2 c2 H1 H2 Hc1 Hc2).
  - intros k m c oid now d Hk Hm Hd.
    destruct (save_rejects_reused_clientMsgId ms oid now d k m c Hk Hm Hd) as [e He].
    exists e. split; [exact He|]. cbn. rewrite He. reflexivity.
  - intros d now m [c Hc] Ht. unfold Db.tuple_conflict in Ht.
    rewrite !andb_true_iff in Ht. destruct Ht as [[[[_ _] _] Hcm] _].
    apply bool_decide_eq_true_1 in Hcm. rewrite Hc in *. cbn.
    apply bool_decide_eq_true_2. exact Hcm.
  - intros d now m c Hm Hd Hdiff. rewrite Hd. cbn. split.
    + apply bool_decide_eq_true_2. exact Hm.
    + unfold Db.tuple_conflict. destruct Hdiff as [Ht | Ht].
      * rewrite (bool_decide_eq_false_2 (Message.text m = _)) by exact Ht.
        rewrite !andb_false_r. reflexivity.
      * rewrite (bool_decide_eq_false_2 (Message.createdAt m = _)) by exact Ht.
        rewrite !andb_false_r. reflexivity.
Qed.

End CorrelationIds.

(** ** Room sends (C1) *)

Section RoomSend.
Import Server.

(** C1.  A room send, cut where the handler awaits: the unconfirmed copy
    is emitted to the room as it is when the request arrives ([σ]), the
    document is saved on the collection as it is when the store runs the
    save ([σs]), and the handler resumes on the server as it is then
    ([σr]).  A socket joined to the room at both emissions (the sending
    socket included, when it is joined) receives, from this send, exactly
    two [newRoomMessage] events carrying the send's [tempId]: first the
    unconfirmed copy (the request's room, text, sender and sender name,
    [_id] the [tempId]), then the persisted copy (the stored document, its
    [_id] the identifier of the document, its sender populated, the
    [tempId] added).  When saving fails it receives instead the unconfirmed
    [newRoomMessage] and exactly one [removeFailedMessage] with that
    [tempId], nothing is stored, and the sending socket, and only it, also
    receives a [messageError] carrying the [tempId], provided it is still
    connected when the handler resumes. *)
Theorem sendRoomMessage_notifications
    (σ σs σr : State) (s : Socket) (roomId text : string) (tempId : option string)
    (sender senderName oid : string) (now saved_at : Z) (c : nat) :
  c ∈ members σ roomId →
  c ∈ members σr roomId →
  let saving := sendRoomMessage_save σs roomId text tempId sender oid saved_at in
  let out := sendRoomMessage_first σ roomId text tempId sender senderName now
             :: sendRoomMessage_second σr s roomId tempId saving.2 in
  let unconfirmed :=
    Wire.mk tempId (RawId sender) (Some senderName) NullRef (Some roomId) text now
      tempId None false None false false false in
  match Db.save (messages σs) oid saved_at (Db.mkDoc sender None (Some roomId) text tempId) with
  | Ok (ms, saved) =>
      let confirmed :=
        Wire.mk (Some oid) (Db.populate_ref (users σr) (Some sender)) None NullRef
          (Some roomId) text saved_at tempId tempId false None false false false in
      inbox c out = [newRoomMessage unconfirmed; newRoomMessage confirmed]
      ∧ count_events (is_newRoomMessage_with tempId) (inbox c out) = 2%nat
      ∧ count_events (is_removeFailedMessage_with tempId) (inbox c out) = 0%nat
      ∧ count_events is_messageError (inbox c out) = 0%nat
      ∧ saved = Message.mk oid sender None (Some roomId) text tempId false None
                  saved_at saved_at
      ∧ messages σs !! oid = None
      ∧ messages saving.1 = <[oid := saved]> (messages σs)
  | Err _ =>
      inbox c out =
        (newRoomMessage unconfirmed ::
         (if bool_decide (c = socket_id s)
          then [messageError "Failed to send room message" None tempId] else []) ++
         [removeFailedMessage tempId])%list
      ∧ count_events (is_newRoomMessage_with tempId) (inbox c out) = 1%nat
      ∧ count_events (is_removeFailedMessage_with tempId) (inbox c out) = 1%nat
      ∧ (sockets σr !! socket_id s = Some s →
         count_events is_messageError (inbox (socket_id s) out) = 1%nat)
      ∧ (c ≠ socket_id s → count_events is_messageError (inbox c out) = 0%nat)
      ∧ saving.1 = σs
  end
  ∧ sendRoomMessage σ s roomId text tempId sender senderName oid now saved_at
    = ((sendRoomMessage_save σ roomId text tempId sender oid saved_at).1,
       sendRoomMessage_first σ roomId text tempId sender senderName now
       :: sendRoomMessage_second (sendRoomMessage_save σ roomId text tempId sender oid saved_at).1
            s roomId tempId (sendRoomMessage_save σ roomId text tempId sender oid saved_at).2).
Proof.
  intros Hc Hcr saving out unconfirmed. subst saving out unconfirmed. split.
  - unfold sendRoomMessage_save, sendRoomMessage_first.
    destruct (Db.save _ _ _ _) as [[ms saved]|e] eqn:Hsave; cbn [fst snd sendRoomMessage_second].
    + apply save_Ok_inv in Hsave as (-> & -> & Hfresh & _).
      rewrite (inbox_io_to_member _ _ _ _ _ Hc), (inbox_io_to_member _ _ _ _ _ Hcr), inbox_nil.
      unfold count_events, immediateMessage, savedRoomMessage, Db.to_message. cbn.
      rewrite !bool_decide_eq_true_2 by reflexivity. cbn.
      repeat split; try reflexivity. exact Hfresh.
    + assert (Hself : socket_id s ∈ recipients
          (socket_emit s (messageError "Failed to send room message" None tempId)))
        by (cbn; set_solver).
      unfold immediateMessage. repeat split.
      * rewrite (inbox_io_to_member _ _ _ _ _ Hc), inbox_socket_emit.
        case_bool_decide; rewrite (inbox_io_to_member _ _ _ _ _ Hcr); reflexivity.
      * count_cases.
      * count_cases.
      * intros _. count_cases.
      * intros Hne. count_cases.
  - unfold sendRoomMessage. destruct (sendRoomMessage_save _ _ _ _ _ _ _). reflexivity.
Qed.

End RoomSend.


Section RoomSendWitness.
Import Server Demo.

Lemma sendRoomMessage_notifications_witness :
  2%nat ∈ members σ0 "r1"
  ∧ inbox 2 (sendRoomMessage σ0 alice "r1" "hi" (Some "t1") "u1" "alice" "m1" 10 11).2
    = [newRoomMessage
         (Wire.mk (Some "t1") (RawId "u1") (Some "alice") NullRef (Some "r1") "hi" 10
            (Some "t1") None false None false false false);
       newRoomMessage
         (Wire.mk (Some "m1") (Populated "u1" "alice" "") None NullRef (Some "r1") "hi" 11
            (Some "t1") (Some "t1") false None false false false)].
Proof.
  assert (H : 2%nat ∈ members σ0 "r1") by (vm_compute; set_solver).
  split; [exact H|].
  pose proof (sendRoomMessage_notifications σ0 σ0
                (sendRoomMessage_save σ0 "r1" "hi" (Some "t1") "u1" "m1" 11).1
                alice "r1" "hi" (Some "t1") "u1" "alice" "m1" 10 11 2%nat H H) as P.
  destruct P as [P Hrun]. rewrite Hrun. vm_compute in P. vm_compute. exact (proj1 P).
Defined.

End RoomSendWitness.

(** ** Connections and their personal rooms *)

Section DirectSend.
Import Server.

(** The run of the small deployment is a run of the server. *)
Lemma demo_run_reachable : reachable Demo.tokens Demo.both_joined.
Proof.
  apply (reachable_step _ Demo.bob_in);
    [|apply (step_request Demo.tokens Demo.bob_in Demo.bob (JoinRoom "r1"));
      vm_compute; reflexivity].
  apply (reachable_step _ Demo.alice_joined);
    [|apply (step_connect Demo.tokens Demo.alice_joined 2%nat (Some "token of bob")
               Demo.bob_in Demo.bob
               (connect Demo.tokens Demo.alice_joined 2 (Some "token of bob")).2);
      vm_compute; reflexivity].
  apply (reachable_step _ Demo.alice_in);
    [|apply (step_request Demo.tokens Demo.alice_in Demo.alice (JoinRoom "r1"));
      vm_compute; reflexivity].
  apply (reachable_step _ Demo.started);
    [|apply (step_connect Demo.tokens Demo.started 1%nat (Some "token of alice")
               Demo.alice_in Demo.alice
               (connect Demo.tokens Demo.started 1 (Some "token of alice")).2);
      vm_compute; reflexivity].
  apply reachable_start.
Defined.

(** Every connection joins the room named after its user when it connects,
    which is how [io.to(userId)] reaches a user's live connections. *)
Lemma connection_joins_personal_room σ s :
  socket_id s ∈ members (connection σ s).1 (userId s).
Proof.
  unfold connection, members, adapter_join. cbn.
  rewrite lookup_insert_eq. cbn. set_solver.
Qed.

End DirectSend.

(** ** Disconnection (C4, C5) *)

Section Disconnect.
Import Server.

Implicit Types (σ : State) (s : Socket) (l : list (string * gset string)).

Lemma leave_fold_out σ s l acc :
  (foldl (leave_step σ s) acc l).2 = (acc.2 ++ leave_emissions σ s l)%list.
Proof.
  revert acc. induction l as [|[k us] l IH]; intros acc; cbn.
  - rewrite app_nil_r. reflexivity.
  - rewrite IH. unfold leave_step, leave_emissions. cbn.
    case_bool_decide; cbn; [|reflexivity].
    case_bool_decide; cbn; rewrite <- app_assoc; reflexivity.
Qed.

Lemma leave_step_lookup σ s acc k0 us0 k :
  (leave_step σ s acc (k0, us0)).1 !! k =
  if bool_decide (k0 = k ∧ userId s ∈ us0) then after_leave (userId s) us0 else acc.1 !! k.
Proof.
  unfold leave_step, after_leave.
  destruct (decide (userId s ∈ us0)) as [Hin|Hout].
  - rewrite (bool_decide_eq_true_2 _ Hin).
    destruct (decide (k0 = k)) as [->|Hne].
    + rewrite (bool_decide_eq_true_2 (k = k ∧ _)) by (split; [reflexivity | exact Hin]).
      case_bool_decide; cbn; [apply lookup_delete_eq | apply lookup_insert_eq].
    + rewrite (bool_decide_eq_false_2 (k0 = k ∧ _)) by (intros [? _]; done).
      case_bool_decide; cbn; [apply lookup_delete_ne | apply lookup_insert_ne]; exact Hne.
  - rewrite (bool_decide_eq_false_2 _ Hout).
    rewrite bool_decide_eq_false_2 by (intros [_ ?]; done). reflexivity.
Qed.

Lemma leave_fold_map σ s l acc k :
  NoDup l.*1 →
  (foldl (leave_step σ s) acc l).1 !! k =
  match (list_to_map l : gmap string (gset string)) !! k with
  | Some us => if bool_decide (userId s ∈ us) then after_leave (userId s) us else acc.1 !! k
  | None => acc.1 !! k
  end.
Proof.
  revert acc. induction l as [|[k0 us0] l IH]; intros acc Hnd.
  - cbn. rewrite lookup_empty. reflexivity.
  - rewrite fmap_cons in Hnd. apply NoDup_cons in Hnd as [Hk0 Hnd].
    change (foldl (leave_step σ s) acc ((k0, us0) :: l))
      with (foldl (leave_step σ s) (leave_step σ s acc (k0, us0)) l).
    rewrite (IH _ Hnd), list_to_map_cons, leave_step_lookup.
    destruct (decide (k0 = k)) as [->|Hne].
    + rewrite lookup_insert_eq, (not_elem_of_list_to_map_1 l k Hk0).
      destruct (decide (userId s ∈ us0)) as [Hin|Hout].
      * rewrite (bool_decide_eq_true_2 (k = k ∧ _)) by (split; [reflexivity | exact Hin]).
        rewrite (bool_decide_eq_true_2 _ Hin). reflexivity.
      * rewrite (bool_decide_eq_false_2 (k = k ∧ _)) by (intros [_ ?]; done).
        rewrite (bool_decide_eq_false_2 _ Hout). reflexivity.
    + rewrite (lookup_insert_ne _ k0 k) by exact Hne.
      rewrite (bool_decide_eq_false_2 (k0 = k ∧ _)) by (intros [? _]; done).
      reflexivity.
Qed.

Lemma emitted_cons ev d out :
  emitted ev (d :: out) =
  ((if bool_decide (event d = ev) then 1 else 0) + emitted ev out)%nat.
Proof.
  unfold emitted. rewrite filter_cons.
  case_bool_decide; [rewrite decide_True by done | rewrite decide_False by done]; reflexivity.
Qed.

Lemma emitted_app ev out1 out2 :
  emitted ev (out1 ++ out2)%list = (emitted ev out1 + emitted ev out2)%nat.
Proof. unfold emitted. rewrite filter_app, length_app. reflexivity. Qed.

Lemma leave_emissions_cons σ s k us l :
  leave_emissions σ s ((k, us) :: l) =
  if bool_decide (userId s ∈ us)
  then io_to σ k (userLeftRoom (userId s) (username s) k) :: leave_emissions σ s l
  else leave_emissions σ s l.
Proof. unfold leave_emissions. cbn. case_bool_decide; reflexivity. Qed.

Lemma leave_emissions_absent σ s l r :
  r ∉ l.*1 → emitted (userLeftRoom (userId s) (username s) r) (leave_emissions σ s l) = 0%nat.
Proof.
  induction l as [|[k us] l IH]; intros Hr; [reflexivity|].
  rewrite fmap_cons in Hr. apply not_elem_of_cons in Hr as [Hne Hr].
  rewrite leave_emissions_cons. case_bool_decide; [|exact (IH Hr)].
  rewrite emitted_cons, (IH Hr). cbn [event io_to].
  rewrite bool_decide_eq_false_2; [reflexivity|]. intros [=]. apply Hne. cbn. congruence.
Qed.

Lemma leave_emissions_count σ s l r :
  NoDup l.*1 →
  emitted (userLeftRoom (userId s) (username s) r) (leave_emissions σ s l) =
  match (list_to_map l : gmap string (gset string)) !! r with
  | Some us => if bool_decide (userId s ∈ us) then 1%nat else 0%nat
  | None => 0%nat
  end.
Proof.
  induction l as [|[k us] l IH]; intros Hnd.
  - cbn. rewrite lookup_empty. reflexivity.
  - rewrite fmap_cons in Hnd. apply NoDup_cons in Hnd as [Hk Hnd].
    rewrite list_to_map_cons, leave_emissions_cons.
    destruct (decide (k = r)) as [->|Hne].
    + rewrite lookup_insert_eq. case_bool_decide.
      * rewrite emitted_cons, (leave_emissions_absent σ s l r Hk). cbn [event io_to].
        rewrite bool_decide_eq_true_2 by reflexivity. reflexivity.
      * apply (leave_emissions_absent σ s l r Hk).
    + rewrite (lookup_insert_ne _ k r) by exact Hne. rewrite <- (IH Hnd).
      case_bool_decide; [|reflexivity].
      rewrite emitted_cons. cbn [event io_to].
      rewrite bool_decide_eq_false_2; [reflexivity|]. intros [=]. congruence.
Qed.

Lemma leave_all_rooms_spec σ s r :
  let res := leave_all_rooms σ s in
  res.1 !! r =
    match activeRooms σ !! r with
    | Some us => if bool_decide (userId s ∈ us) then after_leave (userId s) us else Some us
    | None => None
    end
  ∧ emitted (userLeftRoom (userId s) (username s) r) res.2 =
    match activeRooms σ !! r with
    | Some us => if bool_decide (userId s ∈ us) then 1%nat else 0%nat
    | None => 0%nat
    end.
Proof.
  unfold leave_all_rooms. cbn zeta. split.
  - rewrite leave_fold_map by apply NoDup_fst_map_to_list.
    rewrite list_to_map_to_list. cbn [fst].
    destruct (activeRooms σ !! r) as [us|]; [|reflexivity].
    case_bool_decide; reflexivity.
  - rewrite leave_fold_out. cbn [snd app].
    rewrite leave_emissions_count by apply NoDup_fst_map_to_list.
    rewrite list_to_map_to_list. reflexivity.
Qed.

Lemma size_remove_member (uid : string) (us : gset string) :
  uid ∈ us → (size (us ∖ {[uid]}) + 1 = size us)%nat.
Proof.
  intros Hin. rewrite size_difference by set_solver. rewrite size_singleton.
  assert (size us ≠ 0%nat) as Hpos; [|lia].
  apply size_non_empty_iff. intros He. rewrite He in Hin. set_solver.
Qed.

Lemma members_adapter_leave_all (rs : gmap string (gset nat)) (c : nat) (r : string) :
  default ∅ (adapter_leave_all rs c !! r) = default ∅ (rs !! r) ∖ {[c]}.
Proof.
  unfold adapter_leave_all. rewrite map_lookup_filter, lookup_fmap.
  destruct (rs !! r) as [cs|]; cbn; [|symmetry; apply empty_difference_L].
  destruct (decide (cs ∖ {[c]} = ∅)) as [He|Hne].
  - rewrite option_guard_False by (cbn; rewrite He; tauto). cbn. rewrite He. reflexivity.
  - rewrite option_guard_True by exact Hne. reflexivity.
Qed.

(** C5.  When the connection of an identity is lost, then for every room
    [r]: if the identity was active in [r], exactly one [userLeftRoom] for
    [r] is emitted, to the sockets still joined to [r]; the identity is
    removed from the active set of [r], whose size decreases by exactly one;
    and the entry of [r] is removed from the active-room map when that
    leaves it empty.  A room the identity was not active in sees no
    [userLeftRoom] and keeps its entry as it was. *)
Theorem disconnect_leaves_rooms (σ : State) (s : Socket) (now : Z) (r : string) :
  let res := disconnect σ s now in
  let ev := userLeftRoom (userId s) (username s) r in
  match activeRooms σ !! r with
  | Some us =>
      if bool_decide (userId s ∈ us) then
        emitted ev res.2 = 1%nat
        ∧ (∀ d, d ∈ res.2 → event d = ev → recipients d = members σ r ∖ {[socket_id s]})
        ∧ (size (us ∖ {[userId s]}) + 1 = size us)%nat
        ∧ (us ∖ {[userId s]} = ∅ → activeRooms res.1 !! r = None)
        ∧ (us ∖ {[userId s]} ≠ ∅ → activeRooms res.1 !! r = Some (us ∖ {[userId s]}))
      else
        emitted ev res.2 = 0%nat ∧ activeRooms res.1 !! r = Some us
  | None =>
      emitted ev res.2 = 0%nat ∧ activeRooms res.1 !! r = None
  end.
Proof.
  intros res ev. subst res ev. unfold disconnect.
  set (σ1 := mkState _ _ _ _ _).
  pose proof (leave_all_rooms_spec σ1 s r) as [Hmap Hout].
  destruct (leave_all_rooms σ1 s) as [ar leaves] eqn:Hres. cbn [fst snd] in *.
  change (activeRooms σ1) with (activeRooms σ) in *.
  assert (Hemit : ∀ n, emitted (userLeftRoom (userId s) (username s) r) leaves = n →
            emitted (userLeftRoom (userId s) (username s) r)
              (socket_broadcast σ1 s (userOffline (userId s)) :: leaves) = n).
  { intros n <-. rewrite emitted_cons. cbn. reflexivity. }
  destruct (activeRooms σ !! r) as [us|]; [|split; [apply Hemit|]; assumption].
  case_bool_decide as Hin; [|split; [apply Hemit|]; assumption].
  unfold after_leave in Hmap.
  split; [apply Hemit; exact Hout|].
  split.
  { intros d Hd Hev. apply elem_of_cons in Hd as [->|Hd]; [discriminate Hev|].
    assert (leaves = leave_emissions σ1 s (map_to_list (activeRooms σ))) as ->.
    { change leaves with (ar, leaves).2. rewrite <- Hres. unfold leave_all_rooms.
      rewrite leave_fold_out. reflexivity. }
    unfold leave_emissions in Hd. apply list_elem_of_omap in Hd as ([k us0] & _ & Hd).
    cbn in Hd. case_bool_decide; [|discriminate]. injection Hd as <-.
    cbn in Hev. injection Hev as ->. cbn. unfold members. cbn.
    apply members_adapter_leave_all. }
  split; [apply size_remove_member; exact Hin|].
  split.
  - intros He. cbn [activeRooms]. rewrite Hmap, bool_decide_eq_true_2; [reflexivity|].
    rewrite He. apply size_empty.
  - intros Hne. cbn [activeRooms]. rewrite Hmap, bool_decide_eq_false_2; [reflexivity|].
    intros Hz. apply Hne. apply leibniz_equiv. apply size_empty_inv. exact Hz.
Qed.

Lemma set_presence_lookup (us : gmap string User.t) uid on seen k :
  Db.set_presence us uid on seen !! k =
  if bool_decide (uid = k)
  then (λ u, User.mk (User.username u) (User.avatar u) on seen) <$> us !! k
  else us !! k.
Proof.
  unfold Db.set_presence. rewrite lookup_alter.
  case_decide; case_bool_decide; congruence.
Qed.

Lemma disconnect_users σ s now :
  users (disconnect σ s now).1 = Db.set_presence (users σ) (userId s) false (Some now).
Proof.
  unfold disconnect. destruct (leave_all_rooms _ s). reflexivity.
Qed.

Lemma disconnect_sockets σ s now :
  sockets (disconnect σ s now).1 = delete (socket_id s) (sockets σ).
Proof.
  unfold disconnect. destruct (leave_all_rooms _ s). reflexivity.
Qed.

End Disconnect.

(** ** Active members and joined sockets *)

Section Runs.
Import Server.

Lemma members_adapter_join rs room c room' :
  default ∅ (adapter_join rs room c !! room') =
  if bool_decide (room = room') then {[c]} ∪ default ∅ (rs !! room) else default ∅ (rs !! room').
Proof.
  unfold adapter_join. case_bool_decide as E.
  - subst. rewrite lookup_insert_eq. reflexivity.
  - rewrite lookup_insert_ne by exact E. reflexivity.
Qed.

Lemma members_adapter_leave rs room c room' :
  default ∅ (adapter_leave rs room c !! room') =
  if bool_decide (room = room') then default ∅ (rs !! room) ∖ {[c]} else default ∅ (rs !! room').
Proof.
  unfold adapter_leave. destruct (rs !! room) as [cs|] eqn:Hcs.
  - case_bool_decide as He; case_bool_decide as E; subst.
    + rewrite lookup_delete_eq. cbn. symmetry. exact He.
    + rewrite lookup_delete_ne by exact E. reflexivity.
    + rewrite lookup_insert_eq. reflexivity.
    + rewrite lookup_insert_ne by exact E. reflexivity.
  - case_bool_decide as E; [|reflexivity]. subst. rewrite Hcs. cbn.
    symmetry. apply empty_difference_L.
Qed.

Lemma active_remove_lookup ar room u room' :
  default ∅ (active_remove ar room u !! room') =
  if bool_decide (room = room') then default ∅ (ar !! room) ∖ {[u]} else default ∅ (ar !! room').
Proof.
  unfold active_remove. destruct (ar !! room) as [us|] eqn:Hus.
  - case_bool_decide as He; case_bool_decide as E; subst.
    + rewrite lookup_delete_eq. cbn. symmetry. apply leibniz_equiv.
      apply size_empty_inv. exact He.
    + rewrite lookup_delete_ne by exact E. reflexivity.
    + rewrite lookup_insert_eq. reflexivity.
    + rewrite lookup_insert_ne by exact E. reflexivity.
  - case_bool_decide as E; [|reflexivity]. subst. rewrite Hus. cbn.
    symmetry. apply empty_difference_L.
Qed.

Lemma leave_all_rooms_active σ s room :
  default ∅ ((leave_all_rooms σ s).1 !! room) = active σ room ∖ {[userId s]}.
Proof.
  destruct (leave_all_rooms_spec σ s room) as [-> _]. unfold active.
  destruct (activeRooms σ !! room) as [us|]; cbn; [|symmetry; apply empty_difference_L].
  case_bool_decide as Hin.
  - unfold after_leave. case_bool_decide as He; cbn; [|reflexivity].
    symmetry. apply leibniz_equiv. apply size_empty_inv. exact He.
  - apply leibniz_equiv. intros x. rewrite elem_of_difference, elem_of_singleton.
    split; [|tauto]. intros Hx. split; [exact Hx|]. intros ->. contradiction.
Qed.

(** Two connected sockets of different users have different numbers. *)
Lemma other_user_other_socket σ s s' :
  sockets σ !! socket_id s = Some s → sockets σ !! socket_id s' = Some s' →
  userId s' ≠ userId s → socket_id s' ≠ socket_id s.
Proof. intros Hs Hs' Hu E. rewrite E, Hs in Hs'. injection Hs' as ->. contradiction. Qed.

Lemma handle_preserves_active_are_joined σ s req :
  sockets σ !! socket_id s = Some s →
  active_are_joined σ → active_are_joined (handle σ s req).1.
Proof.
  intros Hs Hinv. destruct req as [receiver text cid oid now | r | r | r text t sd sn oid now sv | mid now].
  - cbn. unfold sendMessage. destruct (Db.save _ _ _ _) as [[ms m]|e]; exact Hinv.
  - intros room u Hu. unfold active in Hu. cbn [handle joinRoom fst activeRooms] in Hu.
    destruct (decide (r = room)) as [-> | Hne].
    + rewrite lookup_insert_eq in Hu. cbn in Hu. apply elem_of_union in Hu as [Hu | Hu].
      * apply elem_of_singleton in Hu as ->. exists s. split; [exact Hs|]. split; [reflexivity|].
        unfold members. cbn [handle joinRoom fst rooms]. rewrite members_adapter_join. rewrite bool_decide_eq_true_2 by reflexivity.
        apply elem_of_union_l, elem_of_singleton. reflexivity.
      * destruct (Hinv room u Hu) as (s' & Hs' & Hu' & Hm). exists s'.
        split; [exact Hs'|]. split; [exact Hu'|].
        unfold members. cbn [handle joinRoom fst rooms]. rewrite members_adapter_join. rewrite bool_decide_eq_true_2 by reflexivity.
        apply elem_of_union_r. exact Hm.
    + rewrite lookup_insert_ne in Hu by exact Hne.
      destruct (Hinv room u Hu) as (s' & Hs' & Hu' & Hm). exists s'.
      split; [exact Hs'|]. split; [exact Hu'|].
      unfold members. cbn [handle joinRoom fst rooms]. rewrite members_adapter_join. rewrite bool_decide_eq_false_2 by exact Hne.
      exact Hm.
  - intros room u Hu. unfold active in Hu. cbn [handle leaveRoom fst activeRooms] in Hu.
    rewrite active_remove_lookup in Hu.
    unfold members. cbn [handle leaveRoom fst rooms sockets]. rewrite members_adapter_leave.
    case_bool_decide as E.
    + subst. apply elem_of_difference in Hu as [Hu Hne].
      destruct (Hinv room u Hu) as (s' & Hs' & Hu' & Hm). exists s'.
      split; [exact Hs'|]. split; [exact Hu'|].
      apply elem_of_difference. split; [exact Hm|].
      rewrite elem_of_singleton. apply (other_user_other_socket σ s s' Hs Hs').
      rewrite Hu'. intros ->. apply Hne. apply elem_of_singleton. reflexivity.
    + exact (Hinv room u Hu).
  - cbn. rewrite sendRoomMessage_uninterrupted. cbn zeta.
    destruct (Db.save _ _ _ _) as [[ms m]|e]; exact Hinv.
  - cbn. unfold deleteRoomMessage, deleteRoomMessage_update.
    destruct (Db.findOneAndUpdate _ _ _ _) as [ms r]. exact Hinv.
Qed.

Lemma disconnect_preserves_active_are_joined σ s now :
  sockets σ !! socket_id s = Some s →
  active_are_joined σ → active_are_joined (disconnect σ s now).1.
Proof.
  intros Hs Hinv room u Hu. unfold disconnect in *.
  set (σ1 := mkState _ _ _ _ _) in *.
  pose proof (leave_all_rooms_active σ1 s room) as Hactive.
  destruct (leave_all_rooms σ1 s) as [ar leaves]. cbn [fst] in *.
  unfold active in Hu. cbn [activeRooms] in Hu. rewrite Hactive in Hu.
  change (active σ1 room) with (active σ room) in Hu.
  apply elem_of_difference in Hu as [Hu Hne].
  destruct (Hinv room u Hu) as (s' & Hs' & Hu' & Hm). exists s'.
  assert (socket_id s' ≠ socket_id s) as Hid.
  { apply (other_user_other_socket σ s s' Hs Hs'). rewrite Hu'. intros ->.
    apply Hne. apply elem_of_singleton. reflexivity. }
  split; [cbn [sockets]; rewrite lookup_delete_ne by congruence; exact Hs'|].
  split; [exact Hu'|].
  unfold members. cbn [rooms]. rewrite members_adapter_leave_all.
  apply elem_of_difference. split; [exact Hm|]. rewrite elem_of_singleton. exact Hid.
Qed.

Lemma connect_preserves_active_are_joined verify σ c token σ' s out :
  sockets σ !! c = None →
  connect verify σ c token = (σ', inr s, out) →
  active_are_joined σ → active_are_joined σ'.
Proof.
  intros Hfresh Hconn Hinv. unfold connect, authenticate in Hconn.
  destruct token as [tok|]; [|discriminate].
  destruct (negb (truthy (Some tok))); [discriminate|].
  destruct (verify tok) as [[uid uname]|]; [|discriminate].
  cbn -[adapter_join] in Hconn. injection Hconn as <- <- <-.
  intros room u Hu. destruct (Hinv room u Hu) as (s' & Hs' & Hu' & Hm). exists s'.
  assert (socket_id s' ≠ c) as Hid by (intros E; rewrite E, Hfresh in Hs'; discriminate).
  split; [cbn [sockets]; rewrite lookup_insert_ne by congruence; exact Hs'|].
  split; [exact Hu'|].
  unfold members. cbn [rooms socket_id userId]. rewrite members_adapter_join.
  case_bool_decide as E; [|exact Hm]. subst. apply elem_of_union_r. exact Hm.
Qed.

(** At the end of every run of whole handlers, an identity active in a
    room has a connection joined to that room. *)
Lemma reachable_active_are_joined verify σ :
  reachable verify σ → active_are_joined σ.
Proof.
  induction 1 as [us ms | σ σ' _ IH Hstep].
  - intros room u Hu. unfold active in Hu. cbn in Hu. rewrite lookup_empty in Hu.
    cbn in Hu. apply not_elem_of_empty in Hu. contradiction.
  - destruct Hstep as [σ c token σ' s out Hfresh Hconn | σ s req Hs | σ s now Hs].
    + exact (connect_preserves_active_are_joined verify σ c token σ' s out Hfresh Hconn IH).
    + exact (handle_preserves_active_are_joined σ s req Hs IH).
    + exact (disconnect_preserves_active_are_joined σ s now Hs IH).
Qed.

End Runs.

(** ** Where a direct send arrives (C2) *)

Section DirectDelivery.
Import Server Demo.

(** A socket joined to a room stays joined through the requests of every
    socket, its own [leaveRoom] of that room apart, and through the
    connections and disconnections of the other sockets. *)
Lemma stays_joined_request σ s req c room :
  c ∈ members σ room →
  req ≠ LeaveRoom room ∨ socket_id s ≠ c →
  c ∈ members (handle σ s req).1 room.
Proof.
  intros Hc Hreq. destruct req as [rcv txt cid oid at_|r|r|r txt t sd sn oid at_ sv|id at_].
  - cbn [handle]. unfold sendMessage. destruct (Db.save _ _ _ _) as [[ms m]|e]; exact Hc.
  - unfold members. cbn [handle joinRoom fst rooms]. rewrite members_adapter_join.
    case_bool_decide as E; [|exact Hc]. subst. apply elem_of_union_r. exact Hc.
  - unfold members. cbn [handle leaveRoom fst rooms]. rewrite members_adapter_leave.
    case_bool_decide as E; [|exact Hc]. subst.
    apply elem_of_difference. split; [exact Hc|]. rewrite elem_of_singleton.
    destruct Hreq as [Hreq|Hreq]; [contradiction Hreq; reflexivity|congruence].
  - cbn [handle]. rewrite sendRoomMessage_uninterrupted. cbn zeta.
    destruct (Db.save _ _ _ _) as [[ms m]|e]; exact Hc.
  - cbn [handle]. unfold deleteRoomMessage, deleteRoomMessage_update.
    destruct (Db.findOneAndUpdate _ _ _ _) as [ms r]. exact Hc.
Qed.

Lemma stays_joined_connection σ s c room :
  c ∈ members σ room → c ∈ members (connection σ s).1 room.
Proof.
  intros Hc. unfold members. cbn [connection fst rooms]. rewrite members_adapter_join.
  case_bool_decide as E; [|exact Hc]. subst. apply elem_of_union_r. exact Hc.
Qed.

Lemma stays_joined_disconnect σ s now c room :
  c ∈ members σ room → socket_id s ≠ c → c ∈ members (disconnect σ s now).1 room.
Proof.
  intros Hc Hne. unfold members, disconnect. destruct (leave_all_rooms _ s).
  cbn [fst rooms]. rewrite members_adapter_leave_all.
  apply elem_of_difference. split; [exact Hc|]. rewrite elem_of_singleton. congruence.
Qed.

Lemma bob_left_own_room_reachable : reachable tokens bob_left_own_room.
Proof.
  apply (reachable_step _ both_joined); [exact demo_run_reachable|].
  apply (step_request tokens both_joined bob (LeaveRoom "u2")). vm_compute. reflexivity.
Qed.

(** C2, refuted as stated: in a state the server reaches, bob is connected
    and has left the room named after his own id, which [leaveRoom] lets
    him do.  Alice's direct send to him is saved and emitted to that room,
    and bob's live connection receives nothing. *)
Lemma connected_receiver_misses_direct_message :
  reachable tokens bob_left_own_room
  ∧ sockets bob_left_own_room !! 2%nat = Some bob
  ∧ ¬ delivered_to_live_connections bob_left_own_room alice "u2" "hi" (Some "c1") "m1" 10.
Proof.
  split; [exact bob_left_own_room_reachable|]. split; [reflexivity|].
  intros H.
  specialize (H _ _ eq_refl bob eq_refl (or_introl eq_refl)).
  vm_compute in H. apply elem_of_nil in H. exact H.
Qed.

(** C2, amended.  A direct send whose save succeeds stores exactly one new
    Message (sender the identity of the socket, the receiver, text and
    [clientMsgId] of the request) and emits it twice and no more, as
    [newMessage], with sender and receiver populated from the users and
    with the [clientMsgId] of the request: once to the room named after the
    receiver, once to the room named after the sender.  A connection
    receives one copy for each of the two rooms it is joined to when the
    message is emitted, and none when it is joined to neither.  A
    connection joins the room of its own identity when it registers and
    stays in a room through every request but its own [leaveRoom] of that
    room, and through the connections and disconnections of other sockets.
    A direct send whose save fails stores nothing and emits one
    [messageError] carrying the [clientMsgId] to the sending socket alone:
    no connection receives a [newMessage]. *)
Theorem sendMessage_delivery
    (σ : State) (s : Socket) (receiver text : string) (clientMsgId : option string)
    (oid : string) (now : Z) :
  let r := sendMessage σ s receiver text clientMsgId oid now in
  match Db.save (messages σ) oid now
          (Db.mkDoc (userId s) (Some receiver) None text clientMsgId) with
  | Ok (ms, saved) =>
      let w := Wire.mk (Some oid) (Db.populate_ref (users σ) (Some (userId s))) None
                 (Db.populate_ref (users σ) (Some receiver)) None text now
                 None clientMsgId false None true false false in
      messages σ !! oid = None
      ∧ saved = Message.mk oid (userId s) (Some receiver) None text clientMsgId false None
                  now now
      ∧ messages r.1 = <[oid := saved]> (messages σ)
      ∧ size (messages r.1) = S (size (messages σ))
      ∧ r.2 = [mkDelivery (members σ receiver) (newMessage w);
               mkDelivery (members σ (userId s)) (newMessage w)]
      ∧ (∀ u, users σ !! userId s = Some u →
              Wire.sender w = Populated (userId s) (User.username u) (User.avatar u))
      ∧ (∀ u, users σ !! receiver = Some u →
              Wire.receiver w = Populated receiver (User.username u) (User.avatar u))
      ∧ (∀ c, inbox c r.2
              = ((if bool_decide (c ∈ members σ receiver) then [newMessage w] else [])
                 ++ (if bool_decide (c ∈ members σ (userId s)) then [newMessage w] else []))%list)
      ∧ (∀ c, count_events is_messageError (inbox c r.2) = 0%nat)
  | Err _ =>
      r.1 = σ
      ∧ r.2 = [socket_emit s (messageError "Failed to send message" clientMsgId None)]
      ∧ inbox (socket_id s) r.2 = [messageError "Failed to send message" clientMsgId None]
      ∧ (∀ c, c ≠ socket_id s → inbox c r.2 = [])
      ∧ (∀ c, count_events is_newMessage (inbox c r.2) = 0%nat)
  end
  ∧ (∀ s0, socket_id s0 ∈ members (connection σ s0).1 (userId s0))
  ∧ (∀ c room s1 req, c ∈ members σ room → req ≠ LeaveRoom room ∨ socket_id s1 ≠ c →
       c ∈ members (handle σ s1 req).1 room)
  ∧ (∀ c room s1, c ∈ members σ room → c ∈ members (connection σ s1).1 room)
  ∧ (∀ c room s1 at_, c ∈ members σ room → socket_id s1 ≠ c →
       c ∈ members (disconnect σ s1 at_).1 room).
Proof.
  intros r. subst r. split; [|split; [|split; [|split]]].
  - unfold sendMessage.
    destruct (Db.save _ _ _ _) as [[ms saved]|e] eqn:Hsave; cbn [fst snd].
    + apply save_Ok_inv in Hsave as (-> & -> & Hfresh & _).
      unfold messageToEmit, Db.to_message, io_to, members. cbn -[inbox].
      split; [exact Hfresh|]. split; [reflexivity|]. split; [reflexivity|].
      split; [apply map_size_insert_None; exact Hfresh|]. split; [reflexivity|].
      split; [intros u ->; reflexivity|]. split; [intros u ->; reflexivity|]. split.
      * intros c. rewrite !inbox_cons, inbox_nil. cbn [recipients event].
        do 2 case_bool_decide; repeat destruct (decide _); try contradiction; reflexivity.
      * intros c. count_cases.
    + repeat split.
      * rewrite inbox_socket_emit, bool_decide_eq_true_2 by reflexivity. reflexivity.
      * intros c Hc. rewrite inbox_socket_emit, bool_decide_eq_false_2 by exact Hc.
        reflexivity.
      * intros c. count_cases.
  - intros s0. apply connection_joins_personal_room.
  - intros c room s1 req Hc Hreq. exact (stays_joined_request σ s1 req c room Hc Hreq).
  - intros c room s1 Hc. exact (stays_joined_connection σ s1 c room Hc).
  - intros c room s1 at_ Hc Hne. exact (stays_joined_disconnect σ s1 at_ c room Hc Hne).
Qed.

End DirectDelivery.

Section Presence.
Import Server Demo.

(** C4, refuted as stated: alice has two tabs connected; when one of them
    disconnects she is marked offline although the other is still live. *)
Lemma presence_dropped_with_live_connection :
  ¬ presence_kept_while_connected σ0 alice_tab 99.
Proof.
  intros H.
  destruct (H (User.mk "alice" "" true None) eq_refl) as (u' & Hu' & Hkeep & _).
  assert (Hother : has_other_connection σ0 alice_tab).
  { exists alice. split; [vm_compute; reflexivity|]. split; [cbn; lia | reflexivity]. }
  destruct (Hkeep Hother) as [Hon _].
  rewrite disconnect_users, set_presence_lookup in Hu'.
  vm_compute in Hu'. injection Hu' as <-. discriminate Hon.
Qed.

(** C4, amended.  A connection that authenticates sets the presence of its
    identity to online and clears [lastSeen]; a handshake without a token
    (none, or the empty string) or with a token that does not verify
    registers nothing and changes nothing.  Every connection that closes
    sets the presence of its identity to offline and stamps [lastSeen] with
    the current time, whether or not other connections of that identity
    remain, and those other connections stay connected. *)
Theorem presence_follows_each_connection
    (verify : string → option (string * string))
    (σ : State) (c : nat) (tok : string) (s : Socket) (now : Z) :
  (let res := connect verify σ c (Some tok) in
   if String.eqb tok "" then res = (σ, inl NoTokenProvided, [])
   else
     match verify tok with
     | Some (uid, uname) =>
         res.1.2 = inr (mkSocket c uid uname)
         ∧ users res.1.1 !! uid = came_online <$> users σ !! uid
         ∧ (∀ u, u ≠ uid → users res.1.1 !! u = users σ !! u)
         ∧ sockets res.1.1 !! c = Some (mkSocket c uid uname)
     | None => res = (σ, inl InvalidToken, [])
     end)
  ∧ connect verify σ c None = (σ, inl NoTokenProvided, [])
  ∧ users (disconnect σ s now).1 !! userId s = went_offline now <$> users σ !! userId s
  ∧ (∀ s', sockets σ !! socket_id s' = Some s' → socket_id s' ≠ socket_id s →
           sockets (disconnect σ s now).1 !! socket_id s' = Some s').
Proof.
  split; [|split; [reflexivity|split]].
  - unfold connect, authenticate. cbn [truthy].
    destruct (String.eqb tok ""); [reflexivity|]. cbn [negb].
    destruct (verify tok) as [[uid uname]|]; [|reflexivity].
    cbn. split; [reflexivity|]. split; [|split; [|apply lookup_insert_eq]].
    + rewrite set_presence_lookup, bool_decide_eq_true_2 by reflexivity. reflexivity.
    + intros u Hu. rewrite set_presence_lookup, bool_decide_eq_false_2 by congruence.
      reflexivity.
  - rewrite disconnect_users, set_presence_lookup, bool_decide_eq_true_2 by reflexivity.
    reflexivity.
  - intros s' Hs' Hne. rewrite disconnect_sockets, lookup_delete_ne by congruence.
    exact Hs'.
Qed.

End Presence.

(** ** Deletion (C7, C8) *)

Section Deletion.
Import Server.

Lemma findOneAndUpdate_sender ms id uid now m :
  ms !! id = Some m → Message.sender m = uid →
  Db.findOneAndUpdate ms id uid now
  = (<[id := Db.soft_delete now m]> ms, Some (Db.soft_delete now m)).
Proof.
  intros Hm Hs. unfold Db.findOneAndUpdate. rewrite Hm.
  rewrite bool_decide_eq_true_2 by exact Hs. reflexivity.
Qed.

Lemma findOneAndUpdate_refused ms id uid now :
  (∀ m, ms !! id = Some m → Message.sender m ≠ uid) →
  Db.findOneAndUpdate ms id uid now = (ms, None).
Proof.
  intros H. unfold Db.findOneAndUpdate. destruct (ms !! id) as [m|] eqn:Hm; [|reflexivity].
  rewrite bool_decide_eq_false_2 by (apply H; reflexivity). reflexivity.
Qed.

(** C7.  A [deleteRoomMessage] request for an identifier that names no
    message, or names a message whose sender is not the requesting
    identity, changes nothing in the server and produces one delivery only:
    a [messageError] to the requesting socket; nothing is broadcast.  A
    request by the sender of an existing message replaces the stored record
    by its soft-deleted form (the same record with text
    ["[Message deleted]"], [isDeleted] set, [deletedAt] and [updatedAt] the
    current time) and leaves every other message as it was.  The message
    belonging to a room, that record is emitted once, as
    [roomMessageDeleted], to the sockets joined to the room: its [_id],
    sender, room, creation time and correlation id are those of the
    message, its text the marker, [isDeleted] set, [deletedAt] the current
    time; each socket joined to the room receives it once and no other
    socket receives anything.  The message having no room, the record is
    rewritten all the same and the only delivery is the [messageError] to
    the requesting socket. *)
Theorem deleteRoomMessage_only_sender
    (σ : State) (s : Socket) (messageId : string) (now : Z) :
  let res := deleteRoomMessage σ s messageId now in
  let refused :=
    res = (σ, [mkDelivery {[socket_id s]} (messageError "Failed to delete message" None None)]) in
  match messages σ !! messageId with
  | Some m =>
      if bool_decide (Message.sender m = userId s) then
        let m' := Message.mk (Message._id m) (Message.sender m) (Message.receiver m)
                    (Message.room m) "[Message deleted]" (Message.clientMsgId m) true
                    (Some now) (Message.createdAt m) now in
        messages res.1 = <[messageId := m']> (messages σ)
        ∧ users res.1 = users σ ∧ sockets res.1 = sockets σ
        ∧ rooms res.1 = rooms σ ∧ activeRooms res.1 = activeRooms σ
        ∧ (∀ k, k ≠ messageId → messages res.1 !! k = messages σ !! k)
        ∧ match Message.room m with
          | Some roomId =>
              let w := Wire.mk (Some (Message._id m)) (RawId (Message.sender m)) None
                         (match Message.receiver m with Some r => RawId r | None => NullRef end)
                         (Some roomId) "[Message deleted]" (Message.createdAt m) None
                         (Message.clientMsgId m) true (Some now) false false false in
              res.2 = [mkDelivery (members σ roomId) (roomMessageDeleted w)]
              ∧ deletions_broadcast (Message._id m) res.2 = 1%nat
              ∧ (∀ c, c ∈ members σ roomId → inbox c res.2 = [roomMessageDeleted w])
              ∧ (∀ c, c ∉ members σ roomId → inbox c res.2 = [])
          | None =>
              res.2 = [mkDelivery {[socket_id s]}
                         (messageError "Failed to delete message" None None)]
          end
      else refused
  | None => refused
  end.
Proof.
  intros res refused. subst res refused. unfold deleteRoomMessage, deleteRoomMessage_update.
  destruct (messages σ !! messageId) as [m|] eqn:Hm.
  - case_bool_decide as Hs.
    + rewrite (findOneAndUpdate_sender _ _ _ _ _ Hm Hs).
      cbn [deleteRoomMessage_notify fst snd users messages sockets rooms activeRooms].
      unfold Db.soft_delete. cbn [Message.room].
      do 5 (split; [reflexivity|]).
      split; [intros k Hk; apply lookup_insert_ne; congruence|].
      destruct (Message.room m) as [roomId|] eqn:Hroom; [|reflexivity].
      unfold doc_wire, io_to, members. cbn [Message._id Message.sender Message.receiver
        Message.room Message.text Message.createdAt Message.clientMsgId Message.isDeleted
        Message.deletedAt rooms].
      split; [reflexivity|]. split.
      { unfold deletions_broadcast. cbn.
        rewrite bool_decide_eq_true_2 by reflexivity. cbn.
        rewrite decide_True by reflexivity. reflexivity. }
      split.
      * intros c Hc. rewrite inbox_cons, inbox_nil. cbn [recipients event].
        rewrite decide_True by exact Hc. reflexivity.
      * intros c Hc. rewrite inbox_cons, inbox_nil. cbn [recipients event].
        rewrite decide_False by exact Hc. reflexivity.
    + rewrite findOneAndUpdate_refused by (intros m0 Hm0; congruence).
      destruct σ; reflexivity.
  - rewrite findOneAndUpdate_refused by (intros m0 Hm0; congruence).
    destruct σ; reflexivity.
Qed.

Lemma deleteRoomMessage_update_sender σ s id now m :
  messages σ !! id = Some m → Message.sender m = userId s →
  deleteRoomMessage_update σ s id now
  = (mkState (users σ) (<[id := Db.soft_delete now m]> (messages σ))
       (sockets σ) (rooms σ) (activeRooms σ),
     Some (Db.soft_delete now m)).
Proof.
  intros Hm Hs. unfold deleteRoomMessage_update.
  rewrite (findOneAndUpdate_sender _ _ _ _ _ Hm Hs). reflexivity.
Qed.

Lemma schedules_cases sched :
  sched ∈ schedules →
  sched = [Update true; Notify true; Update false; Notify false]
  ∨ sched = [Update true; Update false; Notify true; Notify false]
  ∨ sched = [Update true; Update false; Notify false; Notify true]
  ∨ sched = [Update false; Update true; Notify true; Notify false]
  ∨ sched = [Update false; Update true; Notify false; Notify true]
  ∨ sched = [Update false; Notify false; Update true; Notify true].
Proof.
  unfold schedules. cbn. intros H.
  repeat (apply elem_of_cons in H as [-> | H]; [tauto|]).
  apply elem_of_nil in H. contradiction.
Qed.

(** The final store and the deliveries of a pair of delete calls by the
    sender, under one schedule. *)
Lemma run_deletes_sender σ c1 c2 id m sched :
  messages σ !! id = Some m →
  Message.sender m = userId (call_socket c1) →
  Message.sender m = userId (call_socket c2) →
  sched ∈ schedules →
  let f := run_deletes σ c1 c2 id sched in
  (∃ now, (now = call_now c1 ∨ now = call_now c2)
          ∧ messages (flight_state f) = <[id := Db.soft_delete now m]> (messages σ))
  ∧ (∀ roomId, Message.room m = Some roomId →
       ∃ n1 n2,
         flight_out f =
           [mkDelivery (members σ roomId) (roomMessageDeleted (doc_wire (Db.soft_delete n1 m)));
            mkDelivery (members σ roomId) (roomMessageDeleted (doc_wire (Db.soft_delete n2 m)))])
  ∧ (Message.room m = None →
       ∀ d, d ∈ flight_out f → is_messageError (event d) = true).
Proof.
  intros Hm Hs1 Hs2 Hsched f. subst f.
  apply schedules_cases in Hsched as [-> | [-> | [-> | [-> | [-> | ->]]]]];
    unfold run_deletes; cbn [foldl delete_step flight_state result1 result2 flight_out];
    rewrite (deleteRoomMessage_update_sender _ _ _ _ _ Hm) by assumption;
    cbn [foldl delete_step flight_state result1 result2 flight_out];
    match goal with
    | |- context [deleteRoomMessage_update ?σ' ?s' id ?n'] =>
        rewrite (deleteRoomMessage_update_sender σ' s' id n' (Db.soft_delete _ m))
          by (first [apply lookup_insert_eq | assumption])
    end;
    cbn [foldl delete_step flight_state result1 result2 flight_out messages
         users sockets rooms activeRooms];
    (split; [eexists; split; [|rewrite insert_insert_eq; reflexivity]; tauto|]);
    (split; [intros roomId Hr; unfold deleteRoomMessage_notify; cbn; rewrite Hr;
             eexists _, _; reflexivity
            |intros Hr d Hd; unfold deleteRoomMessage_notify in Hd; cbn in Hd;
             rewrite Hr in Hd; cbn in Hd;
             repeat (apply elem_of_cons in Hd as [->|Hd]; [reflexivity|]);
             apply elem_of_nil in Hd; contradiction]).
Qed.

(** C8, amended.  For every stored message and every pair of delete
    calls by its sender, under every interleaving of the two calls: the
    store ends with the same number of records, the record of the message
    is its soft-deleted form with the text ["[Message deleted]"], stamped by
    one of the two calls, and every other record is untouched; any two
    interleavings end with the same text.  When the message belongs to a
    room the mutation is broadcast to the room by each call, so at least
    once. *)
Theorem delete_twice_converges
    (σ : State) (c1 c2 : Call) (id : string) (m : Message.t) (sched sched' : list Step) :
  messages σ !! id = Some m →
  Message._id m = id →
  Message.sender m = userId (call_socket c1) →
  Message.sender m = userId (call_socket c2) →
  sched ∈ schedules →
  sched' ∈ schedules →
  let f := run_deletes σ c1 c2 id sched in
  let f' := run_deletes σ c1 c2 id sched' in
  (∃ m', messages (flight_state f) !! id = Some m'
         ∧ Message.text m' = "[Message deleted]"
         ∧ Message.isDeleted m' = true
         ∧ (Message.deletedAt m' = Some (call_now c1) ∨ Message.deletedAt m' = Some (call_now c2)))
  ∧ size (messages (flight_state f)) = size (messages σ)
  ∧ (∀ k, k ≠ id → messages (flight_state f) !! k = messages σ !! k)
  ∧ Message.text <$> messages (flight_state f) !! id
    = Message.text <$> messages (flight_state f') !! id
  ∧ (∀ roomId, Message.room m = Some roomId →
       deleted_and_broadcast id f
       ∧ deletions_broadcast id (flight_out f) = 2%nat
       ∧ ∀ d, d ∈ flight_out f → recipients d = members σ roomId).
Proof.
  intros Hm Hid Hs1 Hs2 Hsched Hsched' f f'. subst f f'.
  destruct (run_deletes_sender σ c1 c2 id m sched Hm Hs1 Hs2 Hsched)
    as ((now & Hnow & Hstore) & Hroom & _).
  destruct (run_deletes_sender σ c1 c2 id m sched' Hm Hs1 Hs2 Hsched')
    as ((now' & _ & Hstore') & _ & _).
  rewrite Hstore, Hstore'. rewrite !lookup_insert_eq.
  split.
  { eexists. split; [reflexivity|]. cbn. repeat split.
    destruct Hnow as [-> | ->]; auto. }
  split; [apply map_size_insert_Some; eauto|].
  split; [intros k Hk; apply lookup_insert_ne; congruence|].
  split; [reflexivity|].
  intros roomId Hr. destruct (Hroom roomId Hr) as (n1 & n2 & Hout).
  assert (Hcount : deletions_broadcast id
            (flight_out (run_deletes σ c1 c2 id sched)) = 2%nat).
  { rewrite Hout. unfold deletions_broadcast. rewrite !filter_cons, filter_nil. cbn.
    rewrite Hid. rewrite !bool_decide_eq_true_2 by reflexivity. reflexivity. }
  split; [|split; [exact Hcount|]].
  - split; [|rewrite Hcount; lia].
    rewrite Hstore, lookup_insert_eq. eexists. split; [reflexivity|]. split; reflexivity.
  - intros d Hd. rewrite Hout in Hd.
    repeat (apply elem_of_cons in Hd as [-> | Hd]; [reflexivity|]).
    apply elem_of_nil in Hd. contradiction.
Qed.

End Deletion.

Section DeletionExamples.
Import Server Demo.

(** C8, refuted as stated: alice deletes a direct message of hers twice.
    The record ends soft-deleted, yet neither call broadcasts anything: the
    message has no room, so each call ends in the error reply. *)
Lemma direct_message_deleted_without_broadcast :
  ¬ deleted_and_broadcast "m1" (run_deletes σ1 from_tab1 from_tab2 "m1" one_after_the_other).
Proof.
  intros [_ H]. vm_compute in H. lia.
Qed.

Lemma direct_message_delete_reports_error :
  let res := deleteRoomMessage σ1 alice "m1" 100 in
  messages res.1 !! "m1" = Some (Db.soft_delete 100 direct_hi)
  ∧ res.2 = [mkDelivery {[1%nat]} (messageError "Failed to delete message" None None)].
Proof. split; vm_compute; reflexivity. Qed.

Lemma delete_twice_converges_witness :
  messages σ1 !! "m2" = Some room_hello
  ∧ one_after_the_other ∈ schedules
  ∧ both_updates_first ∈ schedules
  ∧ deleted_and_broadcast "m2" (run_deletes σ1 from_tab1 from_tab2 "m2" both_updates_first)
  ∧ Message.text <$> messages (flight_state
        (run_deletes σ1 from_tab1 from_tab2 "m2" both_updates_first)) !! "m2"
    = Message.text <$> messages (flight_state
        (run_deletes σ1 from_tab1 from_tab2 "m2" one_after_the_other)) !! "m2".
Proof.
  assert (Hm : messages σ1 !! "m2" = Some room_hello) by (vm_compute; reflexivity).
  assert (H1 : one_after_the_other ∈ schedules) by (apply list_elem_of_In; cbn; tauto).
  assert (H2 : both_updates_first ∈ schedules) by (apply list_elem_of_In; cbn; tauto).
  pose proof (delete_twice_converges σ1 from_tab1 from_tab2 "m2" room_hello
                both_updates_first one_after_the_other
                Hm eq_refl eq_refl eq_refl H2 H1) as P.
  cbv zeta in P. destruct P as (_ & _ & _ & Htext & Hroom).
  destruct (Hroom "r1" eq_refl) as (Hdel & _).
  exact (conj Hm (conj H1 (conj H2 (conj Hdel Htext)))).
Defined.

End DeletionExamples.

(** ** Client reconciliation (C6) *)

Section Reconciliation.

Lemma findIndex_Some {A} (p : A → bool) (l : list A) (i : nat) :
  findIndex p l = Some i →
  (i < length l)%nat
  ∧ (∃ x, l !! i = Some x ∧ p x = true)
  ∧ (∀ j y, (j < i)%nat → l !! j = Some y → p y = false).
Proof.
  revert i. induction l as [|x l IH]; intros i H; [discriminate|].
  cbn in H. destruct (p x) eqn:Hp.
  - injection H as <-. split; [cbn; lia|]. split; [eauto|]. intros j y Hj. lia.
  - destruct (findIndex p l) as [i'|] eqn:Hf; [|discriminate].
    injection H as <-. destruct (IH i' eq_refl) as (Hlt & Hx & Hbefore).
    split; [cbn; lia|]. split; [exact Hx|].
    intros [|j] y Hj Hy.
    + injection Hy as <-. exact Hp.
    + apply (Hbefore j y); [lia | exact Hy].
Qed.

Lemma findIndex_None {A} (p : A → bool) (l : list A) :
  findIndex p l = None → ∀ x, x ∈ l → p x = false.
Proof.
  induction l as [|x l IH]; intros H y Hy; [apply elem_of_nil in Hy; contradiction|].
  cbn in H. destruct (p x) eqn:Hp; [discriminate|].
  destruct (findIndex p l) eqn:Hf; [discriminate|].
  apply elem_of_cons in Hy as [-> | Hy]; [exact Hp | exact (IH eq_refl y Hy)].
Qed.

Lemma some_true {A} (p : A → bool) (l : list A) :
  some p l = true ↔ ∃ x, x ∈ l ∧ p x = true.
Proof.
  unfold some. rewrite existsb_exists. split; intros (x & Hx & Hp); exists x;
    (split; [apply list_elem_of_In; exact Hx | exact Hp]).
Qed.

Lemma some_false {A} (p : A → bool) (l : list A) :
  some p l = false ↔ ∀ x, x ∈ l → p x = false.
Proof.
  split.
  - intros H x Hx. destruct (p x) eqn:Hp; [|reflexivity].
    assert (some p l = true) by (apply some_true; eauto). congruence.
  - intros H. destruct (some p l) eqn:Hs; [|reflexivity].
    apply some_true in Hs as (x & Hx & Hp). rewrite (H x Hx) in Hp. discriminate.
Qed.

Lemma private_merge_keeps_one_entry prev message :
  PrivateChat.one_entry_per_clientMsgId prev → PrivateChat.one_entry_per_clientMsgId (PrivateChat.merge prev message).
Proof.
  intros Hone. unfold PrivateChat.merge. cbn zeta.
  destruct (some (PrivateChat.duplicates message) prev) eqn:Hdup; [exact Hone|].
  rewrite some_false in Hdup.
  assert (Hfresh : ∀ k m, prev !! k = Some m → truthy (Wire.clientMsgId m) = true →
            Wire.clientMsgId m ≠ Wire.clientMsgId message).
  { intros k m Hk Ht Heq. pose proof (Hdup m (list_elem_of_lookup_2 _ _ _ Hk)) as Hd.
    unfold PrivateChat.duplicates in Hd. rewrite Ht in Hd. unfold strict_eq in Hd.
    rewrite bool_decide_eq_true_2 in Hd by exact Heq. discriminate. }
  intros i j mi mj Hi Hj Ht Heq.
  destruct (decide (i < length prev)%nat) as [Hil|Hil],
           (decide (j < length prev)%nat) as [Hjl|Hjl].
  - rewrite lookup_app_l in Hi, Hj by assumption. eauto.
  - rewrite lookup_app_l in Hi by assumption. rewrite lookup_app_r in Hj by lia.
    apply list_lookup_singleton_Some in Hj as [_ <-]. exfalso. eapply Hfresh; eauto.
  - rewrite lookup_app_l in Hj by assumption. rewrite lookup_app_r in Hi by lia.
    apply list_lookup_singleton_Some in Hi as [_ <-]. exfalso.
    apply (Hfresh j mj Hj); [rewrite <- Heq; exact Ht | symmetry; exact Heq].
  - rewrite lookup_app_r in Hi, Hj by lia.
    apply list_lookup_singleton_Some in Hi as [Hi _].
    apply list_lookup_singleton_Some in Hj as [Hj _]. lia.
Qed.

(** C6, on the code.  Alice's private chat holds her optimistic entry for
    "hi"; the server saves the message and its copy, carrying the same
    [clientMsgId], arrives on her socket.  The rule of the specification
    replaces the entry by the confirmed copy; [handleNewMessage] finds the
    entry, takes the copy for a duplicate and returns the list as it was,
    so the entry stays temporary under its client-made [_id].  The other
    path of the same send, taken when the socket is not ready, does replace
    the entry by the saved message.  The heuristic of the same predicate
    does not compare the sender: bob's own "hi", half a second later, is
    dropped where the rule appends it.  And the room chat matches by
    [tempId] or [_id] alone: a room send that carries no [tempId] is shown
    twice, as its unconfirmed and as its confirmed copy. *)
Theorem private_chat_keeps_optimistic_entry :
  Server.inbox 1 (Server.sendMessage Demo.σ0 Demo.alice "u2" "hi" (Some "c1") "m1" 1200).2
    = [Server.newMessage Demo.confirmed_hi]
  ∧ PrivateChat.messages (PrivateChat.handleNewMessage Demo.chat_after_send Demo.confirmed_hi)
    = [Demo.optimistic_hi]
  ∧ Wire.isTemp Demo.optimistic_hi = true
  ∧ Wire._id Demo.optimistic_hi = Some "1700000000000"
  ∧ Rule.reconcile Wire.isTemp Wire.clientMsgId 1000
      (PrivateChat.messages Demo.chat_after_send) Demo.confirmed_hi
    = [Demo.confirmed_hi]
  ∧ PrivateChat.messages
      (PrivateChat.handleSendMessage_posted Demo.chat_after_send (Server.users Demo.σ0)
         "c1" "1700000000000"
         (MessageRoutes.post ∅ "u1" (Some "u2") None (Some "hi") (Some "c1") "m1" 1200).2)
    = [Wire.mk (Some "m1") (Populated "u1" "alice" "") None (Populated "u2" "bob" "") None
         "hi" 1200 None (Some "c1") false None false false false]
  ∧ PrivateChat.messages (PrivateChat.handleNewMessage Demo.chat_after_send Demo.hi_from_bob)
    = [Demo.optimistic_hi]
  ∧ Rule.reconcile Wire.isTemp Wire.clientMsgId 1000
      (PrivateChat.messages Demo.chat_after_send) Demo.hi_from_bob
    = [Demo.optimistic_hi; Demo.hi_from_bob]
  ∧ RoomChat.messages
      (RoomChat.receive Demo.room_chat_of_bob
         (Server.inbox 2
            (Server.sendRoomMessage Demo.σ0 Demo.alice "r1" "hi" None "u1" "alice"
               "m1" 10 11).2))
    = [Wire.mk None (RawId "u1") (Some "alice") NullRef (Some "r1") "hi" 10
         None None false None false false false;
       Wire.mk (Some "m1") (Populated "u1" "alice" "") None NullRef (Some "r1") "hi" 11
         None None false None false false false].
Proof. vm_compute. repeat split. Qed.

End Reconciliation.

(** ** Candidates (C3) *)

Section Candidates.
Import GroupVideoCall.

Variable valid_sdp : string → bool.
Variable valid_candidate : string → bool.
Variable createAnswer : string → string.

Local Abbreviation handle := (handleGroupCallSignal valid_sdp valid_candidate createAnswer).

(** A candidate that arrives before the remote description is queued
    behind the ones already waiting. *)
Lemma early_candidate_is_queued st from pc c :
  peerConnections st !! from = Some pc →
  remoteDescription pc = None →
  valid_candidate c = true →
  peerConnections (handle st from (Candidate c)) = peerConnections st
  ∧ pendingCandidates (handle st from (Candidate c)) !! from
    = Some (default [] (pendingCandidates st !! from) ++ [c])%list.
Proof.
  intros Hpc Hrd Hc. unfold handleGroupCallSignal. rewrite Hpc, Hrd, Hc. cbn.
  split; [reflexivity | apply lookup_insert_eq].
Qed.

(** The answer path: the queue is handed to [addIceCandidate] in arrival
    order right after the remote description is set, and emptied. *)
Lemma answer_flushes_in_arrival_order st from pc sdp :
  peerConnections st !! from = Some pc →
  valid_sdp sdp = true →
  ∃ pc', peerConnections (handle st from (Answer sdp)) !! from = Some pc'
         ∧ remoteDescription pc' = Some sdp
         ∧ applied pc' = (applied pc ++ default [] (pendingCandidates st !! from))%list
         ∧ pendingCandidates (handle st from (Answer sdp)) !! from = Some [].
Proof.
  intros Hpc Hsdp. unfold handleGroupCallSignal. rewrite Hpc, Hsdp. cbn.
  eexists. split; [apply lookup_insert_eq|]. cbn.
  split; [reflexivity|]. split; [reflexivity|]. apply lookup_insert_eq.
Qed.

(** The offer path: the remote description is set and the answer sent,
    but the queue is neither applied nor touched. *)
Lemma offer_does_not_flush st from pc sdp :
  peerConnections st !! from = Some pc →
  valid_sdp sdp = true →
  ∃ pc', peerConnections (handle st from (Offer sdp)) !! from = Some pc'
         ∧ remoteDescription pc' = Some sdp
         ∧ applied pc' = applied pc
         ∧ pendingCandidates (handle st from (Offer sdp)) = pendingCandidates st.
Proof.
  intros Hpc Hsdp. unfold handleGroupCallSignal. rewrite Hpc, Hsdp. cbn.
  eexists. split; [apply lookup_insert_eq|]. cbn. repeat split.
Qed.

(** Without a peer connection for the sender the signal is dropped. *)
Lemma signal_without_peer_is_dropped st from signal :
  peerConnections st !! from = None → handle st from signal = st.
Proof. intros Hpc. unfold handleGroupCallSignal. rewrite Hpc. reflexivity. Qed.

End Candidates.

Section CandidatesOnOffer.
Import GroupVideoCall Demo.

(** C3, on the code: alice has accepted bob's call, so a peer connection
    towards bob exists and has no remote description.  Two candidates from
    bob arrive, then his offer, then a third candidate.  The offer sets the
    remote description, yet the two queued candidates are never handed to
    [addIceCandidate]: they stay in the queue, and the third candidate is
    applied ahead of them. *)
Theorem offer_leaves_early_candidates_queued :
  let st := handle_signals browser_accepts browser_accepts answer_to accepted
              [("u2", Candidate "c1"); ("u2", Candidate "c2");
               ("u2", Offer "offer of bob"); ("u2", Candidate "c3")] in
  remoteDescription <$> peerConnections st !! "u2" = Some (Some "offer of bob")
  ∧ applied <$> peerConnections st !! "u2" = Some ["c3"]
  ∧ pendingCandidates st !! "u2" = Some ["c1"; "c2"].
Proof. vm_compute. repeat split. Qed.

(** The same arrivals with an answer in place of the offer are applied in
    arrival order. *)
Lemma answer_applies_early_candidates :
  let st := handle_signals browser_accepts browser_accepts answer_to accepted
              [("u2", Candidate "c1"); ("u2", Candidate "c2");
               ("u2", Answer "answer of bob"); ("u2", Candidate "c3")] in
  applied <$> peerConnections st !! "u2" = Some ["c1"; "c2"; "c3"]
  ∧ pendingCandidates st !! "u2" = Some [].
Proof. vm_compute. repeat split. Qed.

End CandidatesOnOffer.

(** ** Local media (C9) *)

Section LocalMedia.
Import GroupVideoCall Demo.

(** The hang-up button releases the capture: every track of the local
    stream is stopped. *)
Lemma endCall_button_releases st : released (endCall_button st).
Proof.
  unfold released, endCall_button, endCall, stop_tracks. cbn.
  destruct (localStream st) as [stream|]; [|exact I].
  intros t Ht. rewrite elem_of_difference, elem_of_list_to_set. tauto.
Qed.

(** Declining touches no track, and neither does the cleanup of an
    effect whose render saw no stream. *)
Lemma rejectGroupCall_keeps_tracks st : live_tracks (rejectGroupCall st) = live_tracks st.
Proof. unfold rejectGroupCall. destruct (caller st); reflexivity. Qed.

Lemma cleanup_of_first_render_keeps_tracks st :
  effect_localStream st = None → live_tracks (cleanup st) = live_tracks st.
Proof. intros H. unfold cleanup, stop_tracks. cbn. rewrite H. reflexivity. Qed.

(** C9, on the code: alice's component holds a live camera and microphone
    and bob's call is ringing.  Declining emits the rejection and calls
    [onClose] but stops no track, and the effect cleanup that runs when the
    component is then unmounted still sees the [localStream] of the render
    that created it, which is [null]: both tracks stay live.  The same
    holds when bob's rejection or his hang-up arrives and when his offer is
    refused by the browser; only the hang-up button releases them. *)
Theorem decline_leaves_capture_live :
  localStream ringing = Some [1%nat; 2%nat]
  ∧ onClose_called (rejectGroupCall ringing) = true
  ∧ live_tracks (rejectGroupCall ringing) = {[1%nat; 2%nat]}
  ∧ live_tracks (cleanup (rejectGroupCall ringing)) = {[1%nat; 2%nat]}
  ∧ ¬ released (cleanup (rejectGroupCall ringing))
  ∧ ¬ released (cleanup (handleGroupCallRejected accepted))
  ∧ ¬ released (cleanup (handleGroupCallEnded accepted))
  ∧ ¬ released (cleanup (handleGroupCallSignal (λ _, false) browser_accepts answer_to
                           accepted "u2" (Offer "garbled")))
  ∧ released (endCall_button accepted).
Proof.
  assert (Hlive : ∀ st, localStream st = Some [1%nat; 2%nat] →
            live_tracks st = {[1%nat; 2%nat]} → ¬ released st).
  { intros st Hs Hlv Hr. unfold released in Hr. rewrite Hs, Hlv in Hr.
    apply (Hr 1%nat); [left | apply elem_of_union_l, elem_of_singleton; reflexivity]. }
  split; [reflexivity|]. split; [reflexivity|].
  split; [apply leibniz_equiv; vm_compute; set_solver|].
  split; [apply leibniz_equiv; vm_compute; set_solver|].
  repeat split; try (apply Hlive; [reflexivity | apply leibniz_equiv; vm_compute; set_solver]).
  apply endCall_button_releases.
Qed.

End LocalMedia.

(** ** The deployment at work *)

Section Examples.
Import Server Demo.

(** A room send with an empty text fails validation: bob sees the
    unconfirmed copy withdrawn, alice is also told of the failure. *)
Example room_send_withdrawn :
  let r := sendRoomMessage σ0 alice "r1" "" (Some "t1") "u1" "alice" "m1" 10 11 in
  inbox 2 r.2 = [newRoomMessage (immediateMessage "r1" "" (Some "t1") "u1" "alice" 10);
                 removeFailedMessage (Some "t1")]
  ∧ inbox 1 r.2 = [newRoomMessage (immediateMessage "r1" "" (Some "t1") "u1" "alice" 10);
                   messageError "Failed to send room message" None (Some "t1");
                   removeFailedMessage (Some "t1")]
  ∧ messages r.1 = ∅.
Proof. vm_compute. repeat split. Qed.

(** A direct send from alice to bob reaches bob's connection and both of
    alice's tabs, each once. *)
Example direct_send_reaches_both :
  let r := sendMessage σ0 alice "u2" "hi" (Some "c1") "m1" 10 in
  let w := Wire.mk (Some "m1") (Populated "u1" "alice" "") None (Populated "u2" "bob" "")
             None "hi" 10 None (Some "c1") false None true false false in
  inbox 2 r.2 = [newMessage w] ∧ inbox 1 r.2 = [newMessage w] ∧ inbox 3 r.2 = [newMessage w]
  ∧ size (messages r.1) = 1%nat.
Proof. vm_compute. repeat split. Qed.

(** A retry that reuses the correlation id of a stored message is refused,
    and only the sending socket hears of it. *)
Example direct_send_retry_refused :
  let r := sendMessage σ1 alice "u2" "hi again" (Some "c1") "m3" 30 in
  r.1 = σ1
  ∧ inbox 1 r.2 = [messageError "Failed to send message" (Some "c1") None]
  ∧ inbox 2 r.2 = [] ∧ inbox 3 r.2 = [].
Proof. vm_compute. repeat split. Qed.

(** Alice's tab in room "r1" drops: bob is told once, and alice, though
    still connected from her other tab, is no longer active in the room. *)
Example alice_tab_drops :
  let r := disconnect σ0 alice 50 in
  activeRooms r.1 !! "r1" = Some {["u2"]}
  ∧ inbox 2 r.2 = [userOffline "u1"; userLeftRoom "u1" "alice" "r1"]
  ∧ inbox 3 r.2 = [userOffline "u1"].
Proof. vm_compute. repeat split. Qed.

(** Bob cannot delete alice's room message; alice can, and the room is told. *)
Example only_alice_deletes :
  deleteRoomMessage σ1 bob "m2" 60
    = (σ1, [mkDelivery {[2%nat]} (messageError "Failed to delete message" None None)])
  ∧ inbox 2 (deleteRoomMessage σ1 alice "m2" 60).2
    = [roomMessageDeleted (doc_wire (Db.soft_delete 60 room_hello))].
Proof. vm_compute. repeat split. Qed.

End Examples.

(** * Further properties of the server *)

Section Housekeeping.
Import Server.

Lemma adapter_leave_all_lookup (rs : gmap string (gset nat)) (c : nat) (room : string) :
  adapter_leave_all rs c !! room =
  match rs !! room with
  | Some cs => if bool_decide (cs ∖ {[c]} = ∅) then None else Some (cs ∖ {[c]})
  | None => None
  end.
Proof.
  unfold adapter_leave_all. rewrite map_lookup_filter, lookup_fmap.
  destruct (rs !! room) as [cs|]; cbn; [|reflexivity].
  case_bool_decide as He.
  - rewrite option_guard_False by (cbn; tauto). reflexivity.
  - rewrite option_guard_True by exact He. reflexivity.
Qed.

Lemma adapter_leave_lookup (rs : gmap string (gset nat)) (room : string) (c : nat) (room' : string) :
  adapter_leave rs room c !! room' =
  if bool_decide (room = room') then
    match rs !! room with
    | Some cs => if bool_decide (cs ∖ {[c]} = ∅) then None else Some (cs ∖ {[c]})
    | None => None
    end
  else rs !! room'.
Proof.
  unfold adapter_leave. destruct (rs !! room) as [cs|] eqn:Hcs.
  - case_bool_decide as He; case_bool_decide as E; subst.
    + apply lookup_delete_eq.
    + apply lookup_delete_ne. exact E.
    + apply lookup_insert_eq.
    + apply lookup_insert_ne. exact E.
  - case_bool_decide as E; [subst; exact Hcs | reflexivity].
Qed.

Lemma active_remove_lookup_opt (ar : gmap string (gset string)) (room uid room' : string) :
  active_remove ar room uid !! room' =
  if bool_decide (room = room') then
    match ar !! room with
    | Some us => if bool_decide (size (us ∖ {[uid]}) = 0%nat) then None else Some (us ∖ {[uid]})
    | None => None
    end
  else ar !! room'.
Proof.
  unfold active_remove. destruct (ar !! room) as [us|] eqn:Hus.
  - case_bool_decide as He; case_bool_decide as E; subst.
    + apply lookup_delete_eq.
    + apply lookup_delete_ne. exact E.
    + apply lookup_insert_eq.
    + apply lookup_insert_ne. exact E.
  - case_bool_decide as E; [subst; exact Hus | reflexivity].
Qed.

Lemma size_nonzero_nonempty (us : gset string) : size us ≠ 0%nat → us ≠ ∅.
Proof. intros Hs ->. apply Hs. apply size_empty. Qed.

Lemma connect_preserves_tidy verify σ c token σ' s out :
  sockets σ !! c = None →
  connect verify σ c token = (σ', inr s, out) →
  tidy σ → tidy σ'.
Proof.
  intros Hfresh Hconn (Hrooms & Hactive & Hkeys). unfold connect, authenticate in Hconn.
  destruct token as [tok|]; [|discriminate].
  destruct (negb (truthy (Some tok))); [discriminate|].
  destruct (verify tok) as [[uid uname]|]; [|discriminate].
  cbn -[adapter_join] in Hconn. injection Hconn as <- <- <-.
  split; [|split].
  - intros room cs. cbn [rooms sockets socket_id userId]. unfold adapter_join.
    destruct (decide (uid = room)) as [-> | Hne].
    + rewrite lookup_insert_eq. intros [= <-]. split.
      * intros He. assert (c ∈ (∅ : gset nat)) as Hc; [|apply not_elem_of_empty in Hc; exact Hc].
        rewrite <- He. apply elem_of_union_l, elem_of_singleton. reflexivity.
      * intros c' Hc'. apply elem_of_union in Hc' as [Hc' | Hc'].
        -- apply elem_of_singleton in Hc' as ->. rewrite lookup_insert_eq. eauto.
        -- destruct (rooms σ !! room) as [cs0|] eqn:Hcs0; cbn in Hc';
             [|apply not_elem_of_empty in Hc'; contradiction].
           destruct (Hrooms room cs0 Hcs0) as [_ Hconn']. destruct (Hconn' c' Hc') as [s' Hs'].
           exists s'. rewrite lookup_insert_ne; [exact Hs'|]. intros ->. congruence.
    + rewrite lookup_insert_ne by exact Hne. intros Hcs.
      destruct (Hrooms room cs Hcs) as [Hne' Hconn']. split; [exact Hne'|].
      intros c' Hc'. destruct (Hconn' c' Hc') as [s' Hs'].
      exists s'. rewrite lookup_insert_ne; [exact Hs'|]. intros ->. congruence.
  - exact Hactive.
  - intros c' s'. cbn [sockets socket_id]. destruct (decide (c = c')) as [-> | Hne].
    + rewrite lookup_insert_eq. intros [= <-]. reflexivity.
    + rewrite lookup_insert_ne by exact Hne. apply Hkeys.
Qed.

Lemma handle_preserves_tidy σ s req :
  sockets σ !! socket_id s = Some s → tidy σ → tidy (handle σ s req).1.
Proof.
  intros Hs (Hrooms & Hactive & Hkeys).
  destruct req as [receiver text cid oid now | r | r | r text t sd sn oid now sv | mid now].
  - cbn. unfold sendMessage. destruct (Db.save _ _ _ _) as [[ms m]|e];
      exact (conj Hrooms (conj Hactive Hkeys)).
  - split; [|split; [|exact Hkeys]].
    + intros room cs. cbn [handle joinRoom fst rooms sockets]. unfold adapter_join.
      destruct (decide (r = room)) as [-> | Hne].
      * rewrite lookup_insert_eq. intros [= <-]. split.
        -- intros He. assert (socket_id s ∈ (∅ : gset nat)) as Hc;
             [|apply not_elem_of_empty in Hc; exact Hc].
           rewrite <- He. apply elem_of_union_l, elem_of_singleton. reflexivity.
        -- intros c' Hc'. apply elem_of_union in Hc' as [Hc' | Hc'].
           ++ apply elem_of_singleton in Hc' as ->. eauto.
           ++ destruct (rooms σ !! room) as [cs0|] eqn:Hcs0; cbn in Hc';
                [|apply not_elem_of_empty in Hc'; contradiction].
              exact (proj2 (Hrooms room cs0 Hcs0) c' Hc').
      * rewrite lookup_insert_ne by exact Hne. apply Hrooms.
    + intros room us. cbn [handle joinRoom fst activeRooms].
      destruct (decide (r = room)) as [-> | Hne].
      * rewrite lookup_insert_eq. intros [= <-] He.
        assert (userId s ∈ (∅ : gset string)) as Hc; [|apply not_elem_of_empty in Hc; exact Hc].
        rewrite <- He. apply elem_of_union_l, elem_of_singleton. reflexivity.
      * rewrite lookup_insert_ne by exact Hne. apply Hactive.
  - split; [|split; [|exact Hkeys]].
    + intros room cs. cbn [handle leaveRoom fst rooms sockets]. rewrite adapter_leave_lookup.
      case_bool_decide as E; [|apply Hrooms]. subst.
      destruct (rooms σ !! room) as [cs0|] eqn:Hcs0; [|discriminate].
      case_bool_decide as He; [discriminate|]. intros [= <-]. split; [exact He|].
      intros c' Hc'. apply elem_of_difference in Hc' as [Hc' _].
      exact (proj2 (Hrooms room cs0 Hcs0) c' Hc').
    + intros room us. cbn [handle leaveRoom fst activeRooms]. rewrite active_remove_lookup_opt.
      case_bool_decide as E; [|apply Hactive]. subst.
      destruct (activeRooms σ !! room) as [us0|]; [|discriminate].
      case_bool_decide as He; [discriminate|]. intros [= <-].
      apply size_nonzero_nonempty. exact He.
  - cbn. rewrite sendRoomMessage_uninterrupted. cbn zeta.
    destruct (Db.save _ _ _ _) as [[ms m]|e];
      exact (conj Hrooms (conj Hactive Hkeys)).
  - cbn. unfold deleteRoomMessage, deleteRoomMessage_update.
    destruct (Db.findOneAndUpdate _ _ _ _) as [ms r].
    exact (conj Hrooms (conj Hactive Hkeys)).
Qed.

Lemma disconnect_preserves_tidy σ s now :
  sockets σ !! socket_id s = Some s → tidy σ → tidy (disconnect σ s now).1.
Proof.
  intros Hs (Hrooms & Hactive & Hkeys). unfold disconnect.
  set (σ1 := mkState _ _ _ _ _).
  pose proof (λ room, proj1 (leave_all_rooms_spec σ1 s room)) as Hmap.
  destruct (leave_all_rooms σ1 s) as [ar leaves]. cbn [fst snd] in *.
  change (activeRooms σ1) with (activeRooms σ) in Hmap.
  split; [|split].
  - intros room cs. cbn [rooms sockets]. rewrite adapter_leave_all_lookup.
    destruct (rooms σ !! room) as [cs0|] eqn:Hcs0; [|discriminate].
    case_bool_decide as He; [discriminate|]. intros [= <-]. split; [exact He|].
    intros c' Hc'. apply elem_of_difference in Hc' as [Hc' Hne].
    rewrite elem_of_singleton in Hne. rewrite lookup_delete_ne by congruence.
    exact (proj2 (Hrooms room cs0 Hcs0) c' Hc').
  - intros room us. cbn [activeRooms]. rewrite Hmap.
    destruct (activeRooms σ !! room) as [us0|] eqn:Hus0; [|discriminate].
    case_bool_decide as Hin.
    + unfold after_leave. case_bool_decide as He; [discriminate|]. intros [= <-].
      apply size_nonzero_nonempty. exact He.
    + intros [= <-]. exact (Hactive room us0 Hus0).
  - intros c' s'. cbn [sockets]. intros Hc'. apply lookup_delete_Some in Hc' as [_ Hc'].
    exact (Hkeys c' s' Hc').
Qed.

Lemma reachable_tidy verify σ : reachable verify σ → tidy σ.
Proof.
  induction 1 as [us ms | σ σ' _ IH Hstep].
  - split; [|split]; intros ? ?; cbn; rewrite lookup_empty; discriminate.
  - destruct Hstep as [σ c token σ' s out Hfresh Hconn | σ s req Hs | σ s now Hs].
    + exact (connect_preserves_tidy verify σ c token σ' s out Hfresh Hconn IH).
    + exact (handle_preserves_tidy σ s req Hs IH).
    + exact (disconnect_preserves_tidy σ s now Hs IH).
Qed.

(** The disconnection run without interruption is its three pieces in a
    row. *)
Lemma disconnect_in_pieces σ s now :
  disconnect σ s now
  = disconnect_resume (disconnect_update (disconnect_close σ s) s now) s.
Proof. reflexivity. Qed.

(** What a request does to the active sets and to the joined sockets. *)
Lemma handle_active σ s req room u :
  sockets σ !! socket_id s = Some s →
  u ∈ active (handle σ s req).1 room →
  has_joined (handle σ s req).1 room u
  ∨ (u ∈ active σ room ∧ (has_joined σ room u → has_joined (handle σ s req).1 room u)).
Proof.
  intros Hs Hu.
  destruct req as [receiver text cid oid now | r | r | r text t sd sn oid now sv | mid now].
  - right. revert Hu. cbn [handle]. unfold sendMessage.
    destruct (Db.save _ _ _ _) as [[ms m]|e]; intros Hu; (split; [exact Hu|tauto]).
  - unfold active in Hu. cbn [handle joinRoom fst activeRooms] in Hu.
    assert (Hkeep : ∀ s', socket_id s' ∈ members σ room →
              socket_id s' ∈ members (handle σ s (JoinRoom r)).1 room).
    { intros s' Hm. unfold members. cbn [handle joinRoom fst rooms].
      rewrite members_adapter_join. case_bool_decide as E; [|exact Hm].
      subst. apply elem_of_union_r. exact Hm. }
    destruct (decide (r = room)) as [-> | Hne].
    + rewrite lookup_insert_eq in Hu. cbn in Hu. apply elem_of_union in Hu as [Hu | Hu].
      * apply elem_of_singleton in Hu as ->. left. exists s.
        split; [exact Hs|]. split; [reflexivity|].
        unfold members. cbn [handle joinRoom fst rooms]. rewrite members_adapter_join.
        rewrite bool_decide_eq_true_2 by reflexivity.
        apply elem_of_union_l, elem_of_singleton. reflexivity.
      * right. split; [exact Hu|]. intros (s' & Hs' & Hu' & Hm). exists s'.
        split; [exact Hs'|]. split; [exact Hu'|]. apply Hkeep, Hm.
    + rewrite lookup_insert_ne in Hu by exact Hne. right. split; [exact Hu|].
      intros (s' & Hs' & Hu' & Hm). exists s'.
      split; [exact Hs'|]. split; [exact Hu'|]. apply Hkeep, Hm.
  - right. unfold active in Hu. cbn [handle leaveRoom fst activeRooms] in Hu.
    rewrite active_remove_lookup in Hu. case_bool_decide as E.
    + subst. apply elem_of_difference in Hu as [Hu Hne]. split; [exact Hu|].
      intros (s' & Hs' & Hu' & Hm). exists s'.
      split; [exact Hs'|]. split; [exact Hu'|].
      unfold members. cbn [handle leaveRoom fst rooms]. rewrite members_adapter_leave.
      rewrite bool_decide_eq_true_2 by reflexivity.
      apply elem_of_difference. split; [exact Hm|].
      rewrite elem_of_singleton. apply (other_user_other_socket σ s s' Hs Hs').
      rewrite Hu'. intros ->. apply Hne. apply elem_of_singleton. reflexivity.
    + split; [exact Hu|]. intros (s' & Hs' & Hu' & Hm). exists s'.
      split; [exact Hs'|]. split; [exact Hu'|].
      unfold members. cbn [handle leaveRoom fst rooms]. rewrite members_adapter_leave.
      rewrite bool_decide_eq_false_2 by exact E. exact Hm.
  - right. revert Hu. cbn [handle]. rewrite sendRoomMessage_uninterrupted. cbn zeta.
    destruct (Db.save _ _ _ _) as [[ms m]|e]; intros Hu; (split; [exact Hu|tauto]).
  - right. revert Hu. cbn [handle]. unfold deleteRoomMessage, deleteRoomMessage_update.
    destruct (Db.findOneAndUpdate _ _ _ _) as [ms r]. intros Hu. split; [exact Hu|tauto].
Qed.

(** The write of a request leaves the maps of the process as they are. *)
Lemma write_keeps_maps σ s req :
  is_write req = true →
  sockets (handle σ s req).1 = sockets σ
  ∧ rooms (handle σ s req).1 = rooms σ
  ∧ activeRooms (handle σ s req).1 = activeRooms σ.
Proof.
  destruct req as [receiver text cid oid now | r | r | r text t sd sn oid now sv | mid now];
    intros Hw; try discriminate Hw; cbn [handle].
  - unfold sendMessage. destruct (Db.save _ _ _ _) as [[ms m]|e]; repeat split.
  - rewrite sendRoomMessage_uninterrupted. cbn zeta.
    destruct (Db.save _ _ _ _) as [[ms m]|e]; repeat split.
  - unfold deleteRoomMessage, deleteRoomMessage_update.
    destruct (Db.findOneAndUpdate _ _ _ _) as [ms r]. repeat split.
Qed.

Lemma has_joined_same_maps σ σ' room u :
  sockets σ' = sockets σ → rooms σ' = rooms σ →
  has_joined σ room u → has_joined σ' room u.
Proof.
  intros Hs Hr (s & H1 & H2 & H3). exists s. unfold members in *. rewrite Hs, Hr. tauto.
Qed.

(** The invariant of a process: who is active in a room has a socket
    joined to it, or a disconnection in flight. *)
Lemma runs_active verify P :
  runs verify P →
  ∀ room u, u ∈ active (state P) room → has_joined (state P) room u ∨ is_closing P u.
Proof.
  induction 1 as [us ms | P P' _ IH Hstep].
  - intros room u Hu. unfold active in Hu. cbn in Hu. rewrite lookup_empty in Hu.
    cbn in Hu. apply not_elem_of_empty in Hu. contradiction.
  - destruct Hstep as [σ p c token σ' r Hauth | σ p s Hfresh | σ p s req Hs | σ p s req Hw
                      | σ p s now Hs | σ p1 p2 s now | σ p1 p2 s];
      cbn [state closing] in *; intros room u Hu.
    + assert (Hmaps : sockets σ' = sockets σ ∧ rooms σ' = rooms σ
                      ∧ activeRooms σ' = activeRooms σ).
      { unfold authenticate in Hauth. destruct token as [tok|];
          [|injection Hauth as <- _; repeat split].
        destruct (negb (truthy (Some tok))); [injection Hauth as <- _; repeat split|].
        destruct (verify tok) as [[uid uname]|]; injection Hauth as <- _; repeat split. }
      destruct Hmaps as (Hso & Hro & Har). unfold active in Hu. rewrite Har in Hu.
      destruct (IH room u Hu) as [Hj | Hcl]; [left|right; exact Hcl].
      exact (has_joined_same_maps σ _ room u Hso Hro Hj).
    + destruct (IH room u Hu) as [(s' & Hs' & Hu' & Hm) | Hcl]; [left|right; exact Hcl].
      exists s'.
      assert (socket_id s' ≠ socket_id s) as Hid
        by (intros E; rewrite E, Hfresh in Hs'; discriminate).
      split; [cbn [connection fst sockets]; rewrite lookup_insert_ne by congruence; exact Hs'|].
      split; [exact Hu'|]. apply stays_joined_connection. exact Hm.
    + destruct (handle_active σ s req room u Hs Hu) as [Hj | [Hbefore Hkeep]];
        [left; exact Hj|].
      destruct (IH room u Hbefore) as [Hj | Hcl]; [left; exact (Hkeep Hj) | right; exact Hcl].
    + destruct (write_keeps_maps σ s req Hw) as (Hso & Hro & Har).
      unfold active in Hu. rewrite Har in Hu.
      destruct (IH room u Hu) as [Hj | Hcl]; [left|right; exact Hcl].
      exact (has_joined_same_maps σ _ room u Hso Hro Hj).
    + destruct (IH room u Hu) as [(s' & Hs' & Hu' & Hm) | (s' & t & Hin & Hu')].
      * destruct (decide (socket_id s' = socket_id s)) as [E | Hne].
        -- right. exists s, (Some now). split; [apply elem_of_app; right; left|].
           rewrite E, Hs in Hs'. injection Hs' as ->. exact Hu'.
        -- left. exists s'.
           split; [cbn [disconnect_close sockets];
                   rewrite lookup_delete_ne by congruence; exact Hs'|].
           split; [exact Hu'|].
           unfold members. cbn [disconnect_close rooms]. rewrite members_adapter_leave_all.
           apply elem_of_difference. split; [exact Hm|]. rewrite elem_of_singleton. exact Hne.
      * right. exists s', t. split; [apply elem_of_app; left; exact Hin | exact Hu'].
    + destruct (IH room u Hu) as [Hj | (s' & t & Hin & Hu')].
      * left. exact (has_joined_same_maps σ _ room u eq_refl eq_refl Hj).
      * right. apply elem_of_app in Hin as [Hin | Hin].
        -- exists s', t. split; [apply elem_of_app; left; exact Hin | exact Hu'].
        -- apply elem_of_cons in Hin as [[= -> ->] | Hin].
           ++ exists s, None. split; [apply elem_of_app; right; left | exact Hu'].
           ++ exists s', t. split; [apply elem_of_app; right; right; exact Hin | exact Hu'].
    + pose proof (leave_all_rooms_active σ s room) as Hactive.
      unfold disconnect_resume in Hu |- *.
      destruct (leave_all_rooms σ s) as [ar leaves]. cbn [fst] in *.
      unfold active in Hu. cbn [activeRooms] in Hu. rewrite Hactive in Hu.
      apply elem_of_difference in Hu as [Hu Hne]. rewrite elem_of_singleton in Hne.
      destruct (IH room u Hu) as [Hj | (s' & t & Hin & Hu')].
      * left. exact (has_joined_same_maps σ _ room u eq_refl eq_refl Hj).
      * right. exists s', t. split; [|exact Hu'].
        apply elem_of_app in Hin as [Hin | Hin]; [apply elem_of_app; left; exact Hin|].
        apply elem_of_cons in Hin as [[= -> ->] | Hin]; [contradiction Hne; congruence|].
        apply elem_of_app. right. exact Hin.
Qed.

(** A run of the coarse steps is a run of the process with nothing in
    flight at its end. *)
Lemma reachable_runs verify σ : reachable verify σ → runs verify (mkProcess σ []).
Proof.
  induction 1 as [us ms | σ σ' _ IH Hstep]; [apply runs_start|].
  destruct Hstep as [σ c token σ' s out Hfresh Hconn | σ s req Hs | σ s now Hs].
  - unfold connect in Hconn.
    destruct (authenticate verify σ c token) as [σ1 [e|s1]] eqn:Hauth; [discriminate|].
    pose proof (runs_event _ _ _ IH (on_handshake verify σ [] c token σ1 (inr s1) Hauth)) as H1.
    assert (Hs1 : sockets σ1 !! socket_id s1 = None).
    { unfold authenticate in Hauth. destruct token as [tok|]; [|discriminate].
      destruct (negb (truthy (Some tok))); [discriminate|].
      destruct (verify tok) as [[uid uname]|]; [|discriminate].
      injection Hauth as <- <-. exact Hfresh. }
    pose proof (runs_event _ _ _ H1 (on_connection verify σ1 [] s1 Hs1)) as H2.
    destruct (connection σ1 s1) as [σ2 out2] eqn:Hc. injection Hconn as <- _ _. exact H2.
  - exact (runs_event _ _ _ IH (on_request verify σ [] s req Hs)).
  - rewrite disconnect_in_pieces.
    pose proof (runs_event _ _ _ IH (on_close verify σ [] s now Hs)) as H1.
    pose proof (runs_event _ _ _ H1
                  (on_update verify (disconnect_close σ s) [] [] s now)) as H2.
    exact (runs_event _ _ _ H2
             (on_resume verify (disconnect_update (disconnect_close σ s) s now) [] [] s)).
Qed.

(** X1.  In every state the server goes through, those between the closing
    of a socket and the resumption of its [disconnect] handler included, an
    identity listed as active in a room has a connected socket of its own
    joined to the room, which receives whatever is emitted to the room, or
    a socket of that identity has closed and its [disconnect] handler has
    not resumed yet.  With no disconnection in flight every active identity
    has such a socket. *)
Theorem active_identity_is_reached verify (P : Process) (room u : string) (ev : Event) :
  runs verify P →
  u ∈ active (state P) room →
  ((∃ s, sockets (state P) !! socket_id s = Some s
         ∧ userId s = u
         ∧ socket_id s ∈ members (state P) room
         ∧ inbox (socket_id s) [io_to (state P) room ev] = [ev])
   ∨ (∃ s t, (s, t) ∈ closing P ∧ userId s = u))
  ∧ (closing P = [] →
     ∃ s, sockets (state P) !! socket_id s = Some s
          ∧ userId s = u
          ∧ socket_id s ∈ members (state P) room
          ∧ inbox (socket_id s) [io_to (state P) room ev] = [ev]).
Proof.
  intros Hruns Hu.
  assert (Hgets : has_joined (state P) room u →
            ∃ s, sockets (state P) !! socket_id s = Some s
                 ∧ userId s = u
                 ∧ socket_id s ∈ members (state P) room
                 ∧ inbox (socket_id s) [io_to (state P) room ev] = [ev]).
  { intros (s & Hs & Hus & Hm). exists s. repeat split; try assumption.
    rewrite (inbox_io_to_member _ _ _ _ _ Hm). reflexivity. }
  destruct (runs_active verify P Hruns room u Hu) as [Hj | Hcl].
  - split; [left; exact (Hgets Hj) | intros _; exact (Hgets Hj)].
  - split; [right; exact Hcl|]. intros Hnone. destruct Hcl as (s & t & Hin & _).
    rewrite Hnone in Hin. apply elem_of_nil in Hin. contradiction.
Qed.

Lemma active_identity_is_reached_witness :
  runs Demo.tokens (mkProcess (disconnect_close Demo.both_joined Demo.bob) [(Demo.bob, Some 50)])
  ∧ "u2" ∈ active (disconnect_close Demo.both_joined Demo.bob) "r1"
  ∧ ¬ has_joined (disconnect_close Demo.both_joined Demo.bob) "r1" "u2"
  ∧ ∃ s t, (s, t) ∈ [(Demo.bob, Some 50)] ∧ userId s = "u2".
Proof.
  assert (Hruns : runs Demo.tokens
            (mkProcess (disconnect_close Demo.both_joined Demo.bob) [(Demo.bob, Some 50)])).
  { apply (runs_event _ (mkProcess Demo.both_joined [])).
    - exact (reachable_runs _ _ demo_run_reachable).
    - apply (on_close Demo.tokens Demo.both_joined [] Demo.bob 50). reflexivity. }
  assert (Hu : "u2" ∈ active (disconnect_close Demo.both_joined Demo.bob) "r1")
    by (refine (bool_decide_unpack _ _); vm_compute; exact I).
  assert (Hnone : ¬ has_joined (disconnect_close Demo.both_joined Demo.bob) "r1" "u2").
  { intros (s & Hs & Hus & Hm).
    assert (Hr : members (disconnect_close Demo.both_joined Demo.bob) "r1" = {[1%nat]})
      by (apply leibniz_equiv; vm_compute; set_solver).
    rewrite Hr in Hm. apply elem_of_singleton in Hm. rewrite Hm in Hs.
    vm_compute in Hs. injection Hs as <-. discriminate Hus. }
  split; [exact Hruns|]. split; [exact Hu|]. split; [exact Hnone|].
  destruct (proj1 (active_identity_is_reached Demo.tokens _ "r1" "u2" (userOnline "u2")
                     Hruns Hu)) as [(s & H1 & H2 & H3 & _) | Hcl].
  - contradiction Hnone. exists s. exact (conj H1 (conj H2 H3)).
  - exact Hcl.
Defined.

(** X2.  In every state the server reaches, the in-memory maps hold no
    garbage: no entry of [activeRooms] is an empty set, no adapter room is
    empty, and every socket joined to a room is a connected socket stored
    under its own number. *)
Theorem maps_hold_no_garbage verify (σ : State) :
  reachable verify σ →
  (∀ room, activeRooms σ !! room ≠ Some ∅)
  ∧ (∀ room, rooms σ !! room ≠ Some ∅)
  ∧ (∀ room c, c ∈ members σ room → ∃ s, sockets σ !! c = Some s ∧ socket_id s = c).
Proof.
  intros Hreach. destruct (reachable_tidy verify σ Hreach) as (Hrooms & Hactive & Hkeys).
  split; [|split].
  - intros room H. exact (Hactive room ∅ H eq_refl).
  - intros room H. exact (proj1 (Hrooms room ∅ H) eq_refl).
  - intros room c Hc. unfold members in Hc.
    destruct (rooms σ !! room) as [cs|] eqn:Hcs; cbn in Hc;
      [|apply not_elem_of_empty in Hc; contradiction].
    destruct (proj2 (Hrooms room cs Hcs) c Hc) as [s Hs].
    exists s. split; [exact Hs | exact (Hkeys c s Hs)].
Qed.

Lemma maps_hold_no_garbage_witness :
  reachable Demo.tokens Demo.both_joined
  ∧ activeRooms Demo.both_joined !! "r1" ≠ Some ∅.
Proof.
  split; [exact demo_run_reachable|].
  exact (proj1 (maps_hold_no_garbage Demo.tokens Demo.both_joined demo_run_reachable) "r1").
Defined.

Lemma difference_union_singleton `{Countable A} (x : A) (X : gset A) :
  x ∉ X → ({[x]} ∪ X) ∖ {[x]} = X.
Proof.
  intros Hx. apply leibniz_equiv. intros y.
  rewrite elem_of_difference, elem_of_union, elem_of_singleton. split.
  - intros [[-> | Hy] Hne]; [contradiction | exact Hy].
  - intros Hy. split; [right; exact Hy | intros ->; contradiction].
Qed.

Lemma default_empty_inv `{Countable A} (o : option (gset A)) :
  o ≠ Some ∅ → default ∅ o = ∅ → o = None.
Proof. destruct o as [X|]; cbn; [intros Hne ->; contradiction | reflexivity]. Qed.

Lemma default_nonempty_inv `{Countable A} (o : option (gset A)) :
  default ∅ o ≠ ∅ → o = Some (default ∅ o).
Proof. destruct o as [X|]; cbn; [reflexivity | contradiction]. Qed.

(** X3.  Joining and at once leaving a room the socket was not in, and its
    identity not active in, gives back the server state as it was: the
    adapter room and the active set are restored, and a room that did not
    exist is removed again. *)
Theorem join_then_leave_restores (σ : State) (s : Socket) (room : string) :
  rooms σ !! room ≠ Some ∅ →
  activeRooms σ !! room ≠ Some ∅ →
  socket_id s ∉ members σ room →
  userId s ∉ active σ room →
  (leaveRoom (joinRoom σ s room).1 s room).1 = σ.
Proof.
  intros Hr Ha Hs Hu. unfold members in Hs. unfold active in Hu.
  destruct σ as [us ms ss rs ar]. cbn [rooms activeRooms] in *.
  unfold leaveRoom, joinRoom. cbn [fst users messages sockets rooms activeRooms]. f_equal.
  - unfold adapter_leave, adapter_join. rewrite lookup_insert_eq. cbn zeta.
    rewrite (difference_union_singleton _ _ Hs).
    case_bool_decide as He.
    + apply delete_insert_id. apply (default_empty_inv _ Hr He).
    + rewrite insert_insert_eq. apply insert_id. apply default_nonempty_inv. exact He.
  - unfold active_remove. rewrite lookup_insert_eq. cbn zeta.
    rewrite (difference_union_singleton _ _ Hu).
    case_bool_decide as He.
    + apply delete_insert_id. apply (default_empty_inv _ Ha).
      apply leibniz_equiv, size_empty_inv. exact He.
    + rewrite insert_insert_eq. apply insert_id. apply default_nonempty_inv.
      intros He'. apply He. rewrite He'. apply size_empty.
Qed.

Lemma join_then_leave_restores_witness :
  rooms Demo.σ0 !! "r2" ≠ Some ∅
  ∧ (leaveRoom (joinRoom Demo.σ0 Demo.bob "r2").1 Demo.bob "r2").1 = Demo.σ0.
Proof.
  assert (H1 : rooms Demo.σ0 !! "r2" ≠ Some ∅) by (vm_compute; discriminate).
  assert (H2 : activeRooms Demo.σ0 !! "r2" ≠ Some ∅) by (vm_compute; discriminate).
  assert (H3 : socket_id Demo.bob ∉ members Demo.σ0 "r2")
    by (refine (bool_decide_unpack _ _); vm_compute; exact I).
  assert (H4 : userId Demo.bob ∉ active Demo.σ0 "r2")
    by (refine (bool_decide_unpack _ _); vm_compute; exact I).
  exact (conj H1 (join_then_leave_restores Demo.σ0 Demo.bob "r2" H1 H2 H3 H4)).
Defined.

(** X4.  The active set is kept per identity, the adapter room per socket:
    when one of two sockets of an identity leaves a room, the identity is
    no longer active in it, while the other socket stays joined, is the one
    told that its own user left, and goes on receiving what is sent to the
    room. *)
Theorem leave_in_one_tab_drops_identity (σ : State) (s s' : Socket) (room : string) (ev : Event) :
  userId s' = userId s →
  socket_id s' ≠ socket_id s →
  socket_id s' ∈ members σ room →
  let r := leaveRoom σ s room in
  (userId s' ∉ active r.1 room)
  ∧ socket_id s' ∈ members r.1 room
  ∧ inbox (socket_id s') r.2 = [userLeftRoom (userId s') (username s) room]
  ∧ inbox (socket_id s') [io_to r.1 room ev] = [ev].
Proof.
  intros Hu Hne Hm r. subst r.
  assert (Hm' : socket_id s' ∈ members (leaveRoom σ s room).1 room).
  { unfold members. cbn [leaveRoom fst rooms]. rewrite members_adapter_leave.
    rewrite bool_decide_eq_true_2 by reflexivity.
    apply elem_of_difference. split; [exact Hm|]. rewrite elem_of_singleton. exact Hne. }
  split; [|split; [exact Hm'|split]].
  - unfold active. cbn [leaveRoom fst activeRooms]. rewrite active_remove_lookup.
    rewrite bool_decide_eq_true_2 by reflexivity. rewrite Hu.
    rewrite elem_of_difference, elem_of_singleton. tauto.
  - unfold leaveRoom at 1. cbn [snd]. rewrite Hu.
    rewrite (inbox_io_to_member _ _ _ _ _ Hm'). reflexivity.
  - rewrite (inbox_io_to_member _ _ _ _ _ Hm'). reflexivity.
Qed.

Lemma leave_in_one_tab_drops_identity_witness :
  socket_id Demo.alice ∈ members (joinRoom Demo.σ0 Demo.alice_tab "r1").1 "r1"
  ∧ (userId Demo.alice
       ∉ active (leaveRoom (joinRoom Demo.σ0 Demo.alice_tab "r1").1 Demo.alice_tab "r1").1 "r1")
  ∧ socket_id Demo.alice
      ∈ members (leaveRoom (joinRoom Demo.σ0 Demo.alice_tab "r1").1 Demo.alice_tab "r1").1 "r1".
Proof.
  assert (Hm : socket_id Demo.alice ∈ members (joinRoom Demo.σ0 Demo.alice_tab "r1").1 "r1")
    by (refine (bool_decide_unpack _ _); vm_compute; exact I).
  assert (Hne : socket_id Demo.alice ≠ socket_id Demo.alice_tab) by (cbn; lia).
  destruct (leave_in_one_tab_drops_identity (joinRoom Demo.σ0 Demo.alice_tab "r1").1
              Demo.alice_tab Demo.alice "r1" (userOnline "u1") eq_refl Hne Hm)
    as (H1 & H2 & _).
  exact (conj Hm (conj H1 H2)).
Defined.

Lemma adapter_join_then_leave_all (rs : gmap string (gset nat)) (room : string) (c : nat) :
  (∀ r cs, rs !! r = Some cs → cs ≠ ∅ ∧ c ∉ cs) →
  adapter_leave_all (adapter_join rs room c) c = rs.
Proof.
  intros Hrs. apply map_eq. intros r. rewrite adapter_leave_all_lookup. unfold adapter_join.
  destruct (decide (room = r)) as [-> | Hne].
  - rewrite lookup_insert_eq. destruct (rs !! r) as [cs|] eqn:Hcs; cbn.
    + destruct (Hrs r cs Hcs) as [Hne Hc]. rewrite (difference_union_singleton _ _ Hc).
      rewrite bool_decide_eq_false_2 by exact Hne. reflexivity.
    + rewrite (difference_union_singleton c ∅) by apply not_elem_of_empty.
      rewrite bool_decide_eq_true_2 by reflexivity. reflexivity.
  - rewrite lookup_insert_ne by exact Hne. destruct (rs !! r) as [cs|] eqn:Hcs; [|reflexivity].
    destruct (Hrs r cs Hcs) as [Hne' Hc].
    assert (cs ∖ {[c]} = cs) as ->.
    { apply leibniz_equiv. intros y. rewrite elem_of_difference, elem_of_singleton.
      split; [tauto|]. intros Hy. split; [exact Hy | intros ->; contradiction]. }
    rewrite bool_decide_eq_false_2 by exact Hne'. reflexivity.
Qed.

(** X5.  A connection that authenticates and closes without having joined
    anything leaves the sockets map, the adapter rooms and the messages as
    they were.  It is not without effect, though: its identity is stored as
    offline with [lastSeen] the time of the close, and is removed from the
    active set of every room, whatever other connections of the same
    identity are doing. *)
Theorem connect_then_disconnect verify (σ σ1 : State) (c : nat) (token : option string)
    (s : Socket) (out : list Delivery) (now : Z) :
  tidy σ →
  sockets σ !! c = None →
  connect verify σ c token = (σ1, inr s, out) →
  let σ2 := (disconnect σ1 s now).1 in
  sockets σ2 = sockets σ
  ∧ rooms σ2 = rooms σ
  ∧ messages σ2 = messages σ
  ∧ (∀ room, active σ2 room = active σ room ∖ {[userId s]})
  ∧ users σ2 !! userId s = went_offline now <$> users σ !! userId s.
Proof.
  intros (Hrooms & _ & _) Hfresh Hconn σ2. subst σ2.
  unfold connect, authenticate in Hconn.
  destruct token as [tok|]; [|discriminate].
  destruct (negb (truthy (Some tok))); [discriminate|].
  destruct (verify tok) as [[uid uname]|]; [|discriminate].
  cbn -[adapter_join] in Hconn. injection Hconn as <- <- <-.
  split; [|split; [|split; [|split]]].
  - rewrite disconnect_sockets. cbn [sockets socket_id]. apply delete_insert_id. exact Hfresh.
  - unfold disconnect. destruct (leave_all_rooms _ _). cbn [fst rooms socket_id userId].
    apply adapter_join_then_leave_all. intros r cs Hcs.
    destruct (Hrooms r cs Hcs) as [Hne Hconn']. split; [exact Hne|].
    intros Hc. destruct (Hconn' c Hc) as [s' Hs']. congruence.
  - unfold disconnect. destruct (leave_all_rooms _ _). reflexivity.
  - intros room. unfold disconnect.
    set (σa := mkState _ _ (delete _ _) _ _).
    set (σb := mkState (Db.set_presence _ _ _ _) _ _ _ _).
    pose proof (leave_all_rooms_active σb (mkSocket c uid uname) room) as Hact.
    destruct (leave_all_rooms σb _) as [ar leaves]. cbn [fst] in *.
    unfold active at 1. cbn [activeRooms]. rewrite Hact. reflexivity.
  - rewrite disconnect_users. cbn [users userId].
    rewrite !set_presence_lookup, !bool_decide_eq_true_2 by reflexivity.
    destruct (users σ !! uid); reflexivity.
Qed.

Lemma connect_then_disconnect_witness :
  sockets Demo.both_joined !! 3%nat = None
  ∧ sockets (disconnect (connect Demo.tokens Demo.both_joined 3 (Some "token of alice")).1.1
               Demo.alice_tab 70).1 = sockets Demo.both_joined
  ∧ active (disconnect (connect Demo.tokens Demo.both_joined 3 (Some "token of alice")).1.1
              Demo.alice_tab 70).1 "r1"
    = active Demo.both_joined "r1" ∖ {["u1"]}.
Proof.
  assert (Hfresh : sockets Demo.both_joined !! 3%nat = None) by (vm_compute; reflexivity).
  assert (Hconn : connect Demo.tokens Demo.both_joined 3 (Some "token of alice")
                  = ((connect Demo.tokens Demo.both_joined 3 (Some "token of alice")).1.1,
                     inr Demo.alice_tab,
                     (connect Demo.tokens Demo.both_joined 3 (Some "token of alice")).2))
    by (vm_compute; reflexivity).
  destruct (connect_then_disconnect Demo.tokens Demo.both_joined _ 3%nat _ _ _ 70
              (reachable_tidy _ _ demo_run_reachable) Hfresh Hconn) as (H1 & _ & _ & H4 & _).
  exact (conj Hfresh (conj H1 (H4 "r1"))).
Defined.

(** X6.  [joinRoom] admits any connected socket to any room name, and the
    personal rooms live under the same names as the chat rooms: a socket
    that has joined the room named after another user's id receives the
    direct messages sent to that user from then on. *)
Theorem joinRoom_admits_anyone (σ : State) (eve s : Socket) (victim text : string)
    (clientMsgId : option string) (oid : string) (now : Z)
    (ms : gmap string Message.t) (saved : Message.t) :
  let σ1 := (joinRoom σ eve victim).1 in
  Db.save (messages σ1) oid now (Db.mkDoc (userId s) (Some victim) None text clientMsgId)
    = Ok (ms, saved) →
  socket_id eve ∈ members σ1 victim
  ∧ newMessage (messageToEmit (users σ1) saved clientMsgId)
      ∈ inbox (socket_id eve) (sendMessage σ1 s victim text clientMsgId oid now).2.
Proof.
  intros σ1 Hsave.
  assert (Hm : socket_id eve ∈ members σ1 victim).
  { unfold members. subst σ1. cbn [joinRoom fst rooms]. rewrite members_adapter_join.
    rewrite bool_decide_eq_true_2 by reflexivity.
    apply elem_of_union_l, elem_of_singleton. reflexivity. }
  split; [exact Hm|].
  unfold sendMessage. rewrite Hsave. cbn [snd].
  assert (Hm' : socket_id eve ∈
            members (mkState (users σ1) ms (sockets σ1) (rooms σ1) (activeRooms σ1)) victim)
    by exact Hm.
  rewrite (inbox_io_to_member _ _ _ _ _ Hm'). left.
Qed.

Lemma joinRoom_admits_anyone_witness :
  newMessage (Wire.mk (Some "m1") (Populated "u1" "alice" "") None (Populated "u2" "bob" "")
                None "for bob only" 10 None (Some "c1") false None true false false)
    ∈ inbox 4 (sendMessage (joinRoom Demo.σ0 (mkSocket 4 "u3" "eve") "u2").1 Demo.alice "u2"
                 "for bob only" (Some "c1") "m1" 10).2.
Proof.
  pose proof (joinRoom_admits_anyone Demo.σ0 (mkSocket 4 "u3" "eve") Demo.alice "u2"
                "for bob only" (Some "c1") "m1" 10
                {[ "m1" := Message.mk "m1" "u1" (Some "u2") None "for bob only" (Some "c1")
                              false None 10 10 ]}
                (Message.mk "m1" "u1" (Some "u2") None "for bob only" (Some "c1")
                   false None 10 10)) as P.
  cbv zeta in P. destruct (P ltac:(vm_compute; reflexivity)) as [_ H]. exact H.
Defined.

(** X7.  No request over the socket removes a stored message or rewrites
    who sent it, to whom or where, its correlation id or its creation time:
    after any request a stored message is either untouched or replaced by
    its soft-deleted form.  Connecting and disconnecting do not touch the
    collection at all. *)
Theorem requests_never_remove_messages (σ : State) (s : Socket) (req : Request)
    (k : string) (m : Message.t) (now : Z) :
  messages σ !! k = Some m →
  (∃ m', messages (handle σ s req).1 !! k = Some m'
         ∧ (m' = m ∨ ∃ at_, m' = Db.soft_delete at_ m)
         ∧ Message._id m' = Message._id m
         ∧ Message.sender m' = Message.sender m
         ∧ Message.receiver m' = Message.receiver m
         ∧ Message.room m' = Message.room m
         ∧ Message.clientMsgId m' = Message.clientMsgId m
         ∧ Message.createdAt m' = Message.createdAt m)
  ∧ messages (disconnect σ s now).1 = messages σ.
Proof.
  intros Hk. split.
  - assert (Hsame : ∀ ms' : gmap string Message.t, ms' !! k = Some m →
              ∃ m', ms' !! k = Some m'
                    ∧ (m' = m ∨ ∃ at_, m' = Db.soft_delete at_ m)
                    ∧ Message._id m' = Message._id m
                    ∧ Message.sender m' = Message.sender m
                    ∧ Message.receiver m' = Message.receiver m
                    ∧ Message.room m' = Message.room m
                    ∧ Message.clientMsgId m' = Message.clientMsgId m
                    ∧ Message.createdAt m' = Message.createdAt m).
    { intros ms' H. exists m. split; [exact H|]. split; [left; reflexivity|]. repeat split. }
    assert (Hsaved : ∀ ms oid at_ d ms' m0,
              ms !! k = Some m → Db.save ms oid at_ d = Ok (ms', m0) → ms' !! k = Some m).
    { intros ms oid at_ d ms' m0 H Hsave.
      apply save_Ok_inv in Hsave as (_ & -> & Hfresh & _).
      rewrite lookup_insert_ne; [exact H|]. intros ->. congruence. }
    destruct req as [receiver text cid oid at_ | r | r | r text t sd sn oid at_ sv | mid at_];
      cbn [handle].
    + unfold sendMessage. destruct (Db.save _ _ _ _) as [[ms' m0]|e] eqn:Hsave;
        cbn [fst messages]; apply Hsame; [exact (Hsaved _ _ _ _ _ _ Hk Hsave) | exact Hk].
    + cbn [joinRoom fst messages]. apply Hsame. exact Hk.
    + cbn [leaveRoom fst messages]. apply Hsame. exact Hk.
    + rewrite sendRoomMessage_uninterrupted. cbn zeta.
      destruct (Db.save _ _ _ _) as [[ms' m0]|e] eqn:Hsave;
        cbn [fst messages]; apply Hsame; [exact (Hsaved _ _ _ _ _ _ Hk Hsave) | exact Hk].
    + unfold deleteRoomMessage, deleteRoomMessage_update, Db.findOneAndUpdate.
      destruct (messages σ !! mid) as [m0|] eqn:Hmid;
        [|cbn [fst messages]; apply Hsame; exact Hk].
      case_bool_decide; [|cbn [fst messages]; apply Hsame; exact Hk]. cbn [fst messages].
      destruct (decide (mid = k)) as [-> | Hne].
      * rewrite Hk in Hmid. injection Hmid as <-.
        exists (Db.soft_delete at_ m). rewrite lookup_insert_eq.
        split; [reflexivity|]. split; [right; eauto|]. repeat split.
      * apply Hsame. rewrite lookup_insert_ne by exact Hne. exact Hk.
  - unfold disconnect. destruct (leave_all_rooms _ _). reflexivity.
Qed.

Lemma requests_never_remove_messages_witness :
  messages Demo.σ1 !! "m2" = Some Demo.room_hello
  ∧ ∃ m', messages (handle Demo.σ1 Demo.alice (DeleteRoomMessage "m2" 60)).1 !! "m2" = Some m'
          ∧ Message.sender m' = "u1".
Proof.
  assert (Hk : messages Demo.σ1 !! "m2" = Some Demo.room_hello) by (vm_compute; reflexivity).
  destruct (requests_never_remove_messages Demo.σ1 Demo.alice (DeleteRoomMessage "m2" 60)
              "m2" Demo.room_hello 0 Hk) as [(m' & H1 & _ & _ & H2 & _) _].
  split; [exact Hk|]. exists m'. split; [exact H1 | exact H2].
Defined.

End Housekeeping.

(** * Properties of the REST routes *)

Section Routes.

(** X8.  A message created through [POST /] is sent by the authenticated
    user and has exactly one of [receiver] and [room]: the receiver of the
    body when there is one, whatever [roomId] says, else the room.  A body
    without text, or with neither target, is answered 400 and nothing is
    stored; so is a save the store refuses.  A collection whose messages
    all have exactly one target keeps that property. *)
Theorem post_sets_one_target
    (ms : gmap string Message.t) (user : string)
    (receiverId roomId text clientMsgId : option string) (oid : string) (now : Z) :
  let r := MessageRoutes.post ms user receiverId roomId text clientMsgId oid now in
  match r.2 with
  | MessageRoutes.Created m =>
      ms !! oid = None
      ∧ r.1 = <[oid := m]> ms
      ∧ Message.sender m = user
      ∧ Some (Message.text m) = text
      ∧ MessageRoutes.one_target m = true
      ∧ (if truthy receiverId
         then Message.receiver m = receiverId ∧ Message.room m = None
         else Message.receiver m = None ∧ Message.room m = roomId ∧ truthy roomId = true)
  | _ => r.1 = ms
  end
  ∧ (truthy text = false → r = (ms, MessageRoutes.BadRequest "Message text is required"))
  ∧ (truthy text = true → truthy receiverId = false → truthy roomId = false →
     r = (ms, MessageRoutes.BadRequest "Either receiverId or roomId is required"))
  ∧ ((∀ k m, ms !! k = Some m → MessageRoutes.one_target m = true) →
     ∀ k m, r.1 !! k = Some m → MessageRoutes.one_target m = true).
Proof.
  intros r.
  assert (Htruthy : ∀ o : option string, truthy o = true → is_Some o)
    by (intros [x|]; [eauto | discriminate]).
  assert (Hmain :
    match r.2 with
    | MessageRoutes.Created m =>
        ms !! oid = None
        ∧ r.1 = <[oid := m]> ms
        ∧ Message.sender m = user
        ∧ Some (Message.text m) = text
        ∧ MessageRoutes.one_target m = true
        ∧ (if truthy receiverId
           then Message.receiver m = receiverId ∧ Message.room m = None
           else Message.receiver m = None ∧ Message.room m = roomId ∧ truthy roomId = true)
    | _ => r.1 = ms
    end).
  { subst r. unfold MessageRoutes.post.
    destruct (truthy text) eqn:Ht; cbn [negb]; [|reflexivity].
    destruct (truthy receiverId) eqn:Hr; [|destruct (truthy roomId) eqn:Hro; [|reflexivity]].
    - destruct (Db.save _ _ _ _) as [[ms' m]|e] eqn:Hsave; [|reflexivity]. cbn [fst snd].
      apply save_Ok_inv in Hsave as (-> & -> & Hfresh & _). cbn.
      destruct (Htruthy _ Ht) as [t ->]. destruct (Htruthy _ Hr) as [x ->].
      repeat split; assumption.
    - destruct (Db.save _ _ _ _) as [[ms' m]|e] eqn:Hsave; [|reflexivity]. cbn [fst snd].
      apply save_Ok_inv in Hsave as (-> & -> & Hfresh & _). cbn.
      destruct (Htruthy _ Ht) as [t ->]. destruct (Htruthy _ Hro) as [x ->].
      repeat split; assumption. }
  split; [exact Hmain|]. split; [|split].
  - intros Ht. subst r. unfold MessageRoutes.post. rewrite Ht. reflexivity.
  - intros Ht Hr Hro. subst r. unfold MessageRoutes.post. rewrite Ht, Hr, Hro. reflexivity.
  - intros Hall k m Hk. destruct r.2 as [m0| | | | |] eqn:Hres;
      try (rewrite Hmain in Hk; exact (Hall k m Hk)).
    destruct Hmain as (_ & Hstore & _ & _ & Hone & _). rewrite Hstore in Hk.
    destruct (decide (oid = k)) as [-> | Hne].
    + rewrite lookup_insert_eq in Hk. injection Hk as <-. exact Hone.
    + rewrite lookup_insert_ne in Hk by exact Hne. exact (Hall k m Hk).
Qed.

(** X9.  [DELETE /:messageId], for an id the query casts to an ObjectId,
    removes the record for good, and only for its sender: anyone else, or
    an id that names no record, gets 404 and the collection is unchanged.
    An id that is no ObjectId is answered 500 and the collection is
    unchanged.  The route does not look at [isDeleted], so a message the
    socket handler soft-deleted is removed as well; and deleting what the
    same user just posted gives back the collection as it was. *)
Theorem rest_delete_is_hard_and_owner_only
    (castable : string → bool)
    (ms : gmap string Message.t) (user messageId : string)
    (receiverId roomId text clientMsgId : option string) (oid : string) (now : Z) :
  let r := MessageRoutes.delete castable ms user messageId in
  (if castable messageId then
     match ms !! messageId with
     | Some m =>
         if bool_decide (Message.sender m = user) then
           r = (delete messageId ms, MessageRoutes.Deleted "Message deleted successfully")
           ∧ r.1 !! messageId = None
           ∧ S (size r.1) = size ms
           ∧ (∀ k, k ≠ messageId → r.1 !! k = ms !! k)
           ∧ (MessageRoutes.delete castable
                (Db.findOneAndUpdate ms messageId user now).1 user messageId).1
             = r.1
         else r = (ms, MessageRoutes.NotFound "Message not found or unauthorized")
     | None => r = (ms, MessageRoutes.NotFound "Message not found or unauthorized")
     end
   else r = (ms, MessageRoutes.CastFailed))
  ∧ match MessageRoutes.post ms user receiverId roomId text clientMsgId oid now with
    | (ms', MessageRoutes.Created m) =>
        MessageRoutes.delete castable ms' user oid
        = if castable oid
          then (ms, MessageRoutes.Deleted "Message deleted successfully")
          else (ms', MessageRoutes.CastFailed)
    | (ms', _) => ms' = ms
    end.
Proof.
  intros r. subst r. split.
  - unfold MessageRoutes.delete, Db.findOneAndDelete.
    destruct (castable messageId); [|reflexivity].
    destruct (ms !! messageId) as [m|] eqn:Hm; [|reflexivity].
    case_bool_decide as Hs; [|reflexivity]. cbn [fst].
    split; [reflexivity|]. split; [apply lookup_delete_eq|].
    split; [rewrite <- (insert_delete_id ms messageId m Hm) at 2; symmetry;
            apply map_size_insert_None, lookup_delete_eq|].
    split; [intros k Hk; apply lookup_delete_ne; congruence|].
    unfold Db.findOneAndUpdate. rewrite Hm, bool_decide_eq_true_2 by exact Hs. cbn [fst].
    rewrite lookup_insert_eq. cbn. rewrite bool_decide_eq_true_2 by exact Hs. cbn [fst].
    apply delete_insert_eq.
  - unfold MessageRoutes.post.
    destruct (negb (truthy text)); [reflexivity|].
    destruct (truthy receiverId); [|destruct (truthy roomId); [|reflexivity]];
      (destruct (Db.save _ _ _ _) as [[ms' m]|e] eqn:Hsave; [|reflexivity]);
      apply save_Ok_inv in Hsave as (-> & -> & Hfresh & _);
      unfold MessageRoutes.delete, Db.findOneAndDelete;
      (destruct (castable oid); [|reflexivity]);
      rewrite lookup_insert_eq; cbn;
      rewrite bool_decide_eq_true_2 by reflexivity;
      rewrite (delete_insert_id _ _ _ Hfresh); reflexivity.
Qed.

Lemma page_of_Some newest_first page limit msgs :
  MessageRoutes.page_of newest_first page limit = Some msgs →
  let p := MessageRoutes.or_default page 1 in
  let l := MessageRoutes.or_default limit 20 in
  (0 ≤ (p - 1) * l)%Z ∧ (0 < l)%Z
  ∧ msgs = reverse (take (Z.to_nat l) (drop (Z.to_nat ((p - 1) * l)) newest_first)).
Proof.
  unfold MessageRoutes.page_of. cbn zeta.
  destruct (Z.leb 0 _) eqn:H1; [|discriminate].
  destruct (Z.ltb 0 _) eqn:H2; [|discriminate]. cbn. intros [= <-].
  apply Z.leb_le in H1. apply Z.ltb_lt in H2. auto.
Qed.

(** X10.  A page of a conversation or of a room is at most [limit]
    messages long, holds only messages that were found, and lists them
    oldest first when the store returned them newest first; the first page
    ends with the newest message.  A missing, unparseable or zero [page]
    or [limit] falls back to page 1 and to 20 messages.  Two consecutive
    pages, the later one first, are the chronological listing of the
    window they cover together. *)
Theorem page_is_chronological
    (newest_first : list Message.t) (page limit : option Z) (msgs : list Message.t) :
  MessageRoutes.newest_first_order newest_first →
  MessageRoutes.page_of newest_first page limit = Some msgs →
  MessageRoutes.oldest_first_order msgs
  ∧ (Z.of_nat (length msgs) ≤ MessageRoutes.or_default limit 20)%Z
  ∧ (∀ m, m ∈ msgs → m ∈ newest_first)
  ∧ (MessageRoutes.or_default page 1 = 1 → last msgs = head newest_first)
  ∧ MessageRoutes.page_of newest_first None None = Some (reverse (take 20 newest_first))
  ∧ MessageRoutes.page_of newest_first (Some 0) (Some 0)
    = MessageRoutes.page_of newest_first None None
  ∧ (∀ p l older newer, (1 ≤ p)%Z → (1 ≤ l)%Z →
       MessageRoutes.page_of newest_first (Some (p + 1)) (Some l) = Some older →
       MessageRoutes.page_of newest_first (Some p) (Some l) = Some newer →
       (older ++ newer)%list
       = reverse (take (Z.to_nat (2 * l)) (drop (Z.to_nat ((p - 1) * l)) newest_first))).
Proof.
  intros Hdesc Hpage.
  destruct (page_of_Some _ _ _ _ Hpage) as (Hskip & Hlimit & ->).
  set (l := Z.to_nat (MessageRoutes.or_default limit 20)).
  set (sk := Z.to_nat ((MessageRoutes.or_default page 1 - 1) * MessageRoutes.or_default limit 20)).
  split; [|split; [|split; [|split; [|split; [|split]]]]].
  - intros i j mi mj Hij Hi Hj.
    apply reverse_lookup_Some in Hi as [Hi Hil]. apply reverse_lookup_Some in Hj as [Hj Hjl].
    apply lookup_take_Some in Hi as [Hi _]. apply lookup_take_Some in Hj as [Hj _].
    rewrite lookup_drop in Hi, Hj.
    refine (Hdesc _ _ _ _ _ Hj Hi). lia.
  - rewrite length_reverse, length_take. subst l. lia.
  - intros m Hm. rewrite elem_of_reverse in Hm.
    apply (subseteq_drop sk). apply (subseteq_take l). exact Hm.
  - intros Hp1. rewrite last_reverse. subst sk l. rewrite Hp1. cbn.
    destruct (Z.to_nat (MessageRoutes.or_default limit 20)) eqn:Hl; [lia|].
    destruct newest_first; reflexivity.
  - reflexivity.
  - reflexivity.
  - intros p lim older newer Hp Hl Holder Hnewer.
    destruct (page_of_Some _ _ _ _ Holder) as (_ & _ & ->).
    destruct (page_of_Some _ _ _ _ Hnewer) as (_ & _ & ->).
    cbn [MessageRoutes.or_default].
    assert (Z.eqb (p + 1) 0 = false) as -> by (apply Z.eqb_neq; lia).
    assert (Z.eqb p 0 = false) as -> by (apply Z.eqb_neq; lia).
    assert (Z.eqb lim 0 = false) as -> by (apply Z.eqb_neq; lia).
    rewrite <- reverse_app.
    replace (Z.to_nat ((p + 1 - 1) * lim))
      with (Z.to_nat ((p - 1) * lim) + Z.to_nat lim)%nat by nia.
    rewrite <- drop_drop, take_take_drop. f_equal. f_equal. lia.
Qed.

Lemma page_is_chronological_witness :
  MessageRoutes.newest_first_order [Demo.room_hello; Demo.direct_hi]
  ∧ MessageRoutes.page_of [Demo.room_hello; Demo.direct_hi] None (Some 1) = Some [Demo.room_hello]
  ∧ MessageRoutes.oldest_first_order [Demo.room_hello].
Proof.
  assert (H1 : MessageRoutes.newest_first_order [Demo.room_hello; Demo.direct_hi]).
  { intros [|[|i]] [|[|j]] mi mj Hij Hi Hj; try lia; try discriminate.
    injection Hi as <-. injection Hj as <-. cbn. lia. }
  assert (H2 : MessageRoutes.page_of [Demo.room_hello; Demo.direct_hi] None (Some 1)
               = Some [Demo.room_hello]) by reflexivity.
  exact (conj H1 (conj H2
           (proj1 (page_is_chronological _ None (Some 1) [Demo.room_hello] H1 H2)))).
Defined.

End Routes.

(** * The room chat against the server *)

Section RoomChatFlows.

Lemma findIndex_no_match {A} (p : A → bool) (l : list A) :
  (∀ x, x ∈ l → p x = false) → findIndex p l = None.
Proof.
  induction l as [|x l IH]; intros H; [reflexivity|]. cbn.
  rewrite (H x) by apply list_elem_of_here.
  rewrite IH; [reflexivity|]. intros y Hy. apply H, list_elem_of_further, Hy.
Qed.

Lemma findIndex_last {A} (p : A → bool) (l : list A) (y : A) :
  (∀ x, x ∈ l → p x = false) → p y = true → findIndex p (l ++ [y]) = Some (length l).
Proof.
  induction l as [|x l IH]; intros H Hy; cbn.
  - rewrite Hy. reflexivity.
  - rewrite (H x) by apply list_elem_of_here.
    rewrite IH; [reflexivity| |exact Hy]. intros z Hz. apply H, list_elem_of_further, Hz.
Qed.

Lemma room_merge_appends prev message :
  (∀ msg, msg ∈ prev → RoomChat.matches message msg = false) →
  RoomChat.merge prev message = (prev ++ [message])%list.
Proof. intros H. unfold RoomChat.merge. rewrite findIndex_no_match by exact H. reflexivity. Qed.

Lemma room_merge_replaces_last prev entry message :
  (∀ msg, msg ∈ prev → RoomChat.matches message msg = false) →
  RoomChat.matches message entry = true →
  RoomChat.merge (prev ++ [entry]) message = (prev ++ [message])%list.
Proof.
  intros H He. unfold RoomChat.merge. rewrite (findIndex_last _ _ _ H He).
  rewrite insert_app_r_alt by lia. rewrite Nat.sub_diag. reflexivity.
Qed.

Lemma matches_by_tempId message entry t :
  t ≠ "" → Wire.tempId entry = Some t → Wire.tempId message = Some t →
  RoomChat.matches message entry = true.
Proof.
  intros Ht He Hm. unfold RoomChat.matches, truthy, strict_eq. rewrite He, Hm.
  rewrite bool_decide_eq_true_2 by reflexivity.
  destruct (String.eqb_spec t ""); [contradiction|reflexivity].
Qed.

Lemma matches_neither message entry :
  Wire.tempId entry ≠ Wire.tempId message → Wire._id entry ≠ Wire._id message →
  RoomChat.matches message entry = false.
Proof.
  intros Ht Hi. unfold RoomChat.matches, strict_eq.
  rewrite !bool_decide_eq_false_2 by assumption. rewrite !andb_false_r. reflexivity.
Qed.

Lemma filter_keeps_all {A} (p : A → bool) (l : list A) :
  (∀ x, x ∈ l → p x = true) → List.filter p l = l.
Proof.
  induction l as [|x l IH]; intros H; [reflexivity|]. cbn.
  rewrite (H x) by apply list_elem_of_here. f_equal.
  apply IH. intros y Hy. apply H, list_elem_of_further, Hy.
Qed.

(** X11.  A room send seen from the room's open chats.  A chat mounted on
    the room, its socket joined to it, whose list holds no entry with the
    send's [tempId] or with the identifier of the new document: when the
    save succeeds the chat ends with the confirmed copy as one entry at the
    end of its list, the same list on the sender's chat (which had appended
    its optimistic entry) and on every other member's; when the save fails
    both are back to the list they had before the send, with the failure
    banner set. *)
Theorem room_send_settles
    (σ : Server.State) (s : Server.Socket) (roomId text t sender senderName oid : string)
    (now saved_at : Z) (c : nat) (st : RoomChat.State) (uid uname typed : string) (typed_at : Z) :
  c ∈ Server.members σ roomId →
  RoomChat.isMounted st = true →
  RoomChat.roomId st = roomId →
  t ≠ "" →
  (∀ msg, msg ∈ RoomChat.messages st →
     Wire.tempId msg ≠ Some t ∧ Wire._id msg ≠ Some t ∧ Wire._id msg ≠ Some oid) →
  let out := (Server.sendRoomMessage σ s roomId text (Some t) sender senderName oid
                now saved_at).2 in
  let sent := RoomChat.receive (RoomChat.handleSendMessage st uid uname typed t typed_at)
                (Server.inbox c out) in
  let seen := RoomChat.receive st (Server.inbox c out) in
  match Db.save (Server.messages σ) oid saved_at
          (Db.mkDoc sender None (Some roomId) text (Some t)) with
  | Ok (_, saved) =>
      RoomChat.messages sent
        = (RoomChat.messages st ++ [Server.savedRoomMessage (Server.users σ) saved (Some t)])%list
      ∧ RoomChat.messages seen = RoomChat.messages sent
      ∧ RoomChat.socketError sent = RoomChat.socketError st
      ∧ RoomChat.socketError seen = RoomChat.socketError st
  | Err _ =>
      RoomChat.messages sent = RoomChat.messages st
      ∧ RoomChat.messages seen = RoomChat.messages st
      ∧ RoomChat.socketError sent = Some "Failed to send message - please try again"
      ∧ RoomChat.socketError seen = Some "Failed to send message - please try again"
  end.
Proof.
  intros Hc Hmounted Hroom Ht Hfresh out sent seen. subst out sent seen.
  destruct st as [r mounted prev err]. cbn in Hmounted, Hroom, Hfresh. subst mounted r.
  rewrite sendRoomMessage_uninterrupted. cbn zeta.
  set (first := Server.immediateMessage roomId text (Some t) sender senderName now).
  assert (Hprev1 : ∀ msg, msg ∈ prev → RoomChat.matches first msg = false).
  { intros msg Hmsg. destruct (Hfresh msg Hmsg) as (H1 & H2 & _).
    apply matches_neither; assumption. }
  assert (Hroom1 : strict_eq (Wire.room first) (Some roomId) = true)
    by (apply bool_decide_eq_true_2; reflexivity).
  destruct (Db.save _ _ _ _) as [[ms saved]|e] eqn:Hsave; cbn [snd].
  - apply save_Ok_inv in Hsave as (Hsaved & _).
    set (second := Server.savedRoomMessage (Server.users σ) saved (Some t)).
    assert (Hc1 : c ∈ Server.members
              (Server.mkState (Server.users σ) ms (Server.sockets σ) (Server.rooms σ)
                 (Server.activeRooms σ)) roomId) by exact Hc.
    rewrite (inbox_io_to_member _ _ _ _ _ Hc), (inbox_io_to_member _ _ _ _ _ Hc1), inbox_nil.
    assert (Hprev2 : ∀ msg, msg ∈ prev → RoomChat.matches second msg = false).
    { intros msg Hmsg. destruct (Hfresh msg Hmsg) as (H1 & _ & H3).
      apply matches_neither; [exact H1|]. subst second saved. exact H3. }
    assert (Hroom2 : strict_eq (Wire.room second) (Some roomId) = true)
      by (subst second saved; apply bool_decide_eq_true_2; reflexivity).
    unfold RoomChat.receive, RoomChat.handleSendMessage. cbn [fold_left RoomChat.on].
    unfold RoomChat.messageHandler.
    cbn [RoomChat.isMounted RoomChat.roomId RoomChat.messages RoomChat.socketError].
    rewrite Hroom1. cbn [andb RoomChat.isMounted RoomChat.roomId RoomChat.messages].
    rewrite Hroom2. cbn [andb RoomChat.messages RoomChat.socketError].
    rewrite (room_merge_replaces_last prev _ first Hprev1)
      by (apply (matches_by_tempId _ _ t); [exact Ht|reflexivity|reflexivity]).
    rewrite (room_merge_appends prev first Hprev1).
    rewrite (room_merge_replaces_last prev first second Hprev2)
      by (apply (matches_by_tempId _ _ t); [exact Ht|reflexivity|reflexivity]).
    repeat split.
  - assert (Hin : Server.inbox c
        [Server.io_to σ roomId (Server.newRoomMessage first);
         Server.socket_emit s
           (Server.messageError "Failed to send room message" None (Some t));
         Server.io_to σ roomId (Server.removeFailedMessage (Some t))]
       = (Server.newRoomMessage first ::
          (if bool_decide (c = Server.socket_id s)
           then [Server.messageError "Failed to send room message" None (Some t)] else [])
          ++ [Server.removeFailedMessage (Some t)])%list).
    { rewrite (inbox_io_to_member _ _ _ _ _ Hc), inbox_socket_emit.
      case_bool_decide; rewrite (inbox_io_to_member _ _ _ _ _ Hc); reflexivity. }
    rewrite Hin. clear Hin.
    assert (Hkeep : ∀ msg, msg ∈ prev →
              negb (strict_eq (Wire.tempId msg) (Some t)) = true).
    { intros msg Hmsg. destruct (Hfresh msg Hmsg) as (H1 & _).
      unfold strict_eq. rewrite bool_decide_eq_false_2 by exact H1. reflexivity. }
    assert (Hdrop : List.filter (λ msg, negb (strict_eq (Wire.tempId msg) (Some t)))
                      (prev ++ [first]) = prev).
    { rewrite List.filter_app, (filter_keeps_all _ _ Hkeep). cbn.
      unfold strict_eq. rewrite bool_decide_eq_true_2 by reflexivity. cbn.
      apply app_nil_r. }
    unfold RoomChat.receive, RoomChat.handleSendMessage.
    cbn [fold_left RoomChat.on]. rewrite !fold_left_app. cbn [fold_left RoomChat.on].
    unfold RoomChat.messageHandler.
    cbn [RoomChat.isMounted RoomChat.roomId RoomChat.messages RoomChat.socketError].
    rewrite Hroom1. cbn [andb].
    rewrite (room_merge_replaces_last prev _ first Hprev1)
      by (apply (matches_by_tempId _ _ t); [exact Ht|reflexivity|reflexivity]).
    rewrite (room_merge_appends prev first Hprev1).
    assert (Hskip : ∀ x, fold_left RoomChat.on
               (if bool_decide (c = Server.socket_id s)
                then [Server.messageError "Failed to send room message" None (Some t)]
                else []) x = x) by (intros x; case_bool_decide; reflexivity).
    rewrite !Hskip. unfold RoomChat.removeFailedHandler.
    cbn [RoomChat.isMounted RoomChat.roomId RoomChat.messages RoomChat.socketError].
    rewrite Hdrop. repeat split.
Qed.

Lemma room_send_settles_witness :
  2%nat ∈ Server.members Demo.σ0 "r1"
  ∧ RoomChat.messages
      (RoomChat.receive
         (RoomChat.handleSendMessage (RoomChat.mkState "r1" true [] None) "u1" "alice" "hi" "t1" 9)
         (Server.inbox 2
            (Server.sendRoomMessage Demo.σ0 Demo.alice "r1" "hi" (Some "t1") "u1" "alice"
               "m1" 10 11).2))
    = [Wire.mk (Some "m1") (Populated "u1" "alice" "") None NullRef (Some "r1") "hi" 11
         (Some "t1") (Some "t1") false None false false false].
Proof.
  assert (H : 2%nat ∈ Server.members Demo.σ0 "r1") by (vm_compute; set_solver).
  split; [exact H|].
  assert (Hfresh : ∀ msg, msg ∈ RoomChat.messages (RoomChat.mkState "r1" true [] None) →
            Wire.tempId msg ≠ Some "t1" ∧ Wire._id msg ≠ Some "t1" ∧ Wire._id msg ≠ Some "m1")
    by (intros msg Hmsg; apply elem_of_nil in Hmsg; contradiction).
  pose proof (room_send_settles Demo.σ0 Demo.alice "r1" "hi" "t1" "u1" "alice" "m1" 10 11
                2%nat (RoomChat.mkState "r1" true [] None) "u1" "alice" "hi" 9
                H eq_refl eq_refl ltac:(discriminate) Hfresh) as P.
  vm_compute in P. vm_compute. exact (proj1 P).
Defined.

Lemma matches_no_tempId message entry :
  Wire.tempId message = None → Wire._id message = None →
  RoomChat.matches message entry = false.
Proof.
  intros Ht Hi. unfold RoomChat.matches, truthy, strict_eq. rewrite Ht, Hi.
  destruct (Wire.tempId entry) as [x|], (Wire._id entry) as [y|]; cbn;
    rewrite ?bool_decide_eq_false_2 by discriminate;
    rewrite ?andb_false_r; reflexivity.
Qed.

(** X12.  A room send that carries no [tempId] and whose save fails (an
    empty text, for one) stores nothing, and the [removeFailedMessage]
    that follows, carrying no [tempId] either, removes from every chat
    mounted on the room every entry that has no [tempId], so every message
    the chat had loaded from the history: what is left are the entries that
    carry a [tempId], in their order. *)
Theorem failed_send_without_tempId_clears_history
    (σ : Server.State) (s : Server.Socket) (roomId text sender senderName oid : string)
    (now saved_at : Z) (e : Error) (c : nat) (st : RoomChat.State) :
  c ∈ Server.members σ roomId →
  RoomChat.isMounted st = true →
  RoomChat.roomId st = roomId →
  Db.save (Server.messages σ) oid saved_at (Db.mkDoc sender None (Some roomId) text None)
    = Err e →
  let r := Server.sendRoomMessage σ s roomId text None sender senderName oid now saved_at in
  let after := RoomChat.receive st (Server.inbox c r.2) in
  r.1 = σ
  ∧ RoomChat.messages after
    = List.filter (λ msg, negb (strict_eq (Wire.tempId msg) None)) (RoomChat.messages st)
  ∧ (∀ msg, msg ∈ RoomChat.messages after
            ↔ msg ∈ RoomChat.messages st ∧ Wire.tempId msg ≠ None)
  ∧ (text = "" →
     ∀ ms, Db.save ms oid saved_at (Db.mkDoc sender None (Some roomId) text None)
           = Err ValidationError).
Proof.
  intros Hc Hmounted Hroom Hsave r after. subst r after.
  destruct st as [rid mounted prev err]. cbn in Hmounted, Hroom. subst mounted rid.
  rewrite sendRoomMessage_uninterrupted. cbn zeta. rewrite Hsave. cbn [fst snd].
  set (first := Server.immediateMessage roomId text None sender senderName now).
  assert (Hin : Server.inbox c
      [Server.io_to σ roomId (Server.newRoomMessage first);
       Server.socket_emit s (Server.messageError "Failed to send room message" None None);
       Server.io_to σ roomId (Server.removeFailedMessage None)]
     = (Server.newRoomMessage first ::
        (if bool_decide (c = Server.socket_id s)
         then [Server.messageError "Failed to send room message" None None] else [])
        ++ [Server.removeFailedMessage None])%list).
  { rewrite (inbox_io_to_member _ _ _ _ _ Hc), inbox_socket_emit.
    case_bool_decide; rewrite (inbox_io_to_member _ _ _ _ _ Hc); reflexivity. }
  rewrite Hin. clear Hin.
  assert (Hlist : RoomChat.messages
            (RoomChat.receive (RoomChat.mkState roomId true prev err)
               (Server.newRoomMessage first ::
                (if bool_decide (c = Server.socket_id s)
                 then [Server.messageError "Failed to send room message" None None] else [])
                ++ [Server.removeFailedMessage None])%list)
          = List.filter (λ msg, negb (strict_eq (Wire.tempId msg) None)) prev).
  { unfold RoomChat.receive. cbn [fold_left RoomChat.on]. rewrite fold_left_app.
    cbn [fold_left RoomChat.on]. unfold RoomChat.messageHandler.
    cbn [RoomChat.isMounted RoomChat.roomId RoomChat.messages RoomChat.socketError].
    assert (strict_eq (Wire.room first) (Some roomId) = true) as ->
      by (apply bool_decide_eq_true_2; reflexivity).
    cbn [andb].
    rewrite room_merge_appends
      by (intros msg _; apply matches_no_tempId; reflexivity).
    assert (Hskip : ∀ x, fold_left RoomChat.on
               (if bool_decide (c = Server.socket_id s)
                then [Server.messageError "Failed to send room message" None None]
                else []) x = x) by (intros x; case_bool_decide; reflexivity).
    rewrite Hskip. unfold RoomChat.removeFailedHandler.
    cbn [RoomChat.isMounted RoomChat.roomId RoomChat.messages RoomChat.socketError].
    rewrite List.filter_app. cbn. unfold strict_eq at 2.
    rewrite bool_decide_eq_true_2 by reflexivity. cbn. apply app_nil_r. }
  split; [reflexivity|]. split; [exact Hlist|]. split.
  - intros msg. rewrite Hlist. cbn [RoomChat.messages].
    rewrite list_elem_of_In, List.filter_In, <- list_elem_of_In.
    unfold strict_eq. split; intros [Hin Ht]; (split; [exact Hin|]).
    + intros Heq. rewrite bool_decide_eq_true_2 in Ht by exact Heq. discriminate.
    + rewrite bool_decide_eq_false_2 by exact Ht. reflexivity.
  - intros -> ms. unfold Db.save, Db.validate. cbn.
    rewrite andb_false_r. reflexivity.
Qed.

Lemma failed_send_without_tempId_clears_history_witness :
  2%nat ∈ Server.members Demo.σ0 "r1"
  ∧ RoomChat.messages
      (RoomChat.receive (RoomChat.mkState "r1" true [Server.doc_wire Demo.room_hello] None)
         (Server.inbox 2
            (Server.sendRoomMessage Demo.σ0 Demo.alice "r1" "" None "u1" "alice"
               "m9" 10 11).2))
    = [].
Proof.
  assert (H : 2%nat ∈ Server.members Demo.σ0 "r1") by (vm_compute; set_solver).
  split; [exact H|].
  pose proof (failed_send_without_tempId_clears_history Demo.σ0 Demo.alice "r1" "" "u1" "alice"
                "m9" 10 11 ValidationError 2%nat
                (RoomChat.mkState "r1" true [Server.doc_wire Demo.room_hello] None)
                H eq_refl eq_refl eq_refl) as P.
  exact (eq_trans (proj1 (proj2 P)) eq_refl).
Defined.

(** X13.  A delete request the server refuses (no such message, or a
    message of somebody else) changes nothing in the store and is answered
    by a [messageError] to the requesting socket alone.  The room chat has
    no listener for it: the entries it marked before emitting stay marked,
    shown as deleted with no error displayed, while the message is stored
    as it was and no other socket is told anything. *)
Theorem refused_delete_is_not_rolled_back
    (σ : Server.State) (s : Server.Socket) (messageId : string) (now : Z)
    (st : RoomChat.State) :
  (∀ m, Server.messages σ !! messageId = Some m → Message.sender m ≠ Server.userId s) →
  let r := Server.deleteRoomMessage σ s messageId now in
  let after := RoomChat.receive (RoomChat.handleDeleteMessage st messageId)
                 (Server.inbox (Server.socket_id s) r.2) in
  r.1 = σ
  ∧ Server.inbox (Server.socket_id s) r.2
    = [Server.messageError "Failed to delete message" None None]
  ∧ (∀ c, c ≠ Server.socket_id s → Server.inbox c r.2 = [])
  ∧ after = RoomChat.handleDeleteMessage st messageId
  ∧ (∀ i msg, RoomChat.messages st !! i = Some msg → Wire._id msg = Some messageId →
       ∃ shown, RoomChat.messages after !! i = Some shown
                ∧ Wire.text shown = "[Message deleted]" ∧ Wire.isDeleted shown = true)
  ∧ RoomChat.socketError after = RoomChat.socketError st.
Proof.
  intros Hrefused r after. subst r after.
  unfold Server.deleteRoomMessage, Server.deleteRoomMessage_update.
  rewrite findOneAndUpdate_refused by exact Hrefused.
  cbn [Server.deleteRoomMessage_notify fst snd].
  assert (Hmine : Server.inbox (Server.socket_id s)
            [Server.socket_emit s (Server.messageError "Failed to delete message" None None)]
          = [Server.messageError "Failed to delete message" None None]).
  { rewrite inbox_socket_emit, bool_decide_eq_true_2 by reflexivity. reflexivity. }
  rewrite Hmine. split; [destruct σ; reflexivity|]. split; [reflexivity|]. split.
  { intros c Hc. rewrite inbox_socket_emit, bool_decide_eq_false_2 by exact Hc. reflexivity. }
  split; [reflexivity|]. split; [|reflexivity].
  intros i msg Hi Hid. cbn [RoomChat.receive fold_left RoomChat.on].
  unfold RoomChat.handleDeleteMessage. cbn [RoomChat.messages].
  rewrite list_lookup_fmap, Hi. cbn. unfold strict_eq.
  rewrite bool_decide_eq_true_2 by exact Hid.
  eexists. split; [reflexivity|]. split; reflexivity.
Qed.

Lemma refused_delete_is_not_rolled_back_witness :
  (∀ m, Server.messages Demo.σ1 !! "m2" = Some m → Message.sender m ≠ Server.userId Demo.bob)
  ∧ Server.messages (Server.deleteRoomMessage Demo.σ1 Demo.bob "m2" 30).1 !! "m2"
    = Some Demo.room_hello
  ∧ Wire.text <$> RoomChat.messages
      (RoomChat.receive
         (RoomChat.handleDeleteMessage
            (RoomChat.mkState "r1" true [Server.doc_wire Demo.room_hello] None) "m2")
         (Server.inbox 2 (Server.deleteRoomMessage Demo.σ1 Demo.bob "m2" 30).2))
    = ["[Message deleted]"].
Proof.
  assert (H : ∀ m, Server.messages Demo.σ1 !! "m2" = Some m →
                   Message.sender m ≠ Server.userId Demo.bob).
  { intros m Hm. vm_compute in Hm. injection Hm as <-. discriminate. }
  split; [exact H|].
  pose proof (refused_delete_is_not_rolled_back Demo.σ1 Demo.bob "m2" 30
                (RoomChat.mkState "r1" true [Server.doc_wire Demo.room_hello] None) H) as P.
  cbv zeta in P. destruct P as (P1 & _ & _ & P4 & _).
  split.
  - rewrite P1. reflexivity.
  - change 2%nat with (Server.socket_id Demo.bob). rewrite P4. reflexivity.
Defined.

(** X14.  A delete request by the sender of a room message is seen alike
    by every chat mounted on the room whose socket is joined to it: each
    entry with the message's [_id] is replaced, in place, by the record the
    server stored (the marker text, [isDeleted] set), the other entries are
    left as they are, and the chat that asked and had marked its entry ends
    with the same list as the others. *)
Theorem accepted_delete_reaches_every_chat
    (σ : Server.State) (s : Server.Socket) (messageId roomId : string) (now : Z)
    (m : Message.t) (c : nat) (st : RoomChat.State) :
  Server.messages σ !! messageId = Some m →
  Message._id m = messageId →
  Message.sender m = Server.userId s →
  Message.room m = Some roomId →
  c ∈ Server.members σ roomId →
  RoomChat.isMounted st = true →
  RoomChat.roomId st = roomId →
  let r := Server.deleteRoomMessage σ s messageId now in
  let stored := Server.doc_wire (Db.soft_delete now m) in
  let asked := RoomChat.receive (RoomChat.handleDeleteMessage st messageId)
                 (Server.inbox c r.2) in
  let told := RoomChat.receive st (Server.inbox c r.2) in
  Server.messages r.1 !! messageId = Some (Db.soft_delete now m)
  ∧ RoomChat.messages told
    = ((λ msg, if strict_eq (Wire._id msg) (Wire._id stored) then stored else msg)
         <$> RoomChat.messages st)
  ∧ RoomChat.messages asked = RoomChat.messages told
  ∧ length (RoomChat.messages told) = length (RoomChat.messages st)
  ∧ Wire.text stored = "[Message deleted]"
  ∧ Wire.isDeleted stored = true
  ∧ Wire._id stored = Some messageId.
Proof.
  intros Hm Hid Hs Hr Hc Hmounted Hroom r stored asked told. subst r asked told.
  destruct st as [rid mounted prev err]. cbn in Hmounted, Hroom. subst mounted rid.
  unfold Server.deleteRoomMessage, Server.deleteRoomMessage_update.
  rewrite (findOneAndUpdate_sender _ _ _ _ _ Hm Hs).
  cbn [Server.deleteRoomMessage_notify fst snd Db.soft_delete Message.room].
  rewrite Hr.
  set (σ1 := Server.mkState _ _ _ _ _).
  assert (Hc1 : c ∈ Server.members σ1 roomId) by exact Hc.
  rewrite (inbox_io_to_member _ _ _ _ _ Hc1), inbox_nil.
  fold (Db.soft_delete now m). fold stored.
  assert (Hroom1 : strict_eq (Wire.room stored) (Some roomId) = true).
  { subst stored. cbn. apply bool_decide_eq_true_2. exact Hr. }
  unfold RoomChat.receive, RoomChat.handleDeleteMessage. cbn [fold_left RoomChat.on].
  unfold RoomChat.messageDeletedHandler.
  cbn [RoomChat.isMounted RoomChat.roomId RoomChat.messages RoomChat.socketError].
  rewrite Hroom1. cbn [andb RoomChat.messages].
  split; [subst σ1; cbn [Server.messages]; apply lookup_insert_eq|].
  split; [reflexivity|]. split.
  - rewrite <- list_fmap_compose. apply list_fmap_ext. intros i msg _.
    assert (Hstored : Wire._id stored = Some messageId) by (subst stored; cbn; congruence).
    cbn [compose]. rewrite Hstored. unfold strict_eq.
    destruct (decide (Wire._id msg = Some messageId)) as [Hmsg|Hmsg].
    + rewrite (bool_decide_eq_true_2 _ Hmsg).
      rewrite bool_decide_eq_true_2 by exact Hmsg. reflexivity.
    + rewrite (bool_decide_eq_false_2 _ Hmsg).
      rewrite bool_decide_eq_false_2 by exact Hmsg. reflexivity.
  - split; [apply length_fmap|]. split; [reflexivity|]. split; [reflexivity|].
    subst stored. cbn. congruence.
Qed.

Lemma accepted_delete_reaches_every_chat_witness :
  Server.messages Demo.σ1 !! "m2" = Some Demo.room_hello
  ∧ 2%nat ∈ Server.members Demo.σ1 "r1"
  ∧ Wire.text <$> RoomChat.messages
      (RoomChat.receive (RoomChat.mkState "r1" true [Server.doc_wire Demo.room_hello] None)
         (Server.inbox 2 (Server.deleteRoomMessage Demo.σ1 Demo.alice "m2" 30).2))
    = ["[Message deleted]"].
Proof.
  assert (H1 : Server.messages Demo.σ1 !! "m2" = Some Demo.room_hello) by reflexivity.
  assert (H2 : 2%nat ∈ Server.members Demo.σ1 "r1") by (vm_compute; set_solver).
  split; [exact H1|]. split; [exact H2|].
  pose proof (accepted_delete_reaches_every_chat Demo.σ1 Demo.alice "m2" "r1" 30
                Demo.room_hello 2%nat
                (RoomChat.mkState "r1" true [Server.doc_wire Demo.room_hello] None)
                H1 eq_refl eq_refl eq_refl H2 eq_refl eq_refl) as P.
  cbv zeta in P. destruct P as (_ & P2 & _).
  rewrite P2. reflexivity.
Defined.

End RoomChatFlows.

(** * The private chat against the server *)

Section PrivateChatFlows.

Lemma private_duplicate_dropped st message :
  (∃ msg, msg ∈ PrivateChat.messages st ∧ PrivateChat.duplicates message msg = true) →
  PrivateChat.handleNewMessage st message = st.
Proof.
  intros Hdup. unfold PrivateChat.handleNewMessage, PrivateChat.merge.
  destruct (_ && _); [|reflexivity]. cbn zeta.
  rewrite (proj2 (some_true _ _) Hdup). destruct st; reflexivity.
Qed.

(** X15.  The chat of the sender never learns over the socket how a direct
    send ended.  With a non-empty [clientMsgId], whatever the server does
    with the request and whichever of the deliveries the chat's socket
    receives, the chat is left as [handleSendMessage] left it: the copy the
    server emits after a successful save is dropped as a duplicate of the
    optimistic entry, which stays temporary, and the [messageError] of a
    failed save, sent to the sending socket alone, finds no listener, so
    the entry is never flagged as failed. *)
Theorem direct_send_outcome_not_shown
    (σ : Server.State) (s : Server.Socket) (receiver text cid oid : string) (now : Z)
    (c : nat) (pc : PrivateChat.State) (uname typed tempId : string) (typed_at : Z) :
  cid ≠ "" →
  let out := (Server.sendMessage σ s receiver text (Some cid) oid now).2 in
  let sending := PrivateChat.handleSendMessage pc uname typed cid tempId typed_at in
  let entry := PrivateChat.tempMessage pc uname typed cid tempId typed_at in
  PrivateChat.receive sending (Server.inbox c out) = sending
  ∧ last (PrivateChat.messages (PrivateChat.receive sending (Server.inbox c out))) = Some entry
  ∧ Wire.isTemp entry = true
  ∧ Wire.isFailed entry = false
  ∧ (∀ e, Db.save (Server.messages σ) oid now
            (Db.mkDoc (Server.userId s) (Some receiver) None text (Some cid)) = Err e →
          Server.inbox (Server.socket_id s) out
          = [Server.messageError "Failed to send message" (Some cid) None]).
Proof.
  intros Hcid out sending entry.
  assert (Hsame : PrivateChat.receive sending (Server.inbox c out) = sending).
  { subst out. unfold Server.sendMessage.
    destruct (Db.save _ _ _ _) as [[ms saved]|e]; cbn [snd].
    - set (w := Server.messageToEmit (Server.users σ) saved (Some cid)).
      assert (Hdrop : PrivateChat.handleNewMessage sending w = sending).
      { apply private_duplicate_dropped. exists entry. split.
        - subst sending. unfold PrivateChat.handleSendMessage. cbn [PrivateChat.messages].
          apply elem_of_app. right. apply list_elem_of_here.
        - unfold PrivateChat.duplicates, truthy, strict_eq. subst entry w. cbn.
          destruct (String.eqb_spec cid ""); [contradiction|].
          rewrite bool_decide_eq_true_2 by reflexivity. reflexivity. }
      rewrite !inbox_cons, inbox_nil. unfold PrivateChat.receive.
      repeat destruct (decide _); cbn [fold_left PrivateChat.on Server.event Server.io_to];
        rewrite ?Hdrop; reflexivity.
    - rewrite inbox_socket_emit. case_bool_decide; reflexivity. }
  split; [exact Hsame|]. split.
  { rewrite Hsame. subst sending. unfold PrivateChat.handleSendMessage.
    cbn [PrivateChat.messages]. apply last_snoc. }
  split; [reflexivity|]. split; [reflexivity|].
  intros e He. subst out. unfold Server.sendMessage. rewrite He. cbn [snd].
  rewrite inbox_socket_emit, bool_decide_eq_true_2 by reflexivity. reflexivity.
Qed.

Lemma direct_send_outcome_not_shown_witness :
  "c1" ≠ ""
  ∧ PrivateChat.receive (PrivateChat.handleSendMessage Demo.chat_with_bob "alice" "hi" "c1" "17" 9)
      (Server.inbox 1 (Server.sendMessage Demo.σ0 Demo.alice "u2" "hi" (Some "c1") "m1" 10).2)
    = PrivateChat.handleSendMessage Demo.chat_with_bob "alice" "hi" "c1" "17" 9.
Proof.
  assert (H : "c1" ≠ "") by discriminate.
  split; [exact H|].
  exact (proj1 (direct_send_outcome_not_shown Demo.σ0 Demo.alice "u2" "hi" "c1" "m1" 10 1%nat
                  Demo.chat_with_bob "alice" "hi" "17" 9 H)).
Defined.

(** X16.  The send of the private chat when the socket is not ready, against
    [POST /messages].  The chat's list holding no entry with the new
    [clientMsgId] or with the [tempId]: when the route saves the message,
    the store gains it under the identity of the caller, with the chat's
    partner as receiver and the chat's [clientMsgId], and the optimistic
    entry is replaced in place by the saved message, no longer temporary;
    when the route refuses, the store is unchanged and the optimistic entry
    stays, flagged as failed.  The other entries are untouched either way. *)
Theorem rest_fallback_settles
    (ms : gmap string Message.t) (us : gmap string User.t) (pc : PrivateChat.State)
    (uname text cid tempId oid : string) (typed_at now : Z) :
  text ≠ "" →
  PrivateChat.userId pc ≠ "" →
  (∀ msg, msg ∈ PrivateChat.messages pc →
     Wire.clientMsgId msg ≠ Some cid ∧ Wire._id msg ≠ Some tempId) →
  let r := MessageRoutes.post ms (PrivateChat.currentUser pc) (Some (PrivateChat.userId pc))
             None (Some text) (Some cid) oid now in
  let entry := PrivateChat.tempMessage pc uname text cid tempId typed_at in
  let after := PrivateChat.handleSendMessage_posted
                 (PrivateChat.handleSendMessage pc uname text cid tempId typed_at)
                 us cid tempId r.2 in
  match Db.save ms oid now
          (Db.mkDoc (PrivateChat.currentUser pc) (Some (PrivateChat.userId pc)) None text
             (Some cid)) with
  | Ok (ms', m) =>
      r = (ms', MessageRoutes.Created m)
      ∧ ms' !! oid = Some m
      ∧ Message.sender m = PrivateChat.currentUser pc
      ∧ Message.receiver m = Some (PrivateChat.userId pc)
      ∧ Message.clientMsgId m = Some cid
      ∧ PrivateChat.messages after
        = (PrivateChat.messages pc ++ [PrivateChat.posted_direct us m])%list
      ∧ Wire.isTemp (PrivateChat.posted_direct us m) = false
      ∧ Wire._id (PrivateChat.posted_direct us m) = Some oid
  | Err e =>
      r = (ms, MessageRoutes.Rejected e)
      ∧ PrivateChat.messages after
        = (PrivateChat.messages pc ++ [PrivateChat.marked_failed entry])%list
      ∧ Wire.isFailed (PrivateChat.marked_failed entry) = true
  end.
Proof.
  intros Htext Hpartner Hfresh r entry after. subst r after.
  unfold MessageRoutes.post. cbn [truthy negb].
  destruct (String.eqb_spec text ""); [contradiction|].
  destruct (String.eqb_spec (PrivateChat.userId pc) ""); [contradiction|].
  cbn [negb default].
  assert (Hothers_c : ∀ (w : Wire.t),
            (λ msg, if strict_eq (Wire.clientMsgId msg) (Some cid) then w else msg)
              <$> PrivateChat.messages pc = PrivateChat.messages pc).
  { intros w. rewrite <- (list_fmap_id (PrivateChat.messages pc)) at 2.
    apply list_fmap_ext. intros i msg Hmsg%list_elem_of_lookup_2. destruct (Hfresh msg Hmsg) as [H1 _].
    unfold strict_eq. rewrite bool_decide_eq_false_2 by exact H1. reflexivity. }
  assert (Hothers_i :
            (λ msg, if strict_eq (Wire._id msg) (Some tempId)
                    then PrivateChat.marked_failed msg else msg)
              <$> PrivateChat.messages pc = PrivateChat.messages pc).
  { rewrite <- (list_fmap_id (PrivateChat.messages pc)) at 2.
    apply list_fmap_ext. intros i msg Hmsg%list_elem_of_lookup_2. destruct (Hfresh msg Hmsg) as [_ H2].
    unfold strict_eq. rewrite bool_decide_eq_false_2 by exact H2. reflexivity. }
  destruct (Db.save _ _ _ _) as [[ms' m]|e] eqn:Hsave; cbn [snd].
  - apply save_Ok_inv in Hsave as (-> & -> & Hnew & _).
    split; [reflexivity|]. split; [apply lookup_insert_eq|].
    split; [reflexivity|]. split; [reflexivity|]. split; [reflexivity|].
    split; [|split; reflexivity].
    unfold PrivateChat.handleSendMessage_posted, PrivateChat.handleSendMessage.
    cbn [PrivateChat.messages]. rewrite fmap_app, Hothers_c. cbn.
    unfold strict_eq. rewrite bool_decide_eq_true_2 by reflexivity. reflexivity.
  - split; [reflexivity|]. split; [|reflexivity].
    unfold PrivateChat.handleSendMessage_posted, PrivateChat.handleSendMessage.
    cbn [PrivateChat.messages]. rewrite fmap_app, Hothers_i. cbn.
    unfold strict_eq. rewrite bool_decide_eq_true_2 by reflexivity. reflexivity.
Qed.

Lemma rest_fallback_settles_witness :
  "hi" ≠ "" ∧ PrivateChat.userId Demo.chat_with_bob ≠ ""
  ∧ Wire._id <$> PrivateChat.messages
      (PrivateChat.handleSendMessage_posted
         (PrivateChat.handleSendMessage Demo.chat_with_bob "alice" "hi" "c1" "17" 9)
         (Server.users Demo.σ0) "c1" "17"
         (MessageRoutes.post ∅ "u1" (Some "u2") None (Some "hi") (Some "c1") "m1" 10).2)
    = [Some "m1"].
Proof.
  assert (H1 : "hi" ≠ "") by discriminate.
  assert (H2 : PrivateChat.userId Demo.chat_with_bob ≠ "") by discriminate.
  assert (H3 : ∀ msg, msg ∈ PrivateChat.messages Demo.chat_with_bob →
                 Wire.clientMsgId msg ≠ Some "c1" ∧ Wire._id msg ≠ Some "17")
    by (intros msg Hmsg; apply elem_of_nil in Hmsg; contradiction).
  split; [exact H1|]. split; [exact H2|].
  pose proof (rest_fallback_settles ∅ (Server.users Demo.σ0) Demo.chat_with_bob
                "alice" "hi" "c1" "17" "m1" 9 10 H1 H2 H3) as P.
  vm_compute in P. destruct P as (_ & _ & _ & _ & _ & P & _).
  exact (f_equal (fmap Wire._id) P).
Defined.

End PrivateChatFlows.

(** * The connection promise of the client *)

Section SocketConnection.
Import SocketClient.

Lemma deaf_after_cleanup refresh st events :
  listening st = false → timer st = false → foldl (on refresh) st events = st.
Proof.
  intros Hl Ht. induction events as [|ev events IH]; [reflexivity|].
  cbn [foldl]. destruct ev; unfold on; rewrite ?Hl, ?Ht; exact IH.
Qed.

(** X18.  No refusal of the server's handshake middleware makes the client
    refresh its token: none of the three messages contains [unauthorized]
    or [jwt], so for a token the server finds invalid (an expired one, for
    one) [onError] rejects the connection promise with the server's
    message, leaves the stored token, the attempt counter and the location
    as they were, and removes both listeners and the timer. *)
Theorem server_refusal_is_never_refreshed
    (e : Server.HandshakeError) (st : State) (token : string) (refresh : Refresh) :
  let st' := on refresh (connectSocket st token) (ConnectError (handshake_message e)) in
  connectionPromise st' = Some (Rejected (handshake_message e))
  ∧ reconnectAttempts st' = reconnectAttempts st
  ∧ accessToken st' = accessToken st
  ∧ instance_token st' = Some token
  ∧ location st' = location st
  ∧ listening st' = false
  ∧ timer st' = false
  ∧ ∀ events refresh', foldl (on refresh') st' events = st'.
Proof.
  intros st'.
  assert (Hno : ∀ e, includes (handshake_message e) "unauthorized" = false
                     ∧ includes (handshake_message e) "jwt" = false)
    by (intros []; split; reflexivity).
  destruct (Hno e) as [H1 H2].
  assert (Hst' : st' = mkState (reconnectAttempts st) (accessToken st) (Some token) false false
                         (Some (Rejected (handshake_message e))) (location st)).
  { subst st'. unfold on, connectSocket. cbn [listening]. unfold onError.
    rewrite H1, H2. reflexivity. }
  rewrite Hst'. repeat split.
  intros events refresh'. apply deaf_after_cleanup; reflexivity.
Qed.

(** X19.  When [onError] does refresh the token (a message containing
    [unauthorized] or [jwt], fewer than three attempts so far, the refresh
    answered), the new token is stored and a new instance is created with
    it, but the listeners and the timer of the promise are gone and none
    is registered on the new instance: whatever the socket does next, the
    connection promise stays pending. *)
Theorem refreshed_connection_never_settles
    (st : State) (token message fresh : string) :
  includes message "unauthorized" || includes message "jwt" = true →
  (reconnectAttempts st < MAX_RECONNECT_ATTEMPTS)%nat →
  let st' := on (Refreshed fresh) (connectSocket st token) (ConnectError message) in
  accessToken st' = Some fresh
  ∧ instance_token st' = Some fresh
  ∧ reconnectAttempts st' = S (reconnectAttempts st)
  ∧ ∀ events refresh, connectionPromise (foldl (on refresh) st' events) = None.
Proof.
  intros Hmsg Hattempts st'.
  assert (Hst' : st' = mkState (S (reconnectAttempts st)) (Some fresh) (Some fresh) false false
                         None (location st)).
  { subst st'. unfold on, connectSocket. cbn [listening]. unfold onError.
    cbn [reconnectAttempts]. rewrite Hmsg, (proj2 (Nat.ltb_lt _ _) Hattempts). reflexivity. }
  rewrite Hst'. split; [reflexivity|]. split; [reflexivity|]. split; [reflexivity|].
  intros events refresh. rewrite deaf_after_cleanup; reflexivity.
Qed.

Lemma refreshed_connection_never_settles_witness :
  includes "jwt expired" "unauthorized" || includes "jwt expired" "jwt" = true
  ∧ connectionPromise
      (foldl (on (Refreshed "t3"))
         (on (Refreshed "t2") (connectSocket (mkState 0 (Some "t1") None false false None None) "t1")
            (ConnectError "jwt expired"))
         [Connect; Timeout]) = None.
Proof.
  assert (H1 : includes "jwt expired" "unauthorized" || includes "jwt expired" "jwt" = true)
    by reflexivity.
  split; [exact H1|].
  assert (H2 : (reconnectAttempts (mkState 0 (Some "t1") None false false None None)
                < MAX_RECONNECT_ATTEMPTS)%nat) by (cbn; unfold MAX_RECONNECT_ATTEMPTS; lia).
  exact (proj2 (proj2 (proj2 (refreshed_connection_never_settles
                  (mkState 0 (Some "t1") None false false None None) "t1" "jwt expired" "t2"
                  H1 H2))) [Connect; Timeout] (Refreshed "t3")).
Defined.

End SocketConnection.

(** * Candidates while signal handlers overlap *)

Section Negotiation.
Import GroupVideoCall.

Variable valid_sdp : string → bool.
Variable valid_candidate : string → bool.
Variable createAnswer : string → string.

Local Abbreviation arrive := (arrive valid_candidate).
Local Abbreviation resume := (resume valid_sdp createAnswer).
Local Abbreviation turn := (turn valid_sdp valid_candidate createAnswer).
Local Abbreviation play := (play valid_sdp valid_candidate createAnswer).
Local Abbreviation received := (candidates_from valid_candidate).

(** What is kept for a sender: the candidates handed over, then the queue. *)
Local Abbreviation kept st from pc :=
  (applied pc ++ default [] (pendingCandidates st !! from))%list.

Lemma flush_keeps st from pc f :
  peerConnections st !! from = Some pc →
  ∃ pc', peerConnections (flush st f).1 !! from = Some pc'
    ∧ kept (flush st f).1 from pc' = kept st from pc
    ∧ (f ≠ from → pc' = pc
         ∧ pendingCandidates (flush st f).1 !! from = pendingCandidates st !! from)
    ∧ (∀ t, (flush st f).2 = Some t → works_for t = Some f).
Proof.
  intros Hpc. unfold flush.
  destruct (decide (f = from)) as [->|Hne].
  - rewrite Hpc. destruct (default [] (pendingCandidates st !! from)) as [|c rest] eqn:Hq; cbn.
    + exists pc. rewrite lookup_insert_eq. cbn. split; [exact Hpc|]. split; [reflexivity|].
      split; [intros H; contradiction H; reflexivity | intros t [=]].
    + rewrite !lookup_insert_eq. eexists. split; [reflexivity|]. cbn.
      split; [rewrite <- app_assoc; reflexivity|].
      split; [intros H; contradiction H; reflexivity | intros t [= <-]; reflexivity].
  - destruct (peerConnections st !! f) as [pcf|];
      [|exists pc; cbn; split; [exact Hpc|]; split; [reflexivity|];
        split; [tauto | intros t [=]]].
    destruct (default [] (pendingCandidates st !! f)) as [|c rest]; cbn;
      rewrite ?lookup_insert_ne by exact Hne; exists pc;
      (split; [exact Hpc|]); (split; [reflexivity|]); (split; [tauto|]).
    + intros t [=].
    + intros t [= <-]. reflexivity.
Qed.

Lemma resume_keeps st t from pc :
  peerConnections st !! from = Some pc →
  ∃ pc', peerConnections (resume st t).1 !! from = Some pc'
    ∧ kept (resume st t).1 from pc' = kept st from pc
    ∧ (works_for t ≠ Some from → pc' = pc
         ∧ pendingCandidates (resume st t).1 !! from = pendingCandidates st !! from)
    ∧ (∀ t', (resume st t).2 = Some t' → works_for t' = works_for t).
Proof.
  intros Hpc.
  assert (Hsame : ∃ pc', peerConnections st !! from = Some pc'
            ∧ kept st from pc' = kept st from pc
            ∧ (works_for t ≠ Some from → pc' = pc
                 ∧ pendingCandidates st !! from = pendingCandidates st !! from))
    by (exists pc; tauto).
  destruct t as [f signal|f offer|f answer|f|]; cbn [GroupVideoCall.resume works_for].
  - destruct (peerConnections st !! f) as [pcf|] eqn:Hf;
      [|destruct Hsame as (pc' & H1 & H2 & H3); exists pc'; cbn;
        split; [exact H1|]; split; [exact H2|]; split; [exact H3 | intros t' [=]]].
    destruct signal as [sdp|sdp|c|];
      try (destruct Hsame as (pc' & H1 & H2 & H3); exists pc'; cbn;
           split; [exact H1|]; split; [exact H2|]; split; [exact H3 | intros t' [=]]).
    + destruct (valid_sdp sdp); cbn;
        [|exists pc; split; [exact Hpc|]; split; [reflexivity|];
          split; [tauto | intros t' [=]]].
      destruct (decide (f = from)) as [->|Hne].
      * rewrite lookup_insert_eq. eexists. split; [reflexivity|]. cbn.
        rewrite Hpc in Hf. injection Hf as <-. split; [reflexivity|].
        split; [intros H; contradiction H; reflexivity | intros t' [= <-]; reflexivity].
      * rewrite lookup_insert_ne by exact Hne. exists pc. split; [exact Hpc|].
        split; [reflexivity|]. split; [tauto | intros t' [= <-]; reflexivity].
    + destruct (valid_sdp sdp); cbn;
        [|exists pc; split; [exact Hpc|]; split; [reflexivity|];
          split; [tauto | intros t' [=]]].
      destruct (decide (f = from)) as [->|Hne].
      * rewrite Hpc in Hf. injection Hf as <-.
        destruct (flush_keeps (set_remote st from pc sdp) from
                    (mkPeer (Some sdp) (localDescription pc) (applied pc) (senders pc)
                       (closed pc)) from) as (pc' & H1 & H2 & _ & H4).
        { unfold set_remote. cbn. apply lookup_insert_eq. }
        exists pc'. split; [exact H1|]. split; [rewrite H2; reflexivity|].
        split; [intros H; contradiction H; reflexivity | exact H4].
      * destruct (flush_keeps (set_remote st f pcf sdp) from pc f) as (pc' & H1 & H2 & H3 & H4).
        { unfold set_remote. cbn. rewrite lookup_insert_ne by exact Hne. exact Hpc. }
        exists pc'. split; [exact H1|]. split; [rewrite H2; reflexivity|].
        split; [intros _; exact (H3 Hne) | exact H4].
  - exists pc. cbn. split; [exact Hpc|]. split; [reflexivity|].
    split; [tauto | intros t' [= <-]; reflexivity].
  - destruct (peerConnections st !! f) as [pcf|] eqn:Hf; cbn;
      [|exists pc; split; [exact Hpc|]; split; [reflexivity|];
        split; [tauto | intros t' [=]]].
    destruct (decide (f = from)) as [->|Hne].
    + rewrite lookup_insert_eq. eexists. split; [reflexivity|]. cbn.
      rewrite Hpc in Hf. injection Hf as <-. split; [reflexivity|].
      split; [intros H; contradiction H; reflexivity | intros t' [=]].
    + rewrite lookup_insert_ne by exact Hne. exists pc. split; [exact Hpc|].
      split; [reflexivity|]. split; [tauto | intros t' [=]].
  - destruct (flush_keeps st from pc f Hpc) as (pc' & H1 & H2 & H3 & H4).
    exists pc'. split; [exact H1|]. split; [exact H2|].
    split; [intros H; apply H3; congruence | exact H4].
  - exists pc. cbn. split; [exact Hpc|]. split; [reflexivity|].
    split; [tauto | intros t' [=]].
Qed.

Lemma arrive_keeps st from pc f signal :
  peerConnections st !! from = Some pc →
  ∃ pc', peerConnections (arrive st f signal).1 !! from = Some pc'
    ∧ (kept (arrive st f signal).1 from pc'
       ≡ₚ kept st from pc ++ received from [Arrives f signal])%list
    ∧ (f ≠ from → pc' = pc
         ∧ pendingCandidates (arrive st f signal).1 !! from = pendingCandidates st !! from)
    ∧ (∀ t, (arrive st f signal).2 = Some t → works_for t = Some f ∨ works_for t = None).
Proof.
  intros Hpc. unfold GroupVideoCall.arrive, candidates_from. cbn [omap list_omap].
  destruct (decide (f = from)) as [->|Hne].
  - rewrite Hpc, String.eqb_refl. cbn [andb].
    destruct signal as [sdp|sdp|c|]; cbn [fst snd];
      try (exists pc; rewrite app_nil_r; split; [exact Hpc|]; split; [reflexivity|];
           split; [tauto | intros t [= <-]; left; reflexivity]);
      try (exists pc; rewrite app_nil_r; split; [exact Hpc|]; split; [reflexivity|];
           split; [tauto | intros t [=]]).
    destruct (remoteDescription pc) as [rd|], (valid_candidate c); cbn;
      rewrite ?app_nil_r.
    + rewrite lookup_insert_eq. eexists. split; [reflexivity|]. cbn. split.
      * rewrite <- !app_assoc. apply Permutation_app_head, Permutation_app_comm.
      * split; [intros H; contradiction H; reflexivity | intros t [= <-]; right; reflexivity].
    + exists pc. split; [exact Hpc|]. split; [reflexivity|].
      split; [tauto | intros t [=]].
    + rewrite lookup_insert_eq. exists pc. split; [exact Hpc|]. cbn.
      split; [rewrite app_assoc; reflexivity|].
      split; [intros H; contradiction H; reflexivity | intros t [=]].
    + exists pc. split; [exact Hpc|]. split; [reflexivity|].
      split; [tauto | intros t [=]].
  - assert (Hr : (match signal with
                  | Candidate c => if String.eqb f from && valid_candidate c
                                   then Some c else None
                  | _ => None
                  end) = None).
    { destruct signal; try reflexivity.
      destruct (String.eqb_spec f from); [contradiction|reflexivity]. }
    rewrite Hr. clear Hr. cbn [app]. rewrite app_nil_r.
    destruct (peerConnections st !! f) as [pcf|];
      [|exists pc; cbn; split; [exact Hpc|]; split; [reflexivity|];
        split; [tauto | intros t [=]]].
    destruct signal as [sdp|sdp|c|]; cbn [fst snd];
      try (exists pc; split; [exact Hpc|]; split; [reflexivity|];
           split; [tauto | intros t [= <-]; left; reflexivity]);
      try (exists pc; split; [exact Hpc|]; split; [reflexivity|];
           split; [tauto | intros t [=]]).
    destruct (remoteDescription pcf), (valid_candidate c); cbn;
      rewrite ?lookup_insert_ne by exact Hne; exists pc;
      (split; [exact Hpc|]); (split; [reflexivity|]); (split; [tauto|]);
      intros t Ht; try discriminate Ht.
    injection Ht as <-. right. reflexivity.
Qed.

(** One turn, for the sender [from]. *)
Lemma turn_keeps ses from pc e :
  peerConnections (component ses) !! from = Some pc →
  ∃ pc', peerConnections (component (turn ses e)) !! from = Some pc'
    ∧ (kept (component (turn ses e)) from pc'
       ≡ₚ kept (component ses) from pc ++ received from [e])%list
    ∧ ((∀ t, t ∈ tasks ses → works_for t ≠ Some from) →
       (∀ f signal, e = Arrives f signal → f ≠ from) →
       pc' = pc
       ∧ pendingCandidates (component (turn ses e)) !! from
         = pendingCandidates (component ses) !! from
       ∧ (∀ t, t ∈ tasks (turn ses e) → works_for t ≠ Some from)).
Proof.
  intros Hpc. destruct e as [f signal|i]; cbn [GroupVideoCall.turn].
  - destruct (arrive_keeps (component ses) from pc f signal Hpc) as (pc' & H1 & H2 & H3 & H4).
    destruct (arrive (component ses) f signal) as [st t] eqn:Ha. cbn [fst snd component tasks] in *.
    exists pc'. split; [exact H1|]. split; [exact H2|].
    intros Htasks Hfrom. specialize (Hfrom f signal eq_refl).
    destruct (H3 Hfrom) as [-> Hq]. split; [reflexivity|]. split; [exact Hq|].
    intros t0 Ht0. apply elem_of_app in Ht0 as [Ht0|Ht0]; [exact (Htasks t0 Ht0)|].
    destruct t as [t|]; cbn in Ht0; [|apply elem_of_nil in Ht0; contradiction].
    apply list_elem_of_singleton in Ht0 as ->.
    destruct (H4 t eq_refl) as [E|E]; rewrite E; congruence.
  - assert (Hnone : received from [Resumes i] = []) by reflexivity.
    rewrite Hnone, app_nil_r.
    destruct (tasks ses !! i) as [t|] eqn:Hi.
    + destruct (resume_keeps (component ses) t from pc Hpc) as (pc' & H1 & H2 & H3 & H4).
      destruct (resume (component ses) t) as [st t'] eqn:Hr.
      cbn [fst snd component tasks] in *.
      exists pc'. split; [exact H1|]. split; [rewrite H2; reflexivity|].
      intros Htasks _.
      assert (Ht : works_for t ≠ Some from)
        by exact (Htasks t (list_elem_of_lookup_2 _ _ _ Hi)).
      destruct (H3 Ht) as [-> Hq]. split; [reflexivity|]. split; [exact Hq|].
      intros t0 Ht0. apply elem_of_app in Ht0 as [Ht0|Ht0];
        [exact (Htasks t0 (subseteq_take _ _ _ Ht0))|].
      apply elem_of_app in Ht0 as [Ht0|Ht0];
        [|exact (Htasks t0 (subseteq_drop _ _ _ Ht0))].
      destruct t' as [t'|]; cbn in Ht0; [|apply elem_of_nil in Ht0; contradiction].
      apply list_elem_of_singleton in Ht0 as ->. rewrite (H4 t' eq_refl). exact Ht.
    + exists pc. split; [exact Hpc|]. split; [reflexivity|]. intros Htasks _.
      split; [reflexivity|]. split; [reflexivity | exact Htasks].
Qed.

Lemma with_signalling_twice st pcs pend out pcs' pend' out' :
  with_signalling (with_signalling st pcs pend out) pcs' pend' out'
  = with_signalling st pcs' pend' (out ++ out').
Proof. unfold with_signalling. cbn. rewrite app_assoc. reflexivity. Qed.

Lemma play_cons ses e es : play ses (e :: es) = play (turn ses e) es.
Proof. reflexivity. Qed.

Lemma flush_turn st from pc c rest :
  peerConnections st !! from = Some pc →
  default [] (pendingCandidates st !! from) = c :: rest →
  turn (mkSession st [Flushing from]) (Resumes 0)
  = mkSession
      (with_signalling st (<[from := hand_over pc c]> (peerConnections st))
         (<[from := rest]> (pendingCandidates st)) [])
      [Flushing from].
Proof.
  intros Hpc Hq. cbn [GroupVideoCall.turn tasks lookup list_lookup component
    GroupVideoCall.resume]. unfold flush. rewrite Hpc, Hq. reflexivity.
Qed.

Lemma flush_loop from pending : ∀ st pc,
  peerConnections st !! from = Some pc →
  default [] (pendingCandidates st !! from) = pending →
  play (mkSession st [Flushing from]) (replicate (S (length pending)) (Resumes 0))
  = mkSession
      (with_signalling st
         (<[from := mkPeer (remoteDescription pc) (localDescription pc)
                      (applied pc ++ pending) (senders pc) (closed pc)]> (peerConnections st))
         (<[from := []]> (pendingCandidates st)) [])
      [].
Proof.
  induction pending as [|c rest IH]; intros st pc Hpc Hq.
  - cbn. unfold flush. rewrite Hpc, Hq. cbn. rewrite app_nil_r.
    rewrite (insert_id (peerConnections st) from); [reflexivity|].
    rewrite Hpc. destruct pc; reflexivity.
  - cbn [length replicate]. rewrite play_cons, (flush_turn st from pc c rest Hpc Hq).
    rewrite (IH _ (hand_over pc c)).
    + rewrite with_signalling_twice. cbn [app hand_over remoteDescription localDescription
        applied senders closed with_signalling peerConnections pendingCandidates].
      rewrite !insert_insert_eq, <- app_assoc. reflexivity.
    + cbn. apply lookup_insert_eq.
    + cbn. rewrite lookup_insert_eq. reflexivity.
Qed.

(** A signal handler that nothing interrupts does what the handler run in
    one piece does: the arrival followed by enough resumptions of the one
    suspended handler. *)
Lemma uninterrupted_signal st from signal :
  ∃ n, component (play (mkSession st []) (Arrives from signal :: replicate n (Resumes 0)))
       = handleGroupCallSignal valid_sdp valid_candidate createAnswer st from signal.
Proof.
  unfold handleGroupCallSignal.
  destruct (peerConnections st !! from) as [pc|] eqn:Hpc.
  2:{ exists 0%nat. cbn. unfold GroupVideoCall.arrive. rewrite Hpc. reflexivity. }
  destruct signal as [sdp|sdp|c|].
  - exists 3%nat. unfold GroupVideoCall.play.
    cbn [replicate foldl GroupVideoCall.turn component tasks]. unfold GroupVideoCall.arrive.
    rewrite Hpc.
    cbn [app option_to_list tasks component lookup list_lookup GroupVideoCall.resume].
    rewrite Hpc. destruct (valid_sdp sdp); [|reflexivity].
    cbn [take drop app option_to_list tasks component lookup list_lookup
      GroupVideoCall.resume].
    unfold set_remote. cbn [with_signalling peerConnections]. rewrite lookup_insert_eq.
    unfold with_signalling. cbn. rewrite insert_insert_eq, app_nil_r. reflexivity.
  - destruct (valid_sdp sdp) eqn:Hv.
    + exists (S (length (default [] (pendingCandidates st !! from)))).
      rewrite play_cons.
      assert (Ha : turn (mkSession st []) (Arrives from (Answer sdp))
                   = mkSession st [SettingRemote from (Answer sdp)])
        by (cbn; unfold GroupVideoCall.arrive; rewrite Hpc; reflexivity).
      rewrite Ha. clear Ha. cbn [replicate]. rewrite play_cons.
      set (st1 := set_remote st from pc sdp).
      set (pc1 := mkPeer (Some sdp) (localDescription pc) (applied pc) (senders pc) (closed pc)).
      assert (Ht : turn (mkSession st [SettingRemote from (Answer sdp)]) (Resumes 0)
                   = turn (mkSession st1 [Flushing from]) (Resumes 0))
        by (cbn; rewrite Hpc, Hv; reflexivity).
      rewrite Ht, <- play_cons. clear Ht.
      change (Resumes 0 :: replicate (length (default [] (pendingCandidates st !! from)))
                             (Resumes 0))
        with (replicate (S (length (default [] (pendingCandidates st !! from)))) (Resumes 0)).
      assert (Hpc1 : peerConnections st1 !! from = Some pc1)
        by (subst st1; unfold set_remote; cbn; apply lookup_insert_eq).
      rewrite (flush_loop from (default [] (pendingCandidates st !! from)) st1 pc1 Hpc1 eq_refl).
      cbn [component].
      subst st1 pc1. unfold set_remote.
      rewrite with_signalling_twice. cbn [app with_signalling peerConnections pendingCandidates
        remoteDescription localDescription applied senders closed].
      rewrite insert_insert_eq. reflexivity.
    + exists 1%nat. unfold GroupVideoCall.play.
      cbn [replicate foldl GroupVideoCall.turn component tasks]. unfold GroupVideoCall.arrive.
      rewrite Hpc.
      cbn [app option_to_list tasks component lookup list_lookup GroupVideoCall.resume].
      rewrite Hpc, Hv. reflexivity.
  - exists 0%nat. cbn. unfold GroupVideoCall.arrive, hand_over. rewrite Hpc.
    destruct (remoteDescription pc), (valid_candidate c); reflexivity.
  - exists 0%nat. cbn. unfold GroupVideoCall.arrive. rewrite Hpc. reflexivity.
Qed.

(** X17.  Signal handlers overlap: each suspends at its awaits and the
    next event is handled meanwhile.  Over every interleaving of arrivals
    and resumptions, a sender that has a peer connection keeps it, and no
    candidate of that sender which the browser accepts is lost or taken
    twice: what was handed to [addIceCandidate] together with what waits in
    the queue is, up to order, what it was at the start followed by the
    candidates that arrived.  The arrivals from other senders and the
    handlers suspended for other senders do not touch that connection or
    its queue. *)
Theorem candidates_are_conserved
    (st : State) (waiting : list Task) (from : string) (pc : PeerConnection)
    (turns : list Turn) :
  peerConnections st !! from = Some pc →
  let ses := play (mkSession st waiting) turns in
  ∃ pc', peerConnections (component ses) !! from = Some pc'
    ∧ (applied pc' ++ default [] (pendingCandidates (component ses) !! from)
       ≡ₚ applied pc ++ default [] (pendingCandidates st !! from) ++ received from turns)%list
    ∧ ((∀ t, t ∈ waiting → works_for t ≠ Some from) →
       (∀ f signal, Arrives f signal ∈ turns → f ≠ from) →
       pc' = pc
       ∧ pendingCandidates (component ses) !! from = pendingCandidates st !! from).
Proof.
  intros Hpc ses. subst ses. revert st waiting pc Hpc.
  induction turns as [|e turns IH]; intros st waiting pc Hpc.
  - exists pc. cbn. rewrite !app_nil_r. split; [exact Hpc|]. split; [reflexivity|].
    intros _ _. split; reflexivity.
  - destruct (turn_keeps (mkSession st waiting) from pc e Hpc) as (pc1 & Hpc1 & Hperm1 & Hoth1).
    destruct (turn (mkSession st waiting) e) as [st1 waiting1] eqn:Hturn.
    cbn [component tasks] in *.
    destruct (IH st1 waiting1 pc1 Hpc1) as (pc2 & Hpc2 & Hperm2 & Hoth2).
    assert (Hrecv : received from (e :: turns)
                    = (received from [e] ++ received from turns)%list).
    { unfold candidates_from. cbn [omap list_omap].
      destruct (match e with Arrives _ _ => _ | Resumes _ => _ end); reflexivity. }
    exists pc2. change (play (mkSession st waiting) (e :: turns))
      with (play (turn (mkSession st waiting) e) turns). rewrite Hturn.
    split; [exact Hpc2|]. split.
    + rewrite Hperm2, Hrecv. rewrite (app_assoc (applied pc1)), Hperm1.
      rewrite <- !app_assoc. reflexivity.
    + intros Htasks Hfrom.
      destruct Hoth1 as (-> & Hq1 & Htasks1);
        [exact Htasks | intros f signal ->; apply (Hfrom f signal), list_elem_of_here|].
      destruct Hoth2 as (-> & Hq2);
        [exact Htasks1
        | intros f signal Hin; apply (Hfrom f signal), list_elem_of_further, Hin|].
      split; [reflexivity|]. rewrite Hq2. exact Hq1.
Qed.

End Negotiation.

Lemma candidates_are_conserved_witness :
  GroupVideoCall.peerConnections Demo.calling !! "u2"
    = Some (GroupVideoCall.mkPeer None (Some "offer of alice") [] [] false)
  ∧ ∃ pc',
      GroupVideoCall.peerConnections
        (GroupVideoCall.component
           (GroupVideoCall.play Demo.browser_accepts Demo.browser_accepts Demo.answer_to
              (GroupVideoCall.mkSession Demo.calling []) Demo.overlapping)) !! "u2" = Some pc'
      ∧ GroupVideoCall.applied pc' = ["c1"; "c3"; "c2"]
      ∧ GroupVideoCall.remoteDescription pc' = Some "answer of bob".
Proof.
  assert (H : GroupVideoCall.peerConnections Demo.calling !! "u2"
              = Some (GroupVideoCall.mkPeer None (Some "offer of alice") [] [] false)) by reflexivity.
  split; [exact H|].
  destruct (candidates_are_conserved Demo.browser_accepts Demo.browser_accepts Demo.answer_to
              Demo.calling [] "u2" _ Demo.overlapping H) as (pc' & Hpc' & _).
  exists pc'. split; [exact Hpc'|].
  vm_compute in Hpc'. injection Hpc' as <-. split; reflexivity.
Defined.
